(** * sszgen: the type model of the SSZ code generator

    A shallow embedding of [sszgen/main.go]: the [Value] model node, the
    fixed-size classifier [isFixed], the deep [copy], the tag readers, the
    model builder ([generateIR], [encodeItem], [parseASTStructType],
    [parseASTFieldType]) and the selection loop of [print].

    Conventions.
    - A Go [uint64] is a [Z]; the conversion [uint64(x)] of an [int] is
      written [uint64 x] (reduction modulo 2^64).
    - A call that can return an [error], panic, or recurse without bound
      returns a [Result]; the recursive builder takes a fuel argument.
    - Go strings are byte strings: [string] of [ascii]. *)

From Stdlib Require Import ZArith Ascii String List Bool Lia.
From stdpp Require Import base option list gmap strings.

Import ListNotations.
Local Open Scope string_scope.
Local Open Scope Z_scope.
Set Warnings "-register-all".

(** ** The [strings] helpers used by the tag readers *)

Module strings.

(** [strings.HasPrefix(s, prefix)] *)
Definition HasPrefix (s prefix : string) : bool := String.prefix prefix s.

(** [strings.HasSuffix(s, suffix)] *)
Definition HasSuffix (s suffix : string) : bool :=
  let ls := String.length s in
  let lx := String.length suffix in
  (lx <=? ls)%nat && String.eqb (String.substring (ls - lx) lx s) suffix.

(** [strings.Contains(s, sep)] for a one-byte [sep] *)
Fixpoint Contains (s : string) (sep : ascii) : bool :=
  match s with
  | EmptyString => false
  | String a rest => Ascii.eqb a sep || Contains rest sep
  end.

Fixpoint dropWhile (cut : ascii) (l : list ascii) : list ascii :=
  match l with
  | a :: rest => if Ascii.eqb a cut then dropWhile cut rest else l
  | [] => []
  end.

(** [strings.Trim(s, cutset)] for a one-byte [cutset]: every leading and
    trailing occurrence of the byte is removed. *)
Definition Trim (s : string) (cut : ascii) : string :=
  string_of_list_ascii
    (rev (dropWhile cut (rev (dropWhile cut (list_ascii_of_string s))))).

(** [strings.Split(s, sep)] for a one-byte [sep]: the pieces between the
    separators, empty pieces included; the empty string gives one empty
    piece. *)
Fixpoint Split (s : string) (sep : ascii) : list string :=
  match s with
  | EmptyString => [EmptyString]
  | String a rest =>
      if Ascii.eqb a sep then EmptyString :: Split rest sep
      else match Split rest sep with
           | piece :: pieces => String a piece :: pieces
           | [] => [String a EmptyString]
           end
  end.

End strings.

(** The double quote character, and the string made of it. *)
Definition quote : ascii := "034"%char.
Definition quoteStr : string := String quote EmptyString.

(** ** Outcomes of a call *)

(** One constructor per [fmt.Errorf] site of the builder. *)
Inductive Error : Type :=
| ErrTwoStructs (name : string)
| ErrCannotFindStruct (name : string)
| ErrImportAlias (path : string) (alias1 alias2 : string)
| ErrCouldNotFind (name : string)
| ErrFailedToEncode (name : string) (cause : Error)
| ErrCannotHandle
| ErrArrayNotUnderstood (name : string)
| ErrArrayLength (name : string)
| ErrUnexpectedType (name : string) (ty : string)
| ErrSizeMismatch (name : string) (sszSize fixedSize : Z)
| ErrTypeNotFound (name : string)
| ErrBitlistNoMax (name : string)
| ErrBitvectorTag (name : string) (cause : Error)
| ErrBitvectorNoTags (name : string)
| ErrBitvectorNoSize (name : string)
| ErrDimensions (msg : string).

Inductive Result (A : Type) : Type :=
| Ok (a : A)
| Err (err : Error)
| Panic
| OutOfFuel.

Arguments Ok {A} a.
Arguments Err {A} err.
Arguments Panic {A}.
Arguments OutOfFuel {A}.

Definition isOk {A} (r : Result A) : bool :=
  match r with Ok _ => true | _ => false end.

(** ** The model node *)

(** [Type] of main.go, lines 229-250. *)
Inductive Type_ : Type :=
| TypeUndefined
| TypeUint
| TypeBool
| TypeBytes
| TypeBitList
| TypeVector
| TypeList
| TypeContainer
| TypeReference.

Global Instance Type_eq_dec : EqDecision Type_.
Proof. solve_decision. Defined.

(** [Type.String] *)
Definition Type_String (t : Type_) : string :=
  match t with
  | TypeUndefined => "undefined"
  | TypeUint => "uint"
  | TypeBool => "bool"
  | TypeBytes => "bytes"
  | TypeBitList => "bitlist"
  | TypeVector => "vector"
  | TypeList => "list"
  | TypeContainer => "container"
  | TypeReference => "reference"
  end.

(** [Value] of main.go, lines 176-200.  The pointers [o[i]] and [e] own
    their targets (every node the builder links in is either freshly
    allocated or a [copy]), so a node is a finite tree.  [e = None] is the
    nil pointer; the entries of [o] are nodes, [parseASTStructType] appends
    a field only when it is not nil.  The same nodes as cells of a store,
    with their addresses, are in [Store] below. *)
Inductive Value : Type := mkValue {
  name : string;
  obj : string;
  s : Z;
  t : Type_;
  o : list Value;
  e : option Value;
  c : bool;
  m : Z;
  ref : string;
  noPtr : bool;
  fixed : bool
}.

(** [&Value{}]: every field at its zero value. *)
Definition zeroValue : Value :=
  mkValue "" "" 0 TypeUndefined [] None false 0 "" false false.

Definition set_name (n : string) (v : Value) : Value :=
  mkValue n (obj v) (s v) (t v) (o v) (e v) (c v) (m v) (ref v) (noPtr v) (fixed v).
Definition set_obj (x : string) (v : Value) : Value :=
  mkValue (name v) x (s v) (t v) (o v) (e v) (c v) (m v) (ref v) (noPtr v) (fixed v).
Definition set_s (x : Z) (v : Value) : Value :=
  mkValue (name v) (obj v) x (t v) (o v) (e v) (c v) (m v) (ref v) (noPtr v) (fixed v).
Definition set_t (x : Type_) (v : Value) : Value :=
  mkValue (name v) (obj v) (s v) x (o v) (e v) (c v) (m v) (ref v) (noPtr v) (fixed v).
Definition set_o (x : list Value) (v : Value) : Value :=
  mkValue (name v) (obj v) (s v) (t v) x (e v) (c v) (m v) (ref v) (noPtr v) (fixed v).
Definition set_e (x : option Value) (v : Value) : Value :=
  mkValue (name v) (obj v) (s v) (t v) (o v) x (c v) (m v) (ref v) (noPtr v) (fixed v).
Definition set_c (x : bool) (v : Value) : Value :=
  mkValue (name v) (obj v) (s v) (t v) (o v) (e v) x (m v) (ref v) (noPtr v) (fixed v).
Definition set_m (x : Z) (v : Value) : Value :=
  mkValue (name v) (obj v) (s v) (t v) (o v) (e v) (c v) x (ref v) (noPtr v) (fixed v).
Definition set_ref (x : string) (v : Value) : Value :=
  mkValue (name v) (obj v) (s v) (t v) (o v) (e v) (c v) (m v) x (noPtr v) (fixed v).
Definition set_noPtr (x : bool) (v : Value) : Value :=
  mkValue (name v) (obj v) (s v) (t v) (o v) (e v) (c v) (m v) (ref v) x (fixed v).
Definition set_fixed (x : bool) (v : Value) : Value :=
  mkValue (name v) (obj v) (s v) (t v) (o v) (e v) (c v) (m v) (ref v) (noPtr v) x.

(** Structural induction that reaches the nodes under [o] and [e]. *)
Section Value_ind.
Variable P : Value -> Prop.
Hypothesis step : forall v,
  Forall P (o v) -> (forall x, e v = Some x -> P x) -> P v.

Fixpoint Value_tree_ind (v : Value) : P v :=
  match v as v0 return P v0 with
  | mkValue n ob s0 t0 o0 e0 c0 m0 r0 np fx =>
      step (mkValue n ob s0 t0 o0 e0 c0 m0 r0 np fx)
        ((fix all (l : list Value) : Forall P l :=
            match l with
            | [] => @List.Forall_nil _ P
            | x :: l' => @List.Forall_cons _ P x l' (Value_tree_ind x) (all l')
            end) o0)
        (match e0 as e1 return forall x, e1 = Some x -> P x with
         | Some y => fun x H =>
             match H in _ = sx
                   return match sx with Some z => P z | None => True end with
             | eq_refl => Value_tree_ind y
             end
         | None => fun x H =>
             match H in _ = sx
                   return match sx with Some z => P x | None => True end with
             | eq_refl => I
             end
         end)
  end.
End Value_ind.

(** [Value.isFixed], main.go lines 1120-1163.  [Panic] is a Go panic: the
    [default] branch, or the nil dereference [v.e.t] of a vector without an
    element.  The diagnostic [fmt.Printf] calls write to standard output
    only and are left out. *)
Fixpoint isFixed (v : Value) : Result bool :=
  match v with
  | mkValue _ _ s0 t0 o0 e0 _ _ _ _ fixed0 =>
      match t0 with
      | TypeUint | TypeBool => Ok true
      | TypeList | TypeBitList => Ok false
      | TypeVector =>
          match e0 with
          | Some x => isFixed x
          | None => Panic
          end
      | TypeBytes => if fixed0 then Ok true else Ok false
      | TypeContainer =>
          (fix fields (fs : list Value) : Result bool :=
             match fs with
             | [] => Ok true
             | f :: rest =>
                 match isFixed f with
                 | Ok true => fields rest
                 | Ok false => Ok false
                 | other => other
                 end
             end) o0
      | TypeReference => if negb (s0 =? 0) then Ok true else Ok false
      | TypeUndefined => Panic
      end
  end.

(** [Value.copy], main.go lines 215-226, on trees: a new node with the same
    scalar fields, a new [o] holding copies of the fields, and a copy of
    the element when there is one. *)
Fixpoint copy (v : Value) : Value :=
  match v with
  | mkValue n ob s0 t0 o0 e0 c0 m0 r0 np fx =>
      mkValue n ob s0 t0
        ((fix each (l : list Value) : list Value :=
            match l with
            | [] => []
            | x :: l' => copy x :: each l'
            end) o0)
        (match e0 with Some x => Some (copy x) | None => None end)
        c0 m0 r0 np fx
  end.

(** [isBasicType], main.go lines 447-449. *)
Definition isBasicType (v : Value) : bool :=
  bool_decide (t v = TypeUint) || bool_decide (t v = TypeBool)
  || bool_decide (t v = TypeBytes).

(** ** The Go syntax tree read by the builder *)

(** The part of [go/ast] that main.go inspects.  [OtherExpr] stands for
    every expression form main.go does not name (map, channel and function
    types, [...] in an array length, parenthesised types, ...), with its
    printed text. *)
Module ast.

Record FieldOf (E : Type) : Type := mkField {
  Names : list string;
  Type_ : E;
  Tag : option string
}.
Arguments mkField {E} Names Type_ Tag.
Arguments Names {E} _.
Arguments Type_ {E} _.
Arguments Tag {E} _.

Inductive Expr : Type :=
| Ident (Name : string)
| BasicLit (Value : string)
| StarExpr (X : Expr)
| SelectorExpr (X : Expr) (Sel : string)
| ArrayType (Len : option Expr) (Elt : Expr)
| StructType (Fields : list (FieldOf Expr))
| InterfaceType
| OtherExpr (text : string).

Definition Field : Type := FieldOf Expr.

Record FuncType : Type := mkFuncType {
  Params : list Field;
  Results : option (list Field)
}.

Record FuncDecl : Type := mkFuncDecl {
  Recv : option (list Field);
  FuncName : string;
  FuncTy : FuncType
}.

Inductive Spec : Type :=
| TypeSpec (Name : string) (Type_ : Expr)
| OtherSpec.

Inductive Decl : Type :=
| GenDecl (Specs : list Spec)
| FuncDeclD (f : FuncDecl)
| BadDecl.

Record ImportSpec : Type := mkImportSpec {
  ImportName : option string;
  Path : string
}.

Record File : Type := mkFile {
  Name : string;
  Decls : list Decl;
  Imports : list ImportSpec
}.

(** [format.Node] on a type expression.  Composite literals print
    abbreviated: their text is only ever compared with ["int"],
    ["[]byte"], ["error"] and ["*ssz.Hasher"]. *)
Fixpoint formatNode (x : Expr) : string :=
  match x with
  | Ident n => n
  | BasicLit v => v
  | StarExpr y => "*" ++ formatNode y
  | SelectorExpr y sel => formatNode y ++ "." ++ sel
  | ArrayType None elt => "[]" ++ formatNode elt
  | ArrayType (Some len) elt => "[" ++ formatNode len ++ "]" ++ formatNode elt
  | StructType _ => "struct{...}"
  | InterfaceType => "interface{...}"
  | OtherExpr text => text
  end.

End ast.

(** ** Declarations collected from the files *)

(** [astStruct], main.go lines 515-522.  [obj] holds the field list of the
    [*ast.StructType], [typ] the aliased type expression; either may be
    nil. *)
Module astStruct.
Record t : Type := mk {
  name : string;
  obj : option (list ast.Field);
  packName : string;
  typ : option ast.Expr;
  implFunc : bool;
  isRef : bool
}.
Definition set_implFunc (b : bool) (x : t) : t :=
  mk (name x) (obj x) (packName x) (typ x) b (isRef x).
Definition set_isRef (b : bool) (x : t) : t :=
  mk (name x) (obj x) (packName x) (typ x) (implFunc x) b.
End astStruct.

(** [astResult], main.go lines 524-528. *)
Module astResult.
Record t : Type := mk {
  objs : list astStruct.t;
  funcs : list string;
  packName : string
}.
End astResult.

(** [astImport], main.go lines 637-640. *)
Module astImport.
Record t : Type := mk {
  alias : string;
  path : string
}.
End astImport.

(** [isSpecificFunc], main.go lines 588-618.  [check] dereferences the
    field list, so a function type without results ([Results] nil) makes
    it panic. *)
Definition check (types : option (list ast.Field)) (args : list string)
  : Result bool :=
  match types with
  | None => Panic
  | Some list =>
      if negb (length list =? length args)%nat then Ok false
      else Ok (forallb (fun p => String.eqb (ast.formatNode (ast.Type_ (fst p))) (snd p))
                 (combine list args))
  end.

Definition isSpecificFunc (funcDecl : ast.FuncDecl) (in_ out : list string)
  : Result bool :=
  match check (Some (ast.Params (ast.FuncTy funcDecl))) in_ with
  | Ok true => check (ast.Results (ast.FuncTy funcDecl)) out
  | other => other
  end.

(** [isFuncDecl], main.go lines 620-635. *)
Definition isFuncDecl (funcDecl : ast.FuncDecl) : Result bool :=
  let name := ast.FuncName funcDecl in
  if String.eqb name "SizeSSZ" then isSpecificFunc funcDecl [] ["int"]
  else if String.eqb name "MarshalSSZTo" then
    isSpecificFunc funcDecl ["[]byte"] ["[]byte"; "error"]
  else if String.eqb name "UnmarshalSSZ" then
    isSpecificFunc funcDecl ["[]byte"] ["error"]
  else if String.eqb name "HashTreeRootWith" then
    isSpecificFunc funcDecl ["*ssz.Hasher"] ["error"]
  else Ok false.

(** The [*ast.TypeSpec] branch of [decodeASTStruct]: the declaration is
    kept when it is a struct or an alias, dropped when it is an interface. *)
Definition decodeTypeSpec (packName name : string) (ty : ast.Expr)
  : option astStruct.t :=
  match ty with
  | ast.StructType fields =>
      Some (astStruct.mk name (Some fields) packName None false false)
  | ast.InterfaceType => None
  | other => Some (astStruct.mk name None packName (Some other) false false)
  end.

Definition decodeSpecs (packName : string) (specs : list ast.Spec)
  : list astStruct.t :=
  flat_map (fun spec =>
              match spec with
              | ast.TypeSpec name ty =>
                  match decodeTypeSpec packName name ty with
                  | Some x => [x]
                  | None => []
                  end
              | ast.OtherSpec => []
              end) specs.

(** The [*ast.FuncDecl] branch of [decodeASTStruct]: [Some objName] when
    the declaration is a method on [*objName] that [isFuncDecl] accepts. *)
Definition decodeFuncDecl (funcDecl : ast.FuncDecl) : Result (option string) :=
  match ast.Recv funcDecl with
  | None => Ok None
  | Some [] => Panic
  | Some (recv :: _) =>
      match ast.Type_ recv with
      | ast.StarExpr (ast.Ident objName) =>
          match isFuncDecl funcDecl with
          | Ok true => Ok (Some objName)
          | Ok false => Ok None
          | Err err => Err err
          | Panic => Panic
          | OutOfFuel => OutOfFuel
          end
      | _ => Ok None
      end
  end.

(** The loop over [file.Decls]: the declarations found so far and the
    counters [funcRefs]. *)
Fixpoint decodeDecls (packName : string) (decls : list ast.Decl)
  (objs : list astStruct.t) (funcRefs : gmap string nat)
  : Result (list astStruct.t * gmap string nat) :=
  match decls with
  | [] => Ok (objs, funcRefs)
  | dec :: rest =>
      match dec with
      | ast.GenDecl specs =>
          decodeDecls packName rest (objs ++ decodeSpecs packName specs) funcRefs
      | ast.FuncDeclD funcDecl =>
          match decodeFuncDecl funcDecl with
          | Ok (Some objName) =>
              decodeDecls packName rest objs
                (<[objName := S (default 0%nat (funcRefs !! objName))]> funcRefs)
          | Ok None => decodeDecls packName rest objs funcRefs
          | Err err => Err err
          | Panic => Panic
          | OutOfFuel => OutOfFuel
          end
      | ast.BadDecl => decodeDecls packName rest objs funcRefs
      end
  end.

(** [decodeASTStruct], main.go lines 530-586.  The names with exactly four
    accepted methods are listed in the order the map yields them. *)
Definition decodeASTStruct (file : ast.File) : Result astResult.t :=
  let packName := ast.Name file in
  match decodeDecls packName (ast.Decls file) [] ∅ with
  | Ok (objs, funcRefs) =>
      Ok (astResult.mk objs
            (map fst (filter (fun p => snd p = 4%nat) (map_to_list funcRefs)))
            packName)
  | Err err => Err err
  | Panic => Panic
  | OutOfFuel => OutOfFuel
  end.

(** [trimQuotes] and [decodeASTImports], main.go lines 656-677. *)
Definition trimQuotes (a : string) : string := strings.Trim a quote.

Definition decodeASTImports (file : ast.File) : list astImport.t :=
  flat_map (fun i =>
              match ast.ImportName i with
              | Some n =>
                  if String.eqb n "_" then []
                  else [astImport.mk n (trimQuotes (ast.Path i))]
              | None => [astImport.mk "" (trimQuotes (ast.Path i))]
              end) (ast.Imports file).

(** ** Tags *)

(** The loop of [getTags] over the space-separated pieces. *)
Fixpoint getTagsLoop (pieces : list string) (field : string) : option string :=
  match pieces with
  | [] => None
  | tag :: rest =>
      if negb (strings.Contains tag ":"%char) then None
      else match strings.Split tag ":"%char with
           | [tagName; vals] =>
               if negb (strings.HasPrefix vals quoteStr)
                  || negb (strings.HasSuffix vals quoteStr) then None
               else if negb (String.eqb tagName field) then getTagsLoop rest field
               else Some (strings.Trim vals quote)
           | _ => None
           end
  end.

(** [getTags], main.go lines 1093-1118: [None] is the [false] result. *)
Definition getTags (str field : string) : option string :=
  getTagsLoop (strings.Split (strings.Trim str "`"%char) " "%char) field.

(** [uint64(x)] for an [int] [x]. *)
Definition uint64 (x : Z) : Z := x mod 2 ^ 64.

(** The test at the head of [parseASTFieldType]: the field carries the tag
    [ssz:"-"]. *)
Definition omitted (tags : string) : bool :=
  match getTags tags "ssz" with
  | Some tag => String.eqb tag "-"
  | None => false
  end.

(** [isExportedField], main.go lines 1076-1078; indexing the empty string
    panics. *)
Definition isExportedField (str : string) : Result bool :=
  match str with
  | EmptyString => Panic
  | String a _ => Ok (nat_of_ascii a <=? 90)%nat
  end.

(** Modelled from the spec: the type [SSZDimension] and the function
    [extractSSZDimensions] are declared outside main.go.  One annotation
    per array dimension, which declares the dimension fixed (a vector
    length) or bounded-variable (a list bound); the accessors are the ones
    main.go calls. *)
Record SSZDimension : Type := mkDim {
  VectorLength : option Z;
  ListLength : option Z;
  isBitlist : bool
}.

Definition IsVector (dim : SSZDimension) : bool := bool_decide (is_Some (VectorLength dim)).
Definition IsList (dim : SSZDimension) : bool := bool_decide (is_Some (ListLength dim)).
Definition IsBitlist (dim : SSZDimension) : bool := isBitlist dim.
Definition VectorLen (dim : SSZDimension) : Z := default 0 (VectorLength dim).
Definition ListLen (dim : SSZDimension) : Z := default 0 (ListLength dim).

(** ** The environment *)

(** [env], main.go lines 277-297.  The Go maps [files] and [include] are
    kept as the sequence of their entries in the order the [range] loops
    visit them, which Go leaves open. *)
Module env.
Record t : Type := mk {
  source : string;
  include : list (string * ast.File);
  files : list (string * ast.File);
  packName : string;
  raw : list astStruct.t;
  objs : gmap string Value;
  order : gmap string (list string);
  targets : list string;
  imports : list astImport.t;
  excludeTypeNames : gmap string bool
}.
Definition set_raw (x : list astStruct.t) (e : t) : t :=
  mk (source e) (include e) (files e) (packName e) x (objs e) (order e)
     (targets e) (imports e) (excludeTypeNames e).
Definition set_objs (x : gmap string Value) (e : t) : t :=
  mk (source e) (include e) (files e) (packName e) (raw e) x (order e)
     (targets e) (imports e) (excludeTypeNames e).
Definition set_order (x : gmap string (list string)) (e : t) : t :=
  mk (source e) (include e) (files e) (packName e) (raw e) (objs e) x
     (targets e) (imports e) (excludeTypeNames e).
Definition set_imports (x : list astImport.t) (e : t) : t :=
  mk (source e) (include e) (files e) (packName e) (raw e) (objs e) (order e)
     (targets e) x (excludeTypeNames e).
End env.

(** A method of [*env]: reads and updates the environment, or stops. *)
Definition M (A : Type) : Type := env.t -> Result (A * env.t).

Definition ret {A} (a : A) : M A := fun st => Ok (a, st).
Definition fail {A} (err : Error) : M A := fun _ => Err err.
Definition bind {A B} (x : M A) (k : A -> M B) : M B :=
  fun st =>
    match x st with
    | Ok (a, st') => k a st'
    | Err err => Err err
    | Panic => Panic
    | OutOfFuel => OutOfFuel
    end.

Notation "x <- a ;; k" := (bind a (fun x => k))
  (at level 100, a at next level, right associativity).

(** [contains], main.go lines 819-826. *)
Fixpoint contains (i : string) (j : list string) : bool :=
  match j with
  | [] => false
  | a :: rest => if String.eqb a i then true else contains i rest
  end.

(** [env.getRawItemByName], main.go lines 679-686. *)
Fixpoint getRawItemByName (name : string) (raw : list astStruct.t)
  : option astStruct.t :=
  match raw with
  | [] => None
  | item :: rest =>
      if String.eqb (astStruct.name item) name then Some item
      else getRawItemByName name rest
  end.

Section Builder.

(** [strconv.Atoi] and [strconv.ParseUint(_, 0, 64)]: [None] is an
    error. *)
Variable Atoi : string -> option Z.
Variable ParseUint : string -> option Z.
Variable extractSSZDimensions : string -> Result (list SSZDimension).

(** [getTagsInt], main.go lines 1081-1091. *)
Definition getTagsInt (str field : string) : option Z :=
  match getTags str field with
  | None => None
  | Some numStr =>
      match Atoi numStr with
      | None => None
      | Some num => Some (uint64 num)
      end
  end.

(** The length of the array expression, lines 946-958: [None] for a
    slice. *)
Definition arrayLen (name : string) (Len : option ast.Expr)
  : Result (option Z) :=
  match Len with
  | None => Ok None
  | Some (ast.BasicLit value) =>
      match ParseUint value with
      | Some a => Ok (Some a)
      | None => Err (ErrArrayLength name)
      end
  | Some _ => Err (ErrArrayNotUnderstood name)
  end.

(** Lines 933-941: the kind and bounds a dimension gives its node. *)
Definition applyDim (dim : SSZDimension) (collection : Value) : Value :=
  let collection :=
    if IsVector dim
    then set_s (uint64 (VectorLen dim)) (set_t TypeVector collection)
    else collection in
  if IsList dim
  then set_s (uint64 (ListLen dim))
         (set_m (uint64 (ListLen dim)) (set_t TypeList collection))
  else collection.

(** Lines 959-969: a literal length marks the node and must agree with a
    vector dimension. *)
Definition checkArray (name : string) (astSize : option Z) (collection : Value)
  : Result Value :=
  match astSize with
  | None => Ok collection
  | Some a =>
      let collection := set_c true collection in
      if negb (bool_decide (t collection = TypeVector))
      then Err (ErrUnexpectedType name (Type_String (t collection)))
      else if negb (s collection =? a)
      then Err (ErrSizeMismatch name (s collection) a)
      else Ok collection
  end.

(** Lines 982-994: a byte element turns the node into bytes or a
    bitlist. *)
Definition applyByte (dim : SSZDimension) (collection : Value) : Value :=
  let collection := set_t TypeBytes collection in
  let collection :=
    if IsVector dim then set_fixed true collection else collection in
  if IsBitlist dim then set_t TypeBitList collection else collection.

Section Bodies.

Variable encodeItem : string -> string -> M Value.
Variable parseASTStructType : string -> list ast.Field -> M Value.
Variable parseASTFieldType : string -> string -> ast.Expr -> M (option Value).

(** The loop over [dims], lines 932-1010.  [Len] and [Elt] are those of
    [collectionExpr]; [collection] is the node the loop is filling.
    When the element is itself an array the loop moves to a fresh
    inner node and never returns to the outer one, so the outer node
    is completed by linking the finished inner node. *)
Fixpoint dimsLoop (name tags : string) (dims : list SSZDimension)
  (Len : option ast.Expr) (Elt : ast.Expr) (collection : Value) : M Value :=
  match dims with
  | [] => ret collection
  | dim :: rest =>
      fun st =>
      let collection := applyDim dim collection in
      match arrayLen name Len with
      | Ok astSize =>
          match checkArray name astSize collection with
          | Ok collection =>
              match Elt with
              | ast.ArrayType Len' Elt' =>
                  (inner <- dimsLoop name tags rest Len' Elt' zeroValue ;;
                   ret (set_e (Some inner) collection)) st
              | ast.Ident eltName =>
                  if String.eqb eltName "byte"
                  then dimsLoop name tags rest Len Elt
                         (applyByte dim collection) st
                  else
                    (element <- parseASTFieldType name tags Elt ;;
                     dimsLoop name tags rest Len Elt
                       (set_e element collection)) st
              | _ =>
                  (element <- parseASTFieldType name tags Elt ;;
                   dimsLoop name tags rest Len Elt
                     (set_e element collection)) st
              end
          | Err err => Err err
          | Panic => Panic
          | OutOfFuel => OutOfFuel
          end
      | Err err => Err err
      | Panic => Panic
      | OutOfFuel => OutOfFuel
      end
  end.

(** The body of [env.parseASTFieldType], main.go lines 894-1074.  The
    result [None] is the nil node of an omitted field. *)
Definition parseASTFieldType_body (name tags : string) (expr : ast.Expr)
  : M (option Value) :=
  if omitted tags then ret None
  else
    match expr with
    | ast.StarExpr (ast.Ident elemName) =>
        v <- encodeItem elemName tags ;; ret (Some v)
    | ast.StarExpr (ast.SelectorExpr (ast.Ident ref) sel) =>
        v <- encodeItem sel tags ;; ret (Some (set_ref ref v))
    | ast.StarExpr (ast.SelectorExpr _ _) => fun _ => Panic
    | ast.StarExpr _ => fail ErrCannotHandle
    | ast.ArrayType Len Elt =>
        fun st =>
          match extractSSZDimensions tags with
          | Ok dims =>
              (outer <- dimsLoop name tags dims Len Elt zeroValue ;;
               ret (Some outer)) st
          | Err err => Err err
          | Panic => Panic
          | OutOfFuel => OutOfFuel
          end
    | ast.Ident objName =>
        if String.eqb objName "uint64" then
          ret (Some (set_s 8 (set_t TypeUint zeroValue)))
        else if String.eqb objName "uint32" then
          ret (Some (set_s 4 (set_t TypeUint zeroValue)))
        else if String.eqb objName "uint16" then
          ret (Some (set_s 2 (set_t TypeUint zeroValue)))
        else if String.eqb objName "uint8" then
          ret (Some (set_s 1 (set_t TypeUint zeroValue)))
        else if String.eqb objName "bool" then
          ret (Some (set_s 1 (set_t TypeBool zeroValue)))
        else
          fun st =>
            match encodeItem objName tags st with
            | Ok (vv, st') => Ok (Some vv, st')
            | Err _ => Err (ErrTypeNotFound objName)
            | Panic => Panic
            | OutOfFuel => OutOfFuel
            end
    | ast.SelectorExpr (ast.Ident pkg) sel =>
        if String.eqb sel "Bitlist" then
          match getTagsInt tags "ssz-max" with
          | None => fail (ErrBitlistNoMax pkg)
          | Some maxSize =>
              ret (Some (set_s maxSize (set_m maxSize (set_t TypeBitList zeroValue))))
          end
        else if strings.HasPrefix sel "Bitvector" then
          fun st =>
            match extractSSZDimensions tags with
            | Ok dims =>
                match last dims with
                | None => Err (ErrBitvectorNoTags pkg)
                | Some tailDim =>
                    if negb (IsVector tailDim) then Err (ErrBitvectorNoSize pkg)
                    else Ok (Some (set_s (uint64 (VectorLen tailDim))
                                     (set_fixed true (set_t TypeBytes zeroValue))),
                             st)
                end
            | Err err => Err (ErrBitvectorTag pkg err)
            | Panic => Panic
            | OutOfFuel => OutOfFuel
            end
        else
          vv <- encodeItem sel tags ;;
          ret (Some (set_noPtr true (set_ref pkg vv)))
    | ast.SelectorExpr _ _ => fun _ => Panic
    | _ => fun _ => Panic
    end.

(** The loop over [typ.Fields.List], main.go lines 862-888; [acc] is
    [v.o]. *)
Fixpoint fieldsLoop (fields : list ast.Field) (acc : list Value)
  : M (list Value) :=
  match fields with
  | [] => ret acc
  | f :: rest =>
      match ast.Names f with
      | [fname] =>
          fun st =>
            match isExportedField fname with
            | Ok true =>
                if strings.HasPrefix fname "XXX_" then fieldsLoop rest acc st
                else
                  (elem <- parseASTFieldType fname (default "" (ast.Tag f))
                             (ast.Type_ f) ;;
                   match elem with
                   | None => fieldsLoop rest acc
                   | Some elem =>
                       fieldsLoop rest (acc ++ [set_name fname elem])
                   end) st
            | Ok false => fieldsLoop rest acc st
            | Err err => Err err
            | Panic => Panic
            | OutOfFuel => OutOfFuel
            end
      | _ => fieldsLoop rest acc
      end
  end.

(** The body of [env.parseASTStructType], main.go lines 855-891. *)
Definition parseASTStructType_body (name : string) (fields : list ast.Field)
  : M Value :=
  o' <- fieldsLoop fields [] ;;
  ret (set_o o' (set_t TypeContainer (set_name name zeroValue))).

(** The three ways [encodeItem] builds a node that is not yet in
    [objs], main.go lines 836-843. *)
Definition buildItem (name tags : string) (raw : astStruct.t)
  : M (option Value) :=
  if astStruct.implFunc raw then
    let size := default 0 (getTagsInt tags "ssz-size") in
    ret (Some (set_noPtr (bool_decide (astStruct.obj raw = None))
                 (set_s size (set_t TypeReference zeroValue))))
  else
    match astStruct.obj raw with
    | Some fields => v <- parseASTStructType name fields ;; ret (Some v)
    | None =>
        match astStruct.typ raw with
        | Some typ => parseASTFieldType name tags typ
        | None => fun _ => Panic
        end
    end.

(** The body of [env.encodeItem], main.go lines 828-852. *)
Definition encodeItem_body (name tags : string) : M Value :=
  fun st =>
    match env.objs st !! name with
    | Some v => Ok (copy v, st)
    | None =>
        match getRawItemByName name (env.raw st) with
        | None => Err (ErrCouldNotFind name)
        | Some raw =>
            match buildItem name tags raw st with
            | Ok (Some v, st') =>
                let v := set_obj name (set_name name v) in
                Ok (copy v, env.set_objs (<[name := v]> (env.objs st')) st')
            | Ok (None, _) => Panic
            | Err err => Err (ErrFailedToEncode name err)
            | Panic => Panic
            | OutOfFuel => OutOfFuel
            end
        end
    end.

End Bodies.

(** The three mutually recursive methods.  The recursion follows the
    declarations and need not end (a struct that contains itself), hence
    the fuel: one unit per call. *)
Fixpoint encodeItem (fuel : nat) (name tags : string) {struct fuel} : M Value :=
  match fuel with
  | O => fun _ => OutOfFuel
  | S k =>
      encodeItem_body (parseASTStructType k) (parseASTFieldType k) name tags
  end
with parseASTStructType (fuel : nat) (name : string) (fields : list ast.Field)
       {struct fuel} : M Value :=
  match fuel with
  | O => fun _ => OutOfFuel
  | S k => parseASTStructType_body (parseASTFieldType k) name fields
  end
with parseASTFieldType (fuel : nat) (name tags : string) (expr : ast.Expr)
       {struct fuel} : M (option Value) :=
  match fuel with
  | O => fun _ => OutOfFuel
  | S k =>
      parseASTFieldType_body (encodeItem k) (parseASTFieldType k) name tags expr
  end.

End Builder.

(** ** [env.generateIR], main.go lines 692-817 *)

(** [checkObjByPackage], lines 697-704. *)
Fixpoint checkObjByPackage (packName name : string) (raw : list astStruct.t)
  : option astStruct.t :=
  match raw with
  | [] => None
  | item :: rest =>
      if String.eqb (astStruct.name item) name
         && String.eqb (astStruct.packName item) packName
      then Some item
      else checkObjByPackage packName name rest
  end.

(** [addStructs], lines 708-717. *)
Fixpoint addStructs (objs : list astStruct.t) (isRef : bool) : M unit :=
  match objs with
  | [] => ret tt
  | i :: rest =>
      fun st =>
        match checkObjByPackage (astStruct.packName i) (astStruct.name i)
                (env.raw st) with
        | Some _ => Err (ErrTwoStructs (astStruct.name i))
        | None =>
            addStructs rest isRef
              (env.set_raw (env.raw st ++ [astStruct.set_isRef isRef i]) st)
        end
  end.

(** The assignment [v.implFunc = true] on the item [checkObjByPackage]
    finds: the first item of [raw] with that package and name; [None] when
    there is none. *)
Fixpoint markImplFunc (packName name : string) (raw : list astStruct.t)
  : option (list astStruct.t) :=
  match raw with
  | [] => None
  | item :: rest =>
      if String.eqb (astStruct.name item) name
         && String.eqb (astStruct.packName item) packName
      then Some (astStruct.set_implFunc true item :: rest)
      else match markImplFunc packName name rest with
           | Some rest' => Some (item :: rest')
           | None => None
           end
  end.

(** [checkImplFunc], lines 719-729, on the names [res.funcs]. *)
Fixpoint checkImplFunc (packName : string) (funcs : list string) : M unit :=
  match funcs with
  | [] => ret tt
  | name :: rest =>
      fun st =>
        match markImplFunc packName name (env.raw st) with
        | None => Err (ErrCannotFindStruct name)
        | Some raw' => checkImplFunc packName rest (env.set_raw raw' st)
        end
  end.

(** The inner loop of [addImports], lines 737-744: [Ok found]. *)
Fixpoint knownImport (i : astImport.t) (known : list astImport.t) (found : bool)
  : Result bool :=
  match known with
  | [] => Ok found
  | j :: rest =>
      if String.eqb (astImport.path j) (astImport.path i) then
        if negb (String.eqb (astImport.alias i) (astImport.alias j))
        then Err (ErrImportAlias (astImport.path j) (astImport.alias j)
                    (astImport.alias i))
        else knownImport i rest true
      else knownImport i rest found
  end.

(** [addImports], lines 733-750. *)
Fixpoint addImports (imports : list astImport.t) : M unit :=
  match imports with
  | [] => ret tt
  | i :: rest =>
      fun st =>
        match knownImport i (env.imports st) false with
        | Ok true => addImports rest st
        | Ok false =>
            addImports rest (env.set_imports (env.imports st ++ [i]) st)
        | Err err => Err err
        | Panic => Panic
        | OutOfFuel => OutOfFuel
        end
  end.

(** Lines 753-757. *)
Fixpoint importsLoop (files : list (string * ast.File)) : M unit :=
  match files with
  | [] => ret tt
  | (_, file) :: rest =>
      _ <- addImports (decodeASTImports file) ;; importsLoop rest
  end.

Definition liftResult {A} (r : Result A) : M A :=
  fun st =>
    match r with
    | Ok a => Ok (a, st)
    | Err err => Err err
    | Panic => Panic
    | OutOfFuel => OutOfFuel
    end.

(** Lines 762-777: the files of the source path, which also set
    [e.order]. *)
Fixpoint sourceLoop (files : list (string * ast.File))
  (astResults : list astResult.t) : M (list astResult.t) :=
  match files with
  | [] => ret astResults
  | (name, file) :: rest =>
      res <- liftResult (decodeASTStruct file) ;;
      _ <- addStructs (astResult.objs res) false ;;
      _ <- (fun st =>
              Ok (tt, env.set_order
                        (<[name := map astStruct.name (astResult.objs res)]>
                           (env.order st)) st)) ;;
      sourceLoop rest (astResults ++ [res])
  end.

(** Lines 782-789: the files of the include paths. *)
Fixpoint includeLoop (files : list (string * ast.File))
  (astResults : list astResult.t) : M (list astResult.t) :=
  match files with
  | [] => ret astResults
  | (_, file) :: rest =>
      res <- liftResult (decodeASTStruct file) ;;
      _ <- addStructs (astResult.objs res) true ;;
      includeLoop rest (astResults ++ [res])
  end.

(** Lines 791-795. *)
Fixpoint implLoop (astResults : list astResult.t) : M unit :=
  match astResults with
  | [] => ret tt
  | res :: rest =>
      _ <- checkImplFunc (astResult.packName res) (astResult.funcs res) ;;
      implLoop rest
  end.

(** Lines 693-795: the declarations and imports of all files are
    collected in [raw], [order] and [imports], and the types that bring
    their own methods are marked. *)
Definition collect : M unit :=
  fun st =>
    let st := env.set_imports [] (env.set_order ∅ (env.set_raw [] st)) in
    (_ <- importsLoop (env.files st) ;;
     astResults <- sourceLoop (env.files st) [] ;;
     astResults <- (fun st => includeLoop (env.include st) astResults st) ;;
     implLoop astResults) st.

Section GenerateIR.

Variable Atoi : string -> option Z.
Variable ParseUint : string -> option Z.
Variable extractSSZDimensions : string -> Result (list SSZDimension).

(** Lines 797-815: every declaration of the source path that is a target
    is encoded. *)
Fixpoint encodeLoop (fuel : nat) (targets : list string)
  (raw : list astStruct.t) : M unit :=
  match raw with
  | [] => ret tt
  | obj :: rest =>
      let name := astStruct.name obj in
      let valid :=
        match targets with
        | [] => true
        | _ => contains name targets
        end in
      if valid && negb (astStruct.isRef obj) then
        _ <- encodeItem Atoi ParseUint extractSSZDimensions fuel name "" ;;
        encodeLoop fuel targets rest
      else encodeLoop fuel targets rest
  end.

Definition generateIR (fuel : nat) : M unit :=
  _ <- collect ;;
  (fun st => encodeLoop fuel (env.targets st) (env.raw st) st).

End GenerateIR.

(** ** [env.print], main.go lines 360-445 *)

(** [detectImports], main.go lines 480-504; a list or vector field without
    an element node panics. *)
Fixpoint detectImports_ (fields : list Value) (refs : list string)
  : Result (list string) :=
  match fields with
  | [] => Ok refs
  | i :: rest =>
      let next (r : string) :=
        detectImports_ rest (if String.eqb r "" then refs else refs ++ [r]) in
      match t i with
      | TypeReference => next (if negb (noPtr i) then ref i else "")
      | TypeContainer => next (ref i)
      | TypeList | TypeVector =>
          match e i with
          | Some x => next (ref x)
          | None => Panic
          end
      | _ => next (ref i)
      end
  end.

Definition detectImports (v : Value) : Result (list string) :=
  detectImports_ (o v) [].

(** [appendWithoutRepeated], main.go lines 471-478. *)
Fixpoint appendWithoutRepeated (s0 i : list string) : list string :=
  match i with
  | [] => s0
  | j :: rest =>
      appendWithoutRepeated (if contains j s0 then s0 else s0 ++ [j]) rest
  end.

(** [astImport.match] and [astImport.getFullName] need [filepath.Base]
    and string formatting; [env.findImport], lines 462-469, is taken with
    them as the parameter [findImport] of [print]. *)

(** The record [Obj] local to [print]. *)
Record Obj : Type := mkObj {
  Size : string;
  Marshal : string;
  Unmarshal : string;
  HashTreeRoot : string;
  GetTree : string
}.

(** The data handed to the template: what [print] returns before it is
    rendered as text. *)
Record Output : Type := mkOutput {
  out_package : string;
  out_hash : string;
  out_imports : list string;
  out_objs : list Obj
}.

Section Print.

(** The generators are methods of [*env] declared outside main.go.
    [env.hashSource], lines 346-358, prints the files and hashes the text
    with SHA-256; it is taken as any function of the environment. *)
Variable hashTreeRoot marshal unmarshal size getTree : string -> Value -> string.
Variable hashSource : env.t -> Result string.
Variable findImport : env.t -> string -> string.

(** The selection loop of [print], lines 398-428. *)
Fixpoint printLoop (st : env.t) (experimental : bool) (order : list string)
  (objs : list Obj) (imports : list string)
  : Result (list Obj * list string) :=
  match order with
  | [] => Ok (objs, imports)
  | name :: rest =>
      if default false (env.excludeTypeNames st !! name)
      then printLoop st experimental rest objs imports
      else
        match env.objs st !! name with
        | None => printLoop st experimental rest objs imports
        | Some obj =>
            match detectImports obj with
            | Ok refs =>
                let imports := appendWithoutRepeated imports refs in
                match isFixed obj with
                | Ok fx =>
                    if fx && isBasicType obj
                    then printLoop st experimental rest objs imports
                    else
                      let getTree' :=
                        if experimental then getTree name obj else "" in
                      printLoop st experimental rest
                        (objs ++ [mkObj (size name obj) (marshal name obj)
                                    (unmarshal name obj) (hashTreeRoot name obj)
                                    getTree'])
                        imports
                | Err err => Err err
                | Panic => Panic
                | OutOfFuel => OutOfFuel
                end
            | Err err => Err err
            | Panic => Panic
            | OutOfFuel => OutOfFuel
            end
        end
  end.

(** [env.buildImports], lines 451-460. *)
Definition buildImports (st : env.t) (imports : list string) : list string :=
  filter (fun imp => imp <> "") (map (findImport st) imports).

(** [env.print]: [Ok None] is the result [("", false, nil)]. *)
Definition print (st : env.t) (order : list string) (experimental : bool)
  : Result (option Output) :=
  match hashSource st with
  | Ok hash =>
      match printLoop st experimental order [] [] with
      | Ok (objs, imports) =>
          match objs with
          | [] => Ok None
          | _ =>
              Ok (Some (mkOutput (env.packName st) hash
                          (buildImports st imports) objs))
          end
      | Err err => Err err
      | Panic => Panic
      | OutOfFuel => OutOfFuel
      end
  | Err err => Err err
  | Panic => Panic
  | OutOfFuel => OutOfFuel
  end.

End Print.

(** ** The nodes as Go has them: cells of a store, linked by pointers

    [Value.copy] and [env.encodeItem] once more, on an explicit store, so
    that the identity of a node can be told from its contents.  A pointer
    is [None] (nil) or the address of a cell; [new(Value)] takes the next
    free address.  The tree found at a pointer is given by [repr]. *)
Module Store.

Definition ptr : Type := option nat.

Record Cell : Type := mkCell {
  name_ : string;
  obj_ : string;
  s_ : Z;
  t_ : Type_;
  o_ : list ptr;
  e_ : ptr;
  c_ : bool;
  m_ : Z;
  ref_ : string;
  noPtr_ : bool;
  fixed_ : bool
}.

Definition zeroCell : Cell :=
  mkCell "" "" 0 TypeUndefined [] None false 0 "" false false.

Definition with_o (x : list ptr) (v : Cell) : Cell :=
  mkCell (name_ v) (obj_ v) (s_ v) (t_ v) x (e_ v) (c_ v) (m_ v) (ref_ v)
    (noPtr_ v) (fixed_ v).
Definition with_e (x : ptr) (v : Cell) : Cell :=
  mkCell (name_ v) (obj_ v) (s_ v) (t_ v) (o_ v) x (c_ v) (m_ v) (ref_ v)
    (noPtr_ v) (fixed_ v).
Definition with_names (n : string) (v : Cell) : Cell :=
  mkCell n n (s_ v) (t_ v) (o_ v) (e_ v) (c_ v) (m_ v) (ref_ v)
    (noPtr_ v) (fixed_ v).
Definition with_ref (x : string) (v : Cell) : Cell :=
  mkCell (name_ v) (obj_ v) (s_ v) (t_ v) (o_ v) (e_ v) (c_ v) (m_ v) x
    (noPtr_ v) (fixed_ v).
Definition with_noPtr (x : bool) (v : Cell) : Cell :=
  mkCell (name_ v) (obj_ v) (s_ v) (t_ v) (o_ v) (e_ v) (c_ v) (m_ v) (ref_ v)
    x (fixed_ v).

(** The environment, as far as [encodeItem] uses it, with the store. *)
Record t : Type := mk {
  heap : list Cell;
  objs : gmap string ptr;
  raw : list astStruct.t
}.

Definition M (A : Type) : Type := t -> Result (A * t).

(** The pointer [p] leads to the tree [v]: the cells along [o] and [e]
    exist and carry the fields of [v]. *)
Fixpoint repr (h : list Cell) (p : ptr) (v : Value) {struct v} : Prop :=
  match v with
  | mkValue n ob s0 t0 o0 e0 c0 m0 r0 np fx =>
      exists a cell,
        p = Some a /\ h !! a = Some cell /\
        mkCell n ob s0 t0 (o_ cell) (e_ cell) c0 m0 r0 np fx = cell /\
        (fix all (ps : list ptr) (vs : list Value) {struct vs} : Prop :=
           match vs, ps with
           | [], [] => True
           | x :: vs', q :: ps' => repr h q x /\ all ps' vs'
           | _, _ => False
           end) (o_ cell) o0 /\
        match e0 with
        | Some x => repr h (e_ cell) x
        | None => e_ cell = None
        end
  end.

(** The cell at [b] is that of [a] or lies under it, along [o] and [e]. *)
Inductive reach (h : list Cell) : nat -> nat -> Prop :=
| reach_here a cell : h !! a = Some cell -> reach h a a
| reach_o a cell q b :
    h !! a = Some cell -> In (Some q) (o_ cell) -> reach h q b -> reach h a b
| reach_e a cell q b :
    h !! a = Some cell -> e_ cell = Some q -> reach h q b -> reach h a b.

(** The loop of [Value.copy] over the fields [v.o], lines 219-221:
    [vv.o[indx] = v.o[indx].copy()], with [copy] the recursive call. *)
Fixpoint copyFields (copy : ptr -> list Cell -> Result (ptr * list Cell))
  (vv indx : nat) (ps : list ptr) (h : list Cell) : Result (list Cell) :=
  match ps with
  | [] => Ok h
  | p :: rest =>
      match copy p h with
      | Ok (q, h) =>
          copyFields copy vv (S indx) rest
            (alter (fun x => with_o (<[indx := q]> (o_ x)) x) vv h)
      | Err err => Err err
      | Panic => Panic
      | OutOfFuel => OutOfFuel
      end
  end.

(** [Value.copy], main.go lines 215-226.  [vv := new(Value); *vv = *v;
    vv.o = make([]*Value, len(v.o))] allocates the cell [vv]; the loop
    stores the copy of each field in [vv.o[indx]]; the element is copied
    when there is one.  Copying through a nil pointer panics.  The
    recursion follows the pointers, hence the fuel. *)
Fixpoint copy (fuel : nat) (v : ptr) (h : list Cell) {struct fuel}
  : Result (ptr * list Cell) :=
  match fuel with
  | O => OutOfFuel
  | S k =>
      match v with
      | None => Panic
      | Some a =>
          match h !! a with
          | None => Panic
          | Some cell =>
              let vv := length h in
              let h := (h ++ [with_o (replicate (length (o_ cell)) None) cell])%list in
              match copyFields (copy k) vv O (o_ cell) h with
              | Ok h =>
                  match e_ cell with
                  | None => Ok (Some vv, h)
                  | Some _ =>
                      match copy k (e_ cell) h with
                      | Ok (q, h) => Ok (Some vv, alter (with_e q) vv h)
                      | Err err => Err err
                      | Panic => Panic
                      | OutOfFuel => OutOfFuel
                      end
                  end
              | Err err => Err err
              | Panic => Panic
              | OutOfFuel => OutOfFuel
              end
          end
      end
  end.

(** The cell holds the pointer [q], in [o] or in [e]. *)
Definition points (cell : Cell) (q : nat) : Prop :=
  In (Some q) (o_ cell) \/ e_ cell = Some q.

(** The cells at the addresses from [lo] on point only to such cells. *)
Definition closedIn (lo : nat) (h : list Cell) : Prop :=
  forall a cell q, (lo <= a)%nat -> h !! a = Some cell -> points cell q ->
  (lo <= q)%nat.

(** Every cell of [h] is still there, unchanged, in [h']. *)
Definition extends (h h' : list Cell) : Prop :=
  forall i cell, h !! i = Some cell -> h' !! i = Some cell.

(** The writes a use site makes into the node it received: [v.ref = ref]
    and [vv.noPtr = true], main.go lines 916 and 1067-1068. *)
Definition annotate (a : nat) (ref' : string) (noPtr' : bool) (h : list Cell)
  : list Cell :=
  alter (fun x => with_noPtr noPtr' (with_ref ref' x)) a h.

Section EncodeItem.

Variable Atoi : string -> option Z.

(** The two methods [encodeItem] calls to build a node; here any
    procedures on the store. *)
Variable parseASTStructType : string -> list ast.Field -> M ptr.
Variable parseASTFieldType : string -> string -> ast.Expr -> M ptr.

Definition buildItem (name tags : string) (raw : astStruct.t) : M ptr :=
  fun st =>
    if astStruct.implFunc raw then
      let size := default 0 (getTagsInt Atoi tags "ssz-size") in
      Ok (Some (length (heap st)),
          mk (heap st ++
                [mkCell "" "" size TypeReference [] None false 0 ""
                   (bool_decide (astStruct.obj raw = None)) false])%list
             (objs st) (Store.raw st))
    else
      match astStruct.obj raw with
      | Some fields => parseASTStructType name fields st
      | None =>
          match astStruct.typ raw with
          | Some typ => parseASTFieldType name tags typ st
          | None => Panic
          end
      end.

(** [env.encodeItem] up to its [return], main.go lines 829-850: the
    registry entry for [name], built and registered when it is not
    there yet. *)
Definition lookupOrBuild (name tags : string) : M ptr :=
  fun st =>
    match objs st !! name with
    | Some v => Ok (v, st)
    | None =>
        match getRawItemByName name (raw st) with
        | None => Err (ErrCouldNotFind name)
        | Some raw =>
            match buildItem name tags raw st with
            | Ok (Some a, st') =>
                match heap st' !! a with
                | Some cell =>
                    Ok (Some a,
                        mk (<[a := with_names name cell]> (heap st'))
                           (<[name := Some a]> (objs st')) (Store.raw st'))
                | None => Panic
                end
            | Ok (None, _) => Panic
            | Err err => Err (ErrFailedToEncode name err)
            | Panic => Panic
            | OutOfFuel => OutOfFuel
            end
        end
    end.

(** [env.encodeItem]: [return v.copy(), nil] on the registry entry. *)
Definition encodeItem (fuel : nat) (name tags : string) : M ptr :=
  fun st =>
    match lookupOrBuild name tags st with
    | Ok (v, st') =>
        match copy fuel v (heap st') with
        | Ok (p, h) => Ok (p, mk h (objs st') (raw st'))
        | Err err => Err err
        | Panic => Panic
        | OutOfFuel => OutOfFuel
        end
    | Err err => Err err
    | Panic => Panic
    | OutOfFuel => OutOfFuel
    end.

End EncodeItem.

End Store.

(** The loop of [isFixed] over the fields of a container. *)
Fixpoint isFixed_fields (fs : list Value) : Result bool :=
  match fs with
  | [] => Ok true
  | f :: rest =>
      match isFixed f with
      | Ok true => isFixed_fields rest
      | Ok false => Ok false
      | other => other
      end
  end.

(** Every node reachable from [v] has one of the eight defined kinds, and
    every vector node has an element node. *)
Fixpoint wellKinded (v : Value) : bool :=
  match v with
  | mkValue _ _ _ t0 o0 e0 _ _ _ _ _ =>
      negb (bool_decide (t0 = TypeUndefined))
      && (fix all (l : list Value) : bool :=
            match l with
            | [] => true
            | x :: l' => wellKinded x && all l'
            end) o0
      && match e0 with
         | Some x => wellKinded x
         | None => negb (bool_decide (t0 = TypeVector))
         end
  end.

(** ** Instances for the examples

    The parameters of the builder, fixed to simple functions so that the
    examples below can run: decimal numerals for [strconv], and dimensions
    read from the [ssz-size] and [ssz-max] tags, one per comma-separated
    entry, [?] in [ssz-size] standing for a list dimension. *)
Module Sample.

Fixpoint digits (str : string) (acc : Z) : option Z :=
  match str with
  | EmptyString => Some acc
  | String a rest =>
      let d := Z.of_nat (nat_of_ascii a) - 48 in
      if (0 <=? d) && (d <=? 9) then digits rest (10 * acc + d) else None
  end.

Definition ParseUint (str : string) : option Z :=
  match str with
  | EmptyString => None
  | _ =>
      match digits str 0 with
      | Some n => if n <? 2 ^ 64 then Some n else None
      | None => None
      end
  end.

Definition Atoi (str : string) : option Z :=
  match str with
  | String "-"%char rest =>
      match ParseUint rest with
      | Some n => if n <=? 2 ^ 63 then Some (- n) else None
      | None => None
      end
  | _ =>
      match ParseUint str with
      | Some n => if n <? 2 ^ 63 then Some n else None
      | None => None
      end
  end.

Fixpoint dimensions (sizes maxes : list string) (bitlist : bool)
  : Result (list SSZDimension) :=
  match sizes with
  | [] => Ok []
  | size :: sizes' =>
      let dim :=
        if String.eqb size "?" then
          match Atoi (hd "" maxes) with
          | Some n => Ok (mkDim None (Some n) bitlist)
          | None => Err (ErrDimensions "ssz-max")
          end
        else
          match Atoi size with
          | Some n => Ok (mkDim (Some n) None bitlist)
          | None => Err (ErrDimensions "ssz-size")
          end in
      match dim, dimensions sizes' (tl maxes) bitlist with
      | Ok d, Ok ds => Ok (d :: ds)
      | Err err, _ => Err err
      | _, other => other
      end
  end.

Definition extractSSZDimensions (tags : string) : Result (list SSZDimension) :=
  let bitlist :=
    match getTags tags "ssz" with
    | Some v => String.eqb v "bitlist"
    | None => false
    end in
  match getTags tags "ssz-size", getTags tags "ssz-max" with
  | None, None => Err (ErrDimensions "no ssz-size or ssz-max")
  | None, Some maxes =>
      dimensions (map (fun _ => "?") (strings.Split maxes ","%char))
        (strings.Split maxes ","%char) bitlist
  | Some sizes, maxes =>
      dimensions (strings.Split sizes ","%char)
        (strings.Split (default "" maxes) ","%char) bitlist
  end.

Definition encodeItem := encodeItem Atoi ParseUint extractSSZDimensions.
Definition parseASTStructType :=
  parseASTStructType Atoi ParseUint extractSSZDimensions.
Definition parseASTFieldType :=
  parseASTFieldType Atoi ParseUint extractSSZDimensions.
Definition generateIR := generateIR Atoi ParseUint extractSSZDimensions.

(** An environment with the given files and nothing else. *)
Definition envOf (files include : list (string * ast.File)) : env.t :=
  env.mk "" include files "" [] ∅ ∅ [] [] ∅.

(** An environment with the given declarations and registry. *)
Definition envWith (raw : list astStruct.t) (objs : gmap string Value) : env.t :=
  env.mk "" [] [] "" raw objs ∅ [] [] ∅.

Definition field (fname : string) (ty : ast.Expr) (tag : string) : ast.Field :=
  ast.mkField [fname] ty (if String.eqb tag "" then None else Some tag).

(** The struct tag [key:"val"], and a tag literal in back quotes. *)
Definition kv (key val : string) : string :=
  key ++ ":" ++ quoteStr ++ val ++ quoteStr.
Definition lit (tags : string) : string := "`" ++ tags ++ "`".

(** *** Sample declarations *)

Definition tagSize32 : string := lit (kv "ssz-size" "32").
Definition tagSize96 : string := lit (kv "ssz-size" "96").
Definition tagNested : string :=
  lit (kv "ssz-size" "?,32" ++ " " ++ kv "ssz-max" "16").

Definition bytes32 : ast.Expr :=
  ast.ArrayType (Some (ast.BasicLit "32")) (ast.Ident "byte").
Definition byteSlices : ast.Expr :=
  ast.ArrayType None (ast.ArrayType None (ast.Ident "byte")).

(** A struct with fields that are kept and fields that are left out. *)
Definition fieldsT : list ast.Field :=
  [ field "Slot" (ast.Ident "uint64") "";
    field "hidden" (ast.Ident "uint64") "";
    field "XXX_unrecognized" (ast.ArrayType None (ast.Ident "byte")) "";
    field "Skipped" (ast.Ident "uint64") (lit (kv "ssz" "-"));
    ast.mkField ["A"; "B"] (ast.Ident "bool") None;
    field "Root" bytes32 tagSize32;
    field "Flag" (ast.Ident "bool") "" ].

Definition containerT : Value :=
  mkValue "T" "" 0 TypeContainer
    [ mkValue "Slot" "" 8 TypeUint [] None false 0 "" false false;
      mkValue "Root" "" 32 TypeBytes [] None true 0 "" false true;
      mkValue "Flag" "" 1 TypeBool [] None false 0 "" false false ]
    None false 0 "" false false.

Definition sigNode : Value :=
  mkValue "Sig" "Sig" 0 TypeReference [] None false 0 "" false false.

(** The type [Sig] brings its own methods; [envSigRaw] knows its
    declaration only, [envSig] has it in the registry, built at a first use
    without tags. *)
Definition itemSig : astStruct.t :=
  astStruct.mk "Sig" (Some []) "p" None true false.
Definition envSigRaw : env.t := envWith [itemSig] ∅.
Definition envSig : env.t := envWith [itemSig] {[ "Sig" := sigNode ]}.

Definition method (recv fname : string) (params results : list ast.Expr)
  : ast.Decl :=
  ast.FuncDeclD
    (ast.mkFuncDecl
       (Some [ast.mkField ["t"] (ast.StarExpr (ast.Ident recv)) None])
       fname
       (ast.mkFuncType (map (fun ty => ast.mkField ["x"] ty None) params)
          (Some (map (fun ty => ast.mkField [] ty None) results)))).

Definition byteSlice : ast.Expr := ast.ArrayType None (ast.Ident "byte").
Definition hasher : ast.Expr :=
  ast.StarExpr (ast.SelectorExpr (ast.Ident "ssz") "Hasher").

(** The four methods of the interface, on [*recv]. *)
Definition sszMethods (recv : string) : list ast.Decl :=
  [ method recv "SizeSSZ" [] [ast.Ident "int"];
    method recv "MarshalSSZTo" [byteSlice] [byteSlice; ast.Ident "error"];
    method recv "UnmarshalSSZ" [byteSlice] [ast.Ident "error"];
    method recv "HashTreeRootWith" [hasher] [ast.Ident "error"] ].

Definition structDecl (tyname : string) (fields : list ast.Field) : ast.Decl :=
  ast.GenDecl [ast.TypeSpec tyname (ast.StructType fields)].

(** Package [p]: [a.go] declares the struct [T], [b.go] holds its four
    methods.  Package [q]: [c.go] declares another struct [T]. *)
Definition fileA : ast.File :=
  ast.mkFile "p" [structDecl "T" [field "Slot" (ast.Ident "uint64") ""]] [].
Definition fileB : ast.File := ast.mkFile "p" (sszMethods "T") [].
Definition fileC : ast.File := ast.mkFile "q" [structDecl "T" []] [].

Definition envMethodsApart : env.t := envOf [("a.go", fileA); ("b.go", fileB)] [].
Definition envSameNameAcross : env.t := envOf [("a.go", fileA)] [("c.go", fileC)].
Definition envSameNameWithin : env.t :=
  envOf [("a.go", fileA); ("a2.go", fileA)] [].

Definition itemT : astStruct.t :=
  astStruct.mk "T" (Some [field "Slot" (ast.Ident "uint64") ""]) "p" None true false.

Definition refT : Value :=
  mkValue "T" "T" 0 TypeReference [] None false 0 "" false false.

(** The environment [generateIR] leaves for [envMethodsApart]. *)
Definition envMethodsApart' : env.t :=
  env.mk "" [] [("a.go", fileA); ("b.go", fileB)] "" [itemT]
    {[ "T" := refT ]} {[ "a.go" := ["T"]; "b.go" := [] ]} [] [] ∅.

(** A registry with a container [A], an alias [U] of [uint64] and a
    container [B] that is excluded from the output. *)
Definition containerA : Value :=
  mkValue "A" "A" 0 TypeContainer
    [mkValue "Slot" "" 8 TypeUint [] None false 0 "" false false]
    None false 0 "" false false.
Definition aliasU : Value :=
  mkValue "U" "U" 8 TypeUint [] None false 0 "" false false.
Definition containerB : Value :=
  mkValue "B" "B" 0 TypeContainer
    [mkValue "Flag" "" 1 TypeBool [] None false 0 "" false false]
    None false 0 "" false false.

Definition envPrint : env.t :=
  env.mk "" [] [] "p" []
    {[ "A" := containerA; "U" := aliasU; "B" := containerB ]} ∅ [] []
    {[ "B" := true ]}.

(** Generators that only name what they would emit. *)
Definition gen (kind tyname : string) (v : Value) : string := kind ++ " " ++ tyname.
Definition print :=
  print (gen "hashTreeRoot") (gen "marshal") (gen "unmarshal") (gen "size")
    (gen "getTree") (fun _ => Ok "hash") (fun _ i => i).

Definition procedures (tyname : string) : Obj :=
  mkObj ("size " ++ tyname) ("marshal " ++ tyname) ("unmarshal " ++ tyname)
    ("hashTreeRoot " ++ tyname) "".

(** *** A sample store: the container [A] at address 0, with a field at
    address 1 and a vector field at address 2 whose element is the cell
    at address 1. *)
Definition heap0 : list Store.Cell :=
  [ Store.mkCell "A" "A" 0 TypeContainer [Some 1%nat; Some 2%nat] None false 0
      "" false false;
    Store.mkCell "x" "" 8 TypeUint [] None false 0 "" false false;
    Store.mkCell "y" "" 4 TypeVector [] (Some 1%nat) false 0 "" false false ].

Definition store0 : Store.t := Store.mk heap0 {[ "A" := Some 0%nat ]} [].

Definition noStruct : string -> list ast.Field -> Store.M Store.ptr :=
  fun _ _ _ => Err ErrCannotHandle.
Definition noField : string -> string -> ast.Expr -> Store.M Store.ptr :=
  fun _ _ _ _ => Err ErrCannotHandle.

Definition storeEncodeItem := Store.encodeItem Atoi noStruct noField.

(** The store after resolving [A] in [store0]: the copy is at 3, 4, 5
    and 6. *)
Definition heap1 : list Store.Cell :=
  (heap0 ++
   [ Store.mkCell "A" "A" 0 TypeContainer [Some 4%nat; Some 5%nat] None false 0
       "" false false;
     Store.mkCell "x" "" 8 TypeUint [] None false 0 "" false false;
     Store.mkCell "y" "" 4 TypeVector [] (Some 6%nat) false 0 "" false false;
     Store.mkCell "x" "" 8 TypeUint [] None false 0 "" false false ])%list.

Definition store1 : Store.t := Store.mk heap1 {[ "A" := Some 0%nat ]} [].

End Sample.

(** ** Reading a struct declaration *)

(** The tests the loop of [parseASTStructType] makes on a field, with
    the code's own [isExportedField] and [getTags]: one name, first byte
    at most 90, no [XXX_] prefix, and [getTags] not finding [ssz:"-"].
    The restriction as the specification words it is [listed] below. *)
Definition keeps (f : ast.Field) : bool :=
  match ast.Names f with
  | [fname] =>
      match isExportedField fname with
      | Ok true =>
          negb (strings.HasPrefix fname "XXX_")
          && negb (omitted (default "" (ast.Tag f)))
      | _ => false
      end
  | _ => false
  end.

(** The names of the fields that pass these tests, in declaration
    order. *)
Definition declaredOrder (fields : list ast.Field) : list string :=
  map (fun f => hd "" (ast.Names f)) (List.filter keeps fields).

(** ** Reading an array type *)

(** The number of array dimensions of a type whose innermost element is
    [byte]: 1 for [[]byte] and [[n]byte], 2 for [[][]byte], ...; [None]
    for any other type. *)
Fixpoint byteArrayRank (x : ast.Expr) : option nat :=
  match x with
  | ast.ArrayType _ elt =>
      match elt with
      | ast.Ident n => if String.eqb n "byte" then Some 1%nat else None
      | ast.ArrayType _ _ => option_map S (byteArrayRank elt)
      | _ => None
      end
  | _ => None
  end.

(** The node [k] element links below [v]. *)
Fixpoint descend (k : nat) (v : Value) : option Value :=
  match k with
  | O => Some v
  | S k' =>
      match e v with
      | Some x => descend k' x
      | None => None
      end
  end.

(** ** What [print] emits *)

(** The test [obj.isFixed() && isBasicType(obj)] of [print]: an alias of a
    basic type. *)
Definition basicAlias (obj : Value) : bool :=
  match isFixed obj with
  | Ok true => isBasicType obj
  | _ => false
  end.

Section Emitted.

Variable hashTreeRoot marshal unmarshal size getTree : string -> Value -> string.

(** The set of procedures [print] emits for one name of [order]: none
    when the name is excluded, when it is not in the registry, or when its
    node is an alias of a basic type. *)
Definition emitted (st : env.t) (experimental : bool) (tyname : string)
  : option Obj :=
  if default false (env.excludeTypeNames st !! tyname) then None
  else
    match env.objs st !! tyname with
    | None => None
    | Some obj =>
        if basicAlias obj then None
        else Some (mkObj (size tyname obj) (marshal tyname obj)
                     (unmarshal tyname obj) (hashTreeRoot tyname obj)
                     (if experimental then getTree tyname obj else ""))
    end.

End Emitted.

(** ** What the files declare *)

(** The type declarations of one top-level declaration. *)
Definition declsOfDecl (packName : string) (dec : ast.Decl) : list astStruct.t :=
  match dec with
  | ast.GenDecl specs => decodeSpecs packName specs
  | _ => []
  end.

(** The type declarations of a file, in source order. *)
Definition declsOf (file : ast.File) : list astStruct.t :=
  flat_map (declsOfDecl (ast.Name file)) (ast.Decls file).

(** The files of the source path, then those of the include paths. *)
Definition allFiles (st : env.t) : list ast.File :=
  map snd (env.files st ++ env.include st).

(** A declaration is known by its package and its name. *)
Definition key (x : astStruct.t) : string * string :=
  (astStruct.packName x, astStruct.name x).

Definition allDecls (st : env.t) : list astStruct.t :=
  flat_map declsOf (allFiles st).

(** [dec] is a method on [*tyname] that [isFuncDecl] accepts. *)
Definition accepts (tyname : string) (dec : ast.Decl) : bool :=
  match dec with
  | ast.FuncDeclD funcDecl =>
      match decodeFuncDecl funcDecl with
      | Ok (Some objName) => String.eqb objName tyname
      | _ => false
      end
  | _ => false
  end.

(** The number of accepted methods on [*tyname] in a file. *)
Definition acceptedMethods (file : ast.File) (tyname : string) : nat :=
  length (List.filter (accepts tyname) (ast.Decls file)).

(** [v.implFunc = true] on the declarations that satisfy [P]. *)
Definition mark (P : string -> string -> bool) (x : astStruct.t) : astStruct.t :=
  if P (astStruct.packName x) (astStruct.name x)
  then astStruct.set_implFunc true x else x.

(** The declarations as [collect] stores them in [raw]: those of the
    source path, then those of the include paths marked [isRef]. *)
Definition collected (st : env.t) : list astStruct.t :=
  (map (astStruct.set_isRef false) (flat_map declsOf (map snd (env.files st)))
   ++ map (astStruct.set_isRef true) (flat_map declsOf (map snd (env.include st))))%list.

(** Some decoded file of package [pack] lists [tyname] among the types
    with four accepted methods. *)
Definition marked (results : list astResult.t) (pack tyname : string) : bool :=
  existsb (fun res =>
             String.eqb (astResult.packName res) pack
             && existsb (String.eqb tyname) (astResult.funcs res)) results.

(** A method of [*env] that changes at most the registry [objs]. *)
Definition frames {A} (f : M A) : Prop :=
  forall st a st', f st = Ok (a, st') ->
  exists objs', st' = env.set_objs objs' st.

(** The node [encodeItem] registers for a type that brings its own
    methods: a reference, with the bound width read from the tags of this
    first use. *)
Definition referenceNode (Atoi : string -> option Z) (tyname tags : string)
  (raw : astStruct.t) : Value :=
  mkValue tyname tyname (default 0 (getTagsInt Atoi tags "ssz-size"))
    TypeReference [] None false 0 ""
    (bool_decide (astStruct.obj raw = None)) false.

(** ** What a copy in the store leaves *)

(** A successful [copy]: the old cells untouched, the result at the first
    new address, the new cells pointing to new cells only, and the same
    tree under the result as under the original. *)
Definition copyPost (h : list Store.Cell) (v p : Store.ptr)
  (h' : list Store.Cell) : Prop :=
  Store.extends h h'
  /\ p = Some (length h)
  /\ (length h < length h')%nat
  /\ Store.closedIn (length h) h'
  /\ forall x, Store.repr h v x -> Store.repr h' p x.

(** The state of the loop over the fields of [cell], copied into the new
    cell at [length h]: [qs] are the copies stored so far in [vv.o]. *)
Definition fieldsInv (h : list Store.Cell) (cell : Store.Cell)
  (hc : list Store.Cell) (qs : list Store.ptr) : Prop :=
  Store.extends h hc
  /\ hc !! length h
     = Some (Store.with_o
               (qs ++ replicate (length (Store.o_ cell) - length qs) None)%list cell)
  /\ Store.closedIn (S (length h)) hc.

(** [q] is a new cell above [length h] that holds in [hc] every tree [p]
    holds in [h]. *)
Definition copied (h hc : list Store.Cell) (p q : Store.ptr) : Prop :=
  (exists b, q = Some b /\ (length h < b)%nat)
  /\ forall x, Store.repr h p x -> Store.repr hc q x.

(** The names of the four methods of the interface. *)
Definition sszMethodNames : list string :=
  ["SizeSSZ"; "MarshalSSZTo"; "UnmarshalSSZ"; "HashTreeRootWith"].

(** The names of the accepted methods on [*tyname] in a file, in source
    order. *)
Definition acceptedNames (file : ast.File) (tyname : string) : list string :=
  flat_map (fun dec =>
              match dec with
              | ast.FuncDeclD funcDecl =>
                  if accepts tyname dec then [ast.FuncName funcDecl] else []
              | _ => []
              end) (ast.Decls file).

(** ** Further methods of the model node *)

(** [Value.objRef], main.go lines 206-213. *)
Definition objRef (v : Value) : string :=
  if String.eqb (ref v) "" then obj v else ref v ++ "." ++ obj v.

(** [uintVToName], main.go lines 1177-1193; the two [panic] calls are
    [Panic]. *)
Definition uintVToName (v : Value) : Result string :=
  if negb (bool_decide (t v = TypeUint)) then Panic
  else if s v =? 8 then Ok "Uint64"
  else if s v =? 4 then Ok "Uint32"
  else if s v =? 2 then Ok "Uint16"
  else if s v =? 1 then Ok "Uint8"
  else Panic.

(** ** Struct tags as they are written *)

(** The tag [key:"val"]. *)
Definition tagPiece (kv : string * string) : string :=
  fst kv ++ ":" ++ quoteStr ++ snd kv ++ quoteStr.

(** The tags of a field, separated by one space. *)
Fixpoint tagString (tags : list (string * string)) : string :=
  match tags with
  | [] => ""
  | [kv] => tagPiece kv
  | kv :: rest => tagPiece kv ++ " " ++ tagString rest
  end.

(** The tag literal of a field: its tags between back quotes. *)
Definition tagLiteral (tags : list (string * string)) : string :=
  "`" ++ tagString tags ++ "`".

(** A key or a value without any of the bytes [getTags] splits and trims
    on: space, colon, double quote and back quote. *)
Definition plain (str : string) : bool :=
  negb (strings.Contains str " "%char) && negb (strings.Contains str ":"%char)
  && negb (strings.Contains str quote) && negb (strings.Contains str "`"%char).

Definition plainTag (kv : string * string) : bool :=
  plain (fst kv) && plain (snd kv).

(** The value of the first tag with the key [field]. *)
Fixpoint firstTag (field : string) (tags : list (string * string))
  : option string :=
  match tags with
  | [] => None
  | (key, val) :: rest =>
      if String.eqb key field then Some val else firstTag field rest
  end.

(** The three tests [getTags] makes on a piece before it looks at its
    key: a colon, exactly two parts around it, and a value between double
    quotes. *)
Definition wellFormedPiece (tag : string) : bool :=
  strings.Contains tag ":"%char
  && match strings.Split tag ":"%char with
     | [_; vals] =>
         strings.HasPrefix vals quoteStr && strings.HasSuffix vals quoteStr
     | _ => false
     end.

(** ** The nodes below a node *)

(** The nodes [isFixed] looks at or skips below [v]: [v] itself, below a
    container its fields, below a vector its element. *)
Fixpoint visited (v : Value) : list Value :=
  v :: match v with
       | mkValue _ _ _ t0 o0 e0 _ _ _ _ _ =>
           match t0 with
           | TypeContainer =>
               (fix each (l : list Value) : list Value :=
                  match l with
                  | [] => []
                  | x :: l' => (visited x ++ each l')%list
                  end) o0
           | TypeVector =>
               match e0 with
               | Some x => visited x
               | None => []
               end
           | _ => []
           end
       end.

(** A node that is variable-size by itself: a list, a bitlist, bytes
    without the [fixed] flag, a reference without a bound width. *)
Definition variableLeaf (v : Value) : bool :=
  match t v with
  | TypeList | TypeBitList => true
  | TypeBytes => negb (fixed v)
  | TypeReference => s v =? 0
  | _ => false
  end.

(** A node [isFixed] does not panic at: its kind is defined and, when it
    is a vector, it has an element. *)
Definition classifiable (v : Value) : bool :=
  match t v with
  | TypeUndefined => false
  | TypeVector => bool_decide (is_Some (e v))
  | _ => true
  end.

(** All the nodes of the tree under [v], [v] first. *)
Fixpoint nodes (v : Value) : list Value :=
  v :: match v with
       | mkValue _ _ _ _ o0 e0 _ _ _ _ _ =>
           ((fix each (l : list Value) : list Value :=
               match l with
               | [] => []
               | x :: l' => (nodes x ++ each l')%list
               end) o0
            ++ match e0 with
               | Some x => nodes x
               | None => []
               end)%list
       end.

(** The widths [parseASTFieldType] gives the scalar kinds. *)
Definition scalarWidth (v : Value) : bool :=
  match t v with
  | TypeUint => (s v =? 8) || (s v =? 4) || (s v =? 2) || (s v =? 1)
  | TypeBool => s v =? 1
  | _ => true
  end.

(** ** What the builder keeps *)

(** A method of [*env] whose successful runs take a state to a state
    related to it by [R]. *)
Definition respects (R : env.t -> env.t -> Prop) {A} (f : M A) : Prop :=
  forall st a st', f st = Ok (a, st') -> R st st'.

(** The registry of [st'] holds every entry of the registry of [st], and
    the two states differ in nothing else. *)
Definition grows (st st' : env.t) : Prop :=
  env.objs st ⊆ env.objs st' /\ st' = env.set_objs (env.objs st') st.

(** Every entry of the registry is filed under the name its node carries
    in [name] and in [obj], and that name is declared in [raw]. *)
Definition registryNamed (st : env.t) : Prop :=
  forall n r, env.objs st !! n = Some r ->
    name r = n /\ obj r = n /\ is_Some (getRawItemByName n (env.raw st)).

(** A node that [isFixed] classifies as fixed without a panic has neither
    a variable-size node nor a node it would panic at below it. *)
Definition settled (w : Value) : Prop :=
  variableLeaf w = false /\ classifiable w = true.

(** Every scalar node of the tree under [v] has the width of its kind. *)
Definition widthsOK (v : Value) : bool := forallb scalarWidth (nodes v).

(** Every entry of the registry has scalar nodes of the right widths
    only. *)
Definition registryWidths (st : env.t) : Prop :=
  forall n r, env.objs st !! n = Some r -> widthsOK r = true.

(** A method of [*env] whose successful runs keep [registryWidths] and
    return a result that satisfies [Q]. *)
Definition yields {A} (Q : A -> Prop) (f : M A) : Prop :=
  forall st a st', registryWidths st -> f st = Ok (a, st') ->
  registryWidths st' /\ Q a.

(** The node the loop over [dims] is filling: not a scalar, and with
    scalar nodes of the right widths below it. *)
Definition collectionOK (col : Value) : Prop :=
  t col <> TypeUint /\ t col <> TypeBool
  /\ forallb widthsOK (o col) = true
  /\ forall x, e col = Some x -> widthsOK x = true.

(** The names [parseASTFieldType] reads as scalar kinds, before it looks
    a name up among the declarations. *)
Definition basicTypeNames : list string :=
  ["uint64"; "uint32"; "uint16"; "uint8"; "bool"].

(** The declarations stay and the entries of the registry stay named. *)
Definition staysNamed (st st' : env.t) : Prop :=
  env.raw st' = env.raw st /\ (registryNamed st -> registryNamed st').

(** ** Methods that cannot be read *)

(** The parameter types [isFuncDecl] asks of a method with one of the
    four names; [None] for every other name. *)
Definition expectedParams (mname : string) : option (list string) :=
  if String.eqb mname "SizeSSZ" then Some []
  else if String.eqb mname "MarshalSSZTo" then Some ["[]byte"]
  else if String.eqb mname "UnmarshalSSZ" then Some ["[]byte"]
  else if String.eqb mname "HashTreeRootWith" then Some ["*ssz.Hasher"]
  else None.

(** A method on a pointer to a named type that has one of the four names
    and the parameters expected for it, and no result list; or a
    declaration with an empty receiver list. *)
Definition unreadable (dec : ast.Decl) : bool :=
  match dec with
  | ast.FuncDeclD funcDecl =>
      match ast.Recv funcDecl with
      | None => false
      | Some [] => true
      | Some (recv :: _) =>
          match ast.Type_ recv with
          | ast.StarExpr (ast.Ident _) =>
              match expectedParams (ast.FuncName funcDecl) with
              | Some params =>
                  match check (Some (ast.Params (ast.FuncTy funcDecl))) params,
                        ast.Results (ast.FuncTy funcDecl) with
                  | Ok true, None => true
                  | _, _ => false
                  end
              | None => false
              end
          | _ => false
          end
      end
  | _ => false
  end.

(** ** The imports of a container *)

(** The package [detectImports] reads off one field: the field's own
    [ref], unless the field is a reference marked [noPtr]; for a list or a
    vector, the [ref] of the element. *)
Definition importOf (i : Value) : string :=
  match t i with
  | TypeReference => if noPtr i then "" else ref i
  | TypeList | TypeVector =>
      match e i with
      | Some x => ref x
      | None => ""
      end
  | _ => ref i
  end.

(** A list or a vector without an element node. *)
Definition elementMissing (i : Value) : bool :=
  (bool_decide (t i = TypeList) || bool_decide (t i = TypeVector))
  && match e i with
     | Some _ => false
     | None => true
     end.

(** [tyname] is a name of [order] that [print] does not skip before it
    reads the imports: not excluded, and in the registry with the node
    [obj]. *)
Definition selected (st : env.t) (order : list string) (tyname : string)
  (obj : Value) : Prop :=
  In tyname order
  /\ default false (env.excludeTypeNames st !! tyname) = false
  /\ env.objs st !! tyname = Some obj.

(** ** Array nests *)

(** An array type without any length: a slice, or a slice of such
    types. *)
Fixpoint sliceNest (x : ast.Expr) : bool :=
  match x with
  | ast.ArrayType None elt =>
      match elt with
      | ast.ArrayType _ _ => sliceNest elt
      | _ => true
      end
  | _ => false
  end.

(** The four errors of the checks on an array length, main.go lines
    946-969. *)
Definition lengthError (fname : string) (err : Error) : Prop :=
  err = ErrArrayNotUnderstood fname
  \/ err = ErrArrayLength fname
  \/ (exists ty, err = ErrUnexpectedType fname ty)
  \/ exists sszSize fixedSize, err = ErrSizeMismatch fname sszSize fixedSize.

(** ** A struct declaration as it is written

    The fields of a struct declaration with their tags read as Go reads a
    struct tag: a sequence of [key:"value"] pairs.  [listed] is the
    restriction of the specification: a single name, exported, no [XXX_]
    prefix, not omitted by the tag [ssz:"-"]. *)
Record FieldDecl : Type := mkFieldDecl {
  fd_names : list string;
  fd_type : ast.Expr;
  fd_tags : list (string * string)
}.

(** The field as the syntax tree has it: the tags between back quotes, no
    tag literal when there are no tags. *)
Definition fieldOf (d : FieldDecl) : ast.Field :=
  ast.mkField (fd_names d) (fd_type d)
    match fd_tags d with
    | [] => None
    | tags => Some (tagLiteral tags)
    end.

(** Exported: the name begins with an upper-case letter [A]-[Z]. *)
Definition exportedName (fname : string) : bool :=
  match fname with
  | EmptyString => false
  | String a _ => (65 <=? nat_of_ascii a)%nat && (nat_of_ascii a <=? 90)%nat
  end.

(** Omitted: the tags hold the key [ssz] with the value [-]. *)
Definition omittedByTag (d : FieldDecl) : bool :=
  match firstTag "ssz" (fd_tags d) with
  | Some val => String.eqb val "-"
  | None => false
  end.

Definition listed (d : FieldDecl) : bool :=
  match fd_names d with
  | [fname] =>
      exportedName fname && negb (String.prefix "XXX_" fname)
      && negb (omittedByTag d)
  | _ => false
  end.

(** The names of the listed fields, in declaration order. *)
Definition listedOrder (decl : list FieldDecl) : list string :=
  map (fun d => hd "" (fd_names d)) (List.filter listed decl).

(** A name that begins with an ASCII letter or an underscore. *)
Definition asciiInitial (fname : string) : bool :=
  match fname with
  | EmptyString => false
  | String a _ =>
      let n := nat_of_ascii a in
      ((65 <=? n) && (n <=? 90) || (97 <=? n) && (n <=? 122) || (n =? 95))%nat
  end.

(** A field whose names begin with an ASCII letter or an underscore and
    whose tag keys and values are free of space, colon and quote bytes. *)
Definition conventional (d : FieldDecl) : bool :=
  forallb asciiInitial (fd_names d) && forallb plainTag (fd_tags d).

(** ** The signatures of the four methods *)

(** Name, parameter types and result types. *)
Definition sszSignatures : list (string * (list string * list string)) :=
  [ ("SizeSSZ", ([], ["int"]));
    ("MarshalSSZTo", (["[]byte"], ["[]byte"; "error"]));
    ("UnmarshalSSZ", (["[]byte"], ["error"]));
    ("HashTreeRootWith", (["*ssz.Hasher"], ["error"])) ].

(** The types of a parameter or result list as the signature has them: a
    field that declares several names stands for as many parameters of
    its type, a field without a name for one. *)
Definition signatureTypes (fields : list ast.Field) : list string :=
  flat_map (fun f => replicate (Nat.max 1 (length (ast.Names f)))
                       (ast.formatNode (ast.Type_ f))) fields.

(** No field declares more than one name. *)
Definition ungrouped (fields : list ast.Field) : bool :=
  forallb (fun f => (length (ast.Names f) <=? 1)%nat) fields.

(** [funcDecl] is a method on a pointer to [tyname] with the name and the
    signature of one of the four methods. *)
Definition hasSszSignature (tyname : string) (funcDecl : ast.FuncDecl) : Prop :=
  (exists recv rest,
     ast.Recv funcDecl = Some (recv :: rest)
     /\ ast.Type_ recv = ast.StarExpr (ast.Ident tyname))
  /\ exists ins outs,
       In (ast.FuncName funcDecl, (ins, outs)) sszSignatures
       /\ signatureTypes (ast.Params (ast.FuncTy funcDecl)) = ins
       /\ signatureTypes (default [] (ast.Results (ast.FuncTy funcDecl))) = outs.

(** ** Strings in order of first occurrence *)

(** The strings of [l], each once, where it first occurs. *)
Fixpoint firstOccurrences (l : list string) : list string :=
  match l with
  | [] => []
  | x :: rest =>
      x :: List.filter (fun y => negb (String.eqb y x)) (firstOccurrences rest)
  end.

(** ** Further sample inputs *)

Module Example.

(** A container with a scalar field and a list field. *)
Definition withList : Value :=
  mkValue "T" "T" 0 TypeContainer
    [ mkValue "Slot" "" 8 TypeUint [] None false 0 "" false false;
      mkValue "Items" "" 4 TypeList []
        (Some (mkValue "" "" 8 TypeUint [] None false 0 "" false false))
        false 4 "" false false ]
    None false 0 "" false false.

(** One source file that declares the struct [T] with a [uint64] field. *)
Definition envPlain : env.t := Sample.envOf [("a.go", Sample.fileA)] [].

(** The declaration of [T] in [Sample.fileA]. *)
Definition declT : astStruct.t :=
  astStruct.mk "T" (Some [Sample.field "Slot" (ast.Ident "uint64") ""]) "p"
    None false false.

(** The field of [T] as it is registered by [generateIR]. *)
Definition slotNode : Value :=
  mkValue "Slot" "" 8 TypeUint [] None false 0 "" false false.

(** The methods of [T] without a declaration of [T]. *)
Definition envOnlyMethods : env.t := Sample.envOf [("b.go", Sample.fileB)] [].

(** Import specifications: the path is the literal, between double
    quotes. *)
Definition importSpec (alias : option string) (path : string) : ast.ImportSpec :=
  ast.mkImportSpec alias (quoteStr ++ path ++ quoteStr).

Definition fileImports1 : ast.File :=
  ast.mkFile "p" []
    [importSpec None "github.com/x/ssz"; importSpec (Some "_") "embed";
     importSpec (Some "ext") "github.com/x/external"].
Definition fileImports2 : ast.File :=
  ast.mkFile "p" [] [importSpec None "github.com/x/ssz"].
Definition fileImports3 : ast.File :=
  ast.mkFile "p" [] [importSpec (Some "other") "github.com/x/external"].

Definition envImports : env.t :=
  Sample.envOf [("a.go", fileImports1); ("b.go", fileImports2)] [].
Definition envAliasClash : env.t :=
  Sample.envOf [("a.go", fileImports1); ("c.go", fileImports3)] [].

(** A registry with a container whose fields come from two other
    packages, one of them twice. *)
Definition withRefs : Value :=
  mkValue "A" "A" 0 TypeContainer
    [ mkValue "X" "X" 0 TypeContainer [] None false 0 "ext" false false;
      mkValue "Y" "Y" 0 TypeContainer [] None false 0 "ext" false false;
      mkValue "Zs" "" 4 TypeList []
        (Some (mkValue "Z" "Z" 0 TypeContainer [] None false 0 "other" false false))
        false 4 "" false false;
      mkValue "Slot" "" 8 TypeUint [] None false 0 "" false false ]
    None false 0 "" false false.

Definition envRefs : env.t :=
  env.mk "" [] [] "p" [] {[ "A" := withRefs ]} ∅ [] [] ∅.

(** A registry with a container whose field is a vector of a node of
    undefined kind. *)
Definition withUndefined : Value :=
  mkValue "A" "A" 0 TypeContainer
    [ mkValue "Roots" "" 32 TypeVector [] (Some zeroValue) false 0 "" false false ]
    None false 0 "" false false.

Definition envUndefined : env.t :=
  env.mk "" [] [] "p" [] {[ "A" := withUndefined ]} ∅ [] [] ∅.

(** The struct of [Sample.fieldsT] as it is written. *)
Definition declFields : list FieldDecl :=
  [ mkFieldDecl ["Slot"] (ast.Ident "uint64") [];
    mkFieldDecl ["hidden"] (ast.Ident "uint64") [];
    mkFieldDecl ["XXX_unrecognized"] (ast.ArrayType None (ast.Ident "byte")) [];
    mkFieldDecl ["Skipped"] (ast.Ident "uint64") [("ssz", "-")];
    mkFieldDecl ["A"; "B"] (ast.Ident "bool") [];
    mkFieldDecl ["Root"] Sample.bytes32 [("ssz-size", "32")];
    mkFieldDecl ["Flag"] (ast.Ident "bool") [] ].

(** A struct with one field, omitted by [ssz:"-"] after a tag whose value
    holds a space. *)
Definition declSpacedTag : list FieldDecl :=
  [ mkFieldDecl ["A"] (ast.Ident "uint64") [("json", "a b"); ("ssz", "-")] ].

Definition containerSpacedTag : Value :=
  mkValue "T" "" 0 TypeContainer
    [mkValue "A" "" 8 TypeUint [] None false 0 "" false false]
    None false 0 "" false false.

(** The node of the struct [T] of [Sample.fileA], package [p]. *)
Definition containerPT : Value :=
  mkValue "T" "T" 0 TypeContainer [slotNode] None false 0 "" false false.

(** The declarations of [Sample.envSameNameAcross] as [generateIR]
    leaves them: [T] of package [p], then [T] of package [q]. *)
Definition rawSameName : list astStruct.t :=
  [ declT; astStruct.mk "T" (Some []) "q" None false true ].

Definition envSameNameAcross' : env.t :=
  env.mk "" [("c.go", Sample.fileC)] [("a.go", Sample.fileA)] "" rawSameName
    {[ "T" := containerPT ]} {[ "a.go" := ["T"] ]} [] [] ∅.

(** [[][]byte] read with the single annotation [ssz-size:"32"]. *)
Definition vectorOfUndefined : Value :=
  mkValue "" "" 32 TypeVector [] (Some zeroValue) false 0 "" false false.

(** [func (t *T) UnmarshalSSZ(a, b []byte) error]: two parameters
    declared by one field. *)
Definition groupedUnmarshal : ast.FuncDecl :=
  ast.mkFuncDecl
    (Some [ast.mkField ["t"] (ast.StarExpr (ast.Ident "T")) None])
    "UnmarshalSSZ"
    (ast.mkFuncType [ast.mkField ["a"; "b"] Sample.byteSlice None]
       (Some [ast.mkField [] (ast.Ident "error") None])).

End Example.

(** * Properties *)

(** ** The fixed-size classifier *)

Lemma isFixed_container v :
  t v = TypeContainer -> isFixed v = isFixed_fields (o v).
Proof.
  destruct v as [n ob s0 t0 o0 e0 c0 m0 r0 np fx]; simpl; intros ->.
  induction o0 as [|f rest IH]; simpl; [reflexivity|].
  destruct (isFixed f) as [[|]| | |]; auto.
Qed.

Lemma isFixed_fields_true fs :
  isFixed_fields fs = Ok true <-> Forall (fun f => isFixed f = Ok true) fs.
Proof.
  induction fs as [|f rest IH]; simpl.
  - split; auto.
  - split.
    + destruct (isFixed f) as [[|]| | |] eqn:E; try discriminate.
      intros H. constructor; [assumption | apply IH, H].
    + intros H. inversion H as [|? ? Hf Hrest]; subst.
      rewrite Hf. apply IH, Hrest.
Qed.

Lemma isFixed_vector v :
  t v = TypeVector ->
  isFixed v = match e v with Some x => isFixed x | None => Panic end.
Proof. destruct v; simpl; intros ->; reflexivity. Qed.

Lemma isFixed_bytes v : t v = TypeBytes -> isFixed v = Ok (fixed v).
Proof. destruct v as [? ? ? ? ? ? ? ? ? ? []]; simpl; intros ->; reflexivity. Qed.

Lemma isFixed_reference v :
  t v = TypeReference -> isFixed v = Ok (negb (s v =? 0)).
Proof.
  destruct v; simpl; intros ->. destruct (_ =? _); reflexivity.
Qed.

Lemma isFixed_undefined v : t v = TypeUndefined -> isFixed v = Panic.
Proof. destruct v; simpl; intros ->; reflexivity. Qed.

(** C1.  What [isFixed] returns, kind by kind: true for uint and bool;
    false for list and bitlist; for a vector, what it returns for the
    element (so true iff the element is fixed); for a container, true iff
    every field is fixed; for bytes, the [fixed] flag; for a reference,
    whether the bound width [s] is nonzero. *)
Theorem isFixed_by_kind (v : Value) :
  match t v with
  | TypeUint | TypeBool => isFixed v = Ok true
  | TypeList | TypeBitList => isFixed v = Ok false
  | TypeVector =>
      (forall x, e v = Some x -> isFixed v = isFixed x)
      /\ (isFixed v = Ok true <-> exists x, e v = Some x /\ isFixed x = Ok true)
  | TypeContainer =>
      isFixed v = Ok true <-> Forall (fun f => isFixed f = Ok true) (o v)
  | TypeBytes =>
      isFixed v = Ok (fixed v) /\ (isFixed v = Ok true <-> fixed v = true)
  | TypeReference =>
      isFixed v = Ok (negb (s v =? 0)) /\ (isFixed v = Ok true <-> s v <> 0)
  | TypeUndefined => isFixed v = Panic
  end.
Proof.
  destruct (t v) eqn:Ht; try (destruct v; simpl in *; subst; reflexivity).
  - (* bytes *)
    rewrite (isFixed_bytes v Ht). split; [reflexivity|].
    split; congruence.
  - (* vector *)
    rewrite (isFixed_vector v Ht). split.
    + intros x ->. reflexivity.
    + destruct (e v) as [x|]; split.
      * intros H. exists x. auto.
      * intros (y & Hy & H). congruence.
      * discriminate.
      * intros (y & Hy & _). discriminate.
  - (* container *)
    rewrite (isFixed_container v Ht). apply isFixed_fields_true.
  - (* reference *)
    rewrite (isFixed_reference v Ht). split; [reflexivity|].
    destruct (Z.eqb_spec (s v) 0); simpl; split; congruence.
Qed.

Lemma wellKinded_unfold v :
  wellKinded v =
  negb (bool_decide (t v = TypeUndefined))
  && forallb wellKinded (o v)
  && match e v with
     | Some x => wellKinded x
     | None => negb (bool_decide (t v = TypeVector))
     end.
Proof.
  destruct v as [n ob s0 t0 o0 e0 c0 m0 r0 np fx]; reflexivity.
Qed.

Lemma isFixed_returns v : wellKinded v = true -> exists b, isFixed v = Ok b.
Proof.
  induction v as [v IHo IHe] using Value_tree_ind.
  rewrite wellKinded_unfold.
  intros H. apply andb_prop in H as [H He]. apply andb_prop in H as [Ht Ho].
  destruct (t v) eqn:Kt; try discriminate;
    try (destruct v; simpl in *; subst; eexists; reflexivity).
  - rewrite (isFixed_bytes v Kt). eauto.
  - rewrite (isFixed_vector v Kt).
    destruct (e v) as [x|] eqn:Ee; [|discriminate].
    apply (IHe x eq_refl He).
  - rewrite (isFixed_container v Kt).
    induction IHo as [|f rest Hf _ IH]; simpl; [eauto|].
    simpl in Ho. apply andb_prop in Ho as [Hwf Hrest].
    destruct (Hf Hwf) as [[|] ->]; eauto.
  - rewrite (isFixed_reference v Kt). eauto.
Qed.

(** C10.  [isFixed] returns a boolean, without a panic, on every node
    whose reachable sub-nodes all have a defined kind and whose vector
    nodes all have an element; on a node of the undefined kind it
    panics. *)
Theorem isFixed_total_on_defined_kinds :
  (forall v, wellKinded v = true -> exists b, isFixed v = Ok b)
  /\ (forall v, t v = TypeUndefined -> isFixed v = Panic).
Proof.
  split.
  - apply isFixed_returns.
  - apply isFixed_undefined.
Qed.


(** ** The model builder *)

Ltac break_match_in H :=
  match type of H with
  | context [match ?x with _ => _ end] => destruct x eqn:?
  end.

Ltac break_result H :=
  repeat (first [discriminate H | break_match_in H]).

Lemma copy_id v : copy v = v.
Proof.
  induction v as [v IHo IHe] using Value_tree_ind.
  destruct v as [n ob s0 t0 o0 e0 c0 m0 r0 np fx]; simpl in *.
  f_equal.
  - induction IHo as [|x l Hx _ IH]; [reflexivity|]. rewrite Hx, IH. reflexivity.
  - destruct e0 as [x|]; [|reflexivity]. rewrite (IHe x eq_refl). reflexivity.
Qed.

Section BuilderProperties.

Variable Atoi : string -> option Z.
Variable ParseUint : string -> option Z.
Variable extractSSZDimensions : string -> Result (list SSZDimension).

Local Abbreviation encodeItem' := (encodeItem Atoi ParseUint extractSSZDimensions).
Local Abbreviation parseASTStructType' :=
  (parseASTStructType Atoi ParseUint extractSSZDimensions).
Local Abbreviation parseASTFieldType' :=
  (parseASTFieldType Atoi ParseUint extractSSZDimensions).

Lemma encodeItem_S fuel name tags :
  encodeItem' (S fuel) name tags =
  encodeItem_body Atoi (parseASTStructType' fuel) (parseASTFieldType' fuel)
    name tags.
Proof. reflexivity. Qed.

Lemma parseASTStructType_S fuel name fields :
  parseASTStructType' (S fuel) name fields =
  parseASTStructType_body (parseASTFieldType' fuel) name fields.
Proof. reflexivity. Qed.

Lemma parseASTFieldType_S fuel name tags expr :
  parseASTFieldType' (S fuel) name tags expr =
  parseASTFieldType_body Atoi ParseUint extractSSZDimensions
    (encodeItem' fuel) (parseASTFieldType' fuel) name tags expr.
Proof. reflexivity. Qed.

Lemma encodeItem_hit fuel name tags st v :
  env.objs st !! name = Some v ->
  encodeItem' (S fuel) name tags st = Ok (copy v, st).
Proof.
  intros H. rewrite encodeItem_S. unfold encodeItem_body. rewrite H. reflexivity.
Qed.

(** Whatever path a resolution takes, it returns a copy of the entry the
    registry holds afterwards. *)
Lemma encodeItem_registers fuel tyname tags st v st' :
  encodeItem' fuel tyname tags st = Ok (v, st') ->
  exists r, env.objs st' !! tyname = Some r /\ v = copy r.
Proof.
  destruct fuel as [|k]; [discriminate|].
  rewrite encodeItem_S. unfold encodeItem_body.
  destruct (env.objs st !! tyname) as [cached|] eqn:Hobjs.
  - intros H. exists cached. split; congruence.
  - destruct (getRawItemByName tyname (env.raw st)) as [raw|]; [|discriminate].
    destruct (buildItem _ _ _ _ _ _ _) as [[[built|] st1]| | |]; try discriminate.
    intros H. exists (set_obj tyname (set_name tyname built)). split.
    + assert (Hst : st' = env.set_objs
                            (<[tyname := set_obj tyname (set_name tyname built)]>
                               (env.objs st1)) st1) by congruence.
      rewrite Hst. simpl. apply lookup_insert_eq.
    + congruence.
Qed.

(** C9.  Once a name is in the registry, resolving it returns a copy of
    the cached node and leaves the environment as it was, whatever the
    tags: resolutions with two tag strings return the same value, which is
    structurally the cached node.  So after a first resolution has built
    and registered a type, every later resolution returns the value the
    first one returned, whatever its tags. *)
Theorem encodeItem_cached_ignores_tags tyname st :
  (forall fuel tags1 tags2 v,
     env.objs st !! tyname = Some v ->
     encodeItem' (S fuel) tyname tags1 st = Ok (copy v, st)
     /\ encodeItem' (S fuel) tyname tags2 st
        = encodeItem' (S fuel) tyname tags1 st
     /\ copy v = v)
  /\ (forall fuel tags1 v1 st1,
        encodeItem' fuel tyname tags1 st = Ok (v1, st1) ->
        forall fuel2 tags2,
          encodeItem' (S fuel2) tyname tags2 st1 = Ok (v1, st1)).
Proof.
  split.
  - intros fuel tags1 tags2 v H. rewrite !(encodeItem_hit _ _ _ _ _ H).
    split; [reflexivity|]. split; [reflexivity|]. apply copy_id.
  - intros fuel tags1 v1 st1 H fuel2 tags2.
    apply encodeItem_registers in H as (r & Hr & ->).
    apply encodeItem_hit. exact Hr.
Qed.

(** A field type gives the nil node exactly when the tags omit the field. *)
Lemma parseASTFieldType_nil fuel name tags expr st r st' :
  parseASTFieldType' fuel name tags expr st = Ok (r, st') ->
  (r = None <-> omitted tags = true).
Proof.
  destruct fuel as [|k]; [discriminate|].
  rewrite parseASTFieldType_S. unfold parseASTFieldType_body.
  destruct (omitted tags) eqn:Hom.
  - unfold ret. intros [= <- <-]. tauto.
  - intros H. split; [|discriminate]. intros ->. exfalso.
    unfold bind, ret, fail in H.
    break_result H.
Qed.

Lemma fieldsLoop_names k fields : forall acc st o' st',
  fieldsLoop (parseASTFieldType' k) fields acc st = Ok (o', st') ->
  map name o' = (map name acc ++ declaredOrder fields)%list.
Proof.
  unfold declaredOrder.
  induction fields as [|f rest IH]; intros acc st o' st' H; simpl in H.
  - unfold ret in H. injection H as <- <-. simpl. rewrite app_nil_r. reflexivity.
  - simpl. unfold keeps at 1.
    destruct (ast.Names f) as [|fname [|]] eqn:Hn; try (apply IH in H; exact H).
    destruct (isExportedField fname) as [[|]| | |] eqn:Hex;
      try discriminate; try (apply IH in H; exact H).
    destruct (strings.HasPrefix fname "XXX_") eqn:Hx; simpl;
      [apply IH in H; exact H|].
    unfold bind in H.
    destruct (parseASTFieldType' k fname (default "" (ast.Tag f)) (ast.Type_ f) st)
      as [[elem st1]| | |] eqn:Hp; try discriminate.
    pose proof (parseASTFieldType_nil _ _ _ _ _ _ _ Hp) as Hnil.
    destruct elem as [elem|].
    + destruct (omitted (default "" (ast.Tag f))) eqn:Hom.
      * destruct Hnil as [_ Hnil]. specialize (Hnil eq_refl). discriminate.
      * simpl. apply IH in H. rewrite H, map_app. simpl. rewrite Hn. simpl.
        rewrite <- app_assoc. reflexivity.
    + destruct Hnil as [Hnil _]. rewrite (Hnil eq_refl). simpl.
      apply IH in H. exact H.
Qed.

Lemma parseASTStructType_names fuel tyname fields st v st' :
  parseASTStructType' fuel tyname fields st = Ok (v, st') ->
  t v = TypeContainer /\ map name (o v) = declaredOrder fields.
Proof.
  destruct fuel as [|k]; [discriminate|].
  rewrite parseASTStructType_S. unfold parseASTStructType_body, bind, ret.
  destruct (fieldsLoop _ fields [] st) as [[o' st1]| | |] eqn:Hl; try discriminate.
  intros [= <- <-]. split; [reflexivity|].
  apply fieldsLoop_names in Hl. exact Hl.
Qed.


(** *** Array types *)

Lemma applyDim_kind dim v :
  t (applyDim dim v) =
  if IsList dim then TypeList
  else if IsVector dim then TypeVector else t v.
Proof. unfold applyDim. destruct (IsVector dim), (IsList dim); reflexivity. Qed.

Lemma applyDim_s dim v :
  s (applyDim dim v) =
  if IsList dim then uint64 (ListLen dim)
  else if IsVector dim then uint64 (VectorLen dim) else s v.
Proof. unfold applyDim. destruct (IsVector dim), (IsList dim); reflexivity. Qed.

Lemma checkArray_literal fname a v v' :
  checkArray fname (Some a) v = Ok v' ->
  v' = set_c true v /\ t v = TypeVector /\ s v = a.
Proof.
  unfold checkArray. simpl.
  destruct (bool_decide (t v = TypeVector)) eqn:Ht; simpl; [|discriminate].
  destruct (s v =? a) eqn:Hs; simpl; [|discriminate].
  intros [= <-]. apply bool_decide_eq_true in Ht. apply Z.eqb_eq in Hs. auto.
Qed.

Lemma applyByte_fields dim v :
  t (applyByte dim v) = (if IsBitlist dim then TypeBitList else TypeBytes)
  /\ fixed (applyByte dim v) = (IsVector dim || fixed v)
  /\ s (applyByte dim v) = s v /\ c (applyByte dim v) = c v
  /\ e (applyByte dim v) = e v.
Proof. unfold applyByte. destruct (IsVector dim), (IsBitlist dim); auto. Qed.

(** After at least one round of the loop on an array with a literal
    length, the node carries that length. *)
Lemma dimsLoop_literal k fname tags lit a Elt :
  ParseUint lit = Some a ->
  forall dims collection st v st',
  dimsLoop ParseUint (parseASTFieldType' k) fname tags dims
    (Some (ast.BasicLit lit)) Elt collection st = Ok (v, st') ->
  (dims = [] /\ v = collection)
  \/ (s v = a /\ c v = true
      /\ (t v = TypeVector
          \/ Elt = ast.Ident "byte" /\ (t v = TypeBytes \/ t v = TypeBitList))).
Proof.
  intros Hlit. induction dims as [|dim rest IH]; intros collection st v st' H.
  - left. injection H as <- _. auto.
  - right. simpl in H. rewrite Hlit in H.
    destruct (checkArray fname (Some a) (applyDim dim collection))
      as [col| | |] eqn:Hck; try discriminate.
    apply checkArray_literal in Hck as (-> & Ht & Hs).
    assert (Hdone : forall w : Value,
              s w = a -> c w = true ->
              (t w = TypeVector
               \/ Elt = ast.Ident "byte" /\ (t w = TypeBytes \/ t w = TypeBitList)) ->
              forall st0,
              dimsLoop ParseUint (parseASTFieldType' k) fname tags rest
                (Some (ast.BasicLit lit)) Elt w st0 = Ok (v, st') ->
              s v = a /\ c v = true
              /\ (t v = TypeVector
                  \/ Elt = ast.Ident "byte" /\ (t v = TypeBytes \/ t v = TypeBitList))).
    { intros w Hws Hwc Hwt st0 Hrun.
      destruct (IH _ _ _ _ Hrun) as [[_ ->]|Hr]; auto. }
    assert (Hother :
              (element <- parseASTFieldType' k fname tags Elt ;;
               dimsLoop ParseUint (parseASTFieldType' k) fname tags rest
                 (Some (ast.BasicLit lit)) Elt
                 (set_e element (set_c true (applyDim dim collection)))) st
              = Ok (v, st') ->
              s v = a /\ c v = true
              /\ (t v = TypeVector
                  \/ Elt = ast.Ident "byte" /\ (t v = TypeBytes \/ t v = TypeBitList))).
    { unfold bind. intros Hrun.
      destruct (parseASTFieldType' k fname tags Elt st) as [[element st1]| | |];
        try discriminate.
      eapply Hdone; [| | |exact Hrun]; simpl; auto. }
    destruct Elt as [eltName| | | |Len' Elt'| | |]; try (apply Hother; exact H).
    + destruct (String.eqb_spec eltName "byte") as [->|Hne];
        [|apply Hother; exact H].
      destruct (applyByte_fields dim (set_c true (applyDim dim collection)))
        as (Hbt & _ & Hbs & Hbc & _).
      eapply Hdone; [| | |exact H].
      * rewrite Hbs. exact Hs.
      * rewrite Hbc. reflexivity.
      * right. split; [reflexivity|]. rewrite Hbt.
        destruct (IsBitlist dim); auto.
    + unfold bind, ret in H.
      destruct (dimsLoop _ _ _ _ rest Len' Elt' zeroValue st) as [[inner st1]| | |];
        try discriminate.
      injection H as <- _. simpl. auto.
Qed.

(** C5.  A field whose type is an array with a literal length [a], read
    with an annotation [dim] for that dimension: the build fails when the
    annotation is not a plain vector dimension, and when its length (as a
    [uint64]) differs from [a]; when the build succeeds the annotation is a
    vector dimension of length [a], and the node built for the array
    carries the length [a] and is a vector (bytes or a bitlist when the
    element is [byte]). *)
Theorem literal_array_length_checked fuel fname tags lit a Elt dim dims st :
  omitted tags = false ->
  extractSSZDimensions tags = Ok (dim :: dims) ->
  ParseUint lit = Some a ->
  (IsVector dim = false \/ IsList dim = true ->
   exists ty,
     parseASTFieldType' (S fuel) fname tags
       (ast.ArrayType (Some (ast.BasicLit lit)) Elt) st
     = Err (ErrUnexpectedType fname ty))
  /\ (IsVector dim = true -> IsList dim = false ->
      uint64 (VectorLen dim) <> a ->
      parseASTFieldType' (S fuel) fname tags
        (ast.ArrayType (Some (ast.BasicLit lit)) Elt) st
      = Err (ErrSizeMismatch fname (uint64 (VectorLen dim)) a))
  /\ (forall r st',
      parseASTFieldType' (S fuel) fname tags
        (ast.ArrayType (Some (ast.BasicLit lit)) Elt) st = Ok (r, st') ->
      IsVector dim = true /\ IsList dim = false /\ uint64 (VectorLen dim) = a
      /\ exists v, r = Some v /\ s v = a /\ c v = true
         /\ (t v = TypeVector
             \/ Elt = ast.Ident "byte" /\ (t v = TypeBytes \/ t v = TypeBitList))).
Proof.
  intros Hom Hdims Hlit.
  rewrite parseASTFieldType_S. unfold parseASTFieldType_body.
  rewrite Hom, Hdims. unfold bind at 1 2 3.
  pose proof (applyDim_kind dim zeroValue) as Hk.
  pose proof (applyDim_s dim zeroValue) as Hs.
  split; [|split].
  - intros Hnot. simpl. rewrite Hlit. unfold checkArray. simpl. rewrite Hk.
    destruct Hnot as [Hv|Hl].
    + rewrite Hv. destruct (IsList dim); simpl; eauto.
    + rewrite Hl. simpl. eauto.
  - intros Hv Hl Hne. simpl. rewrite Hlit. unfold checkArray. simpl.
    rewrite Hk, Hs, Hl, Hv. simpl.
    destruct (Z.eqb_spec (uint64 (VectorLen dim)) a); [contradiction|reflexivity].
  - intros r st' H.
    destruct (dimsLoop _ _ _ _ (dim :: dims) _ Elt zeroValue st)
      as [[v st1]| | |] eqn:Hloop; try discriminate.
    unfold ret in H. injection H as <- <-.
    pose proof Hloop as Hloop'.
    apply (dimsLoop_literal _ _ _ _ _ _ Hlit) in Hloop as [[? _]|Hr];
      [discriminate|].
    simpl in Hloop'. rewrite Hlit in Hloop'.
    destruct (checkArray fname (Some a) (applyDim dim zeroValue))
      as [col| | |] eqn:Hck; try discriminate.
    apply checkArray_literal in Hck as (_ & Ht & Hsa).
    rewrite Hk in Ht. rewrite Hs in Hsa.
    destruct (IsList dim); [discriminate|].
    destruct (IsVector dim); [|discriminate].
    repeat split; auto. exists v. split; [reflexivity|]. exact Hr.
Qed.

Lemma checkArray_fields fname astSize v v' :
  checkArray fname astSize v = Ok v' ->
  t v' = t v /\ fixed v' = fixed v /\ e v' = e v.
Proof.
  unfold checkArray. destruct astSize as [a|]; [|intros [= <-]; auto].
  simpl. destruct (bool_decide _); simpl; [|discriminate].
  destruct (_ =? _); simpl; [|discriminate]. intros [= <-]. auto.
Qed.

Lemma applyDim_fields dim v :
  fixed (applyDim dim v) = fixed v /\ e (applyDim dim v) = e v.
Proof. unfold applyDim. destruct (IsVector dim), (IsList dim); auto. Qed.

Lemma arrayLen_result fname Len :
  (exists astSize, arrayLen ParseUint fname Len = Ok astSize)
  \/ exists err, arrayLen ParseUint fname Len = Err err.
Proof.
  unfold arrayLen. destruct Len as [[| lit | | | | | |]|]; eauto.
  destruct (ParseUint lit); eauto.
Qed.

Lemma checkArray_result fname astSize v :
  (exists v', checkArray fname astSize v = Ok v')
  \/ exists err, checkArray fname astSize v = Err err.
Proof.
  unfold checkArray. destruct astSize as [a|]; eauto.
  destruct (negb _); eauto. destruct (negb _); eauto.
Qed.

(** The loop on an array nest that ends in [byte], with one annotation
    per dimension: it makes no call, and unless a literal length is
    refused it returns a chain whose innermost node is bytes or a bitlist,
    without an element node. *)
Lemma dimsLoop_bytes k fname tags :
  forall dims Len Elt st,
  byteArrayRank (ast.ArrayType Len Elt) = Some (length dims) ->
  (exists err,
     dimsLoop ParseUint (parseASTFieldType' k) fname tags dims Len Elt zeroValue st
     = Err err)
  \/ exists v b d,
       dimsLoop ParseUint (parseASTFieldType' k) fname tags dims Len Elt zeroValue st
       = Ok (v, st)
       /\ descend (length dims - 1) v = Some b /\ last dims = Some d
       /\ e b = None
       /\ t b = (if IsBitlist d then TypeBitList else TypeBytes)
       /\ fixed b = IsVector d.
Proof.
  induction dims as [|dim rest IH]; intros Len Elt st Hrank.
  - simpl in Hrank. destruct Elt; try discriminate.
    + destruct (String.eqb _ _); discriminate.
    + destruct (byteArrayRank _); discriminate.
  - simpl.
    destruct (arrayLen_result fname Len) as [[astSize ->]|[err ->]]; [|eauto].
    destruct (checkArray_result fname astSize (applyDim dim zeroValue))
      as [[col Hck]|[err ->]]; [|eauto].
    rewrite Hck. apply checkArray_fields in Hck as (Hct & Hcf & Hce).
    destruct (applyDim_fields dim zeroValue) as [Haf Hae].
    simpl in Hrank. destruct Elt as [eltName| | | |Len' Elt'| | |];
      try discriminate.
    + destruct (String.eqb eltName "byte") eqn:Hb; [|discriminate].
      injection Hrank as Hrank. destruct rest; [|discriminate].
      right. exists (applyByte dim col), (applyByte dim col), dim.
      destruct (applyByte_fields dim col) as (Hbt & Hbf & _ & _ & Hbe).
      simpl. split; [reflexivity|]. split; [reflexivity|].
      split; [reflexivity|].
      rewrite Hbe, Hce, Hae, Hbt, Hbf, Hcf, Haf. simpl.
      rewrite orb_false_r. auto.
    + destruct (byteArrayRank (ast.ArrayType Len' Elt')) as [j|] eqn:Hj;
        [|discriminate].
      injection Hrank as Hrank. subst j.
      unfold bind, ret.
      destruct (IH Len' Elt' st Hj) as [[err ->]|(inner & b & d & -> & Hd & Hl & Hb)];
        [eauto|].
      right. exists (set_e (Some inner) col), b, d.
      split; [reflexivity|]. split; [|split; [|exact Hb]].
      * destruct rest as [|dim' rest']; [discriminate|].
        simpl in *. rewrite Nat.sub_0_r in *. exact Hd.
      * destruct rest as [|dim' rest']; [discriminate|]. exact Hl.
Qed.


End BuilderProperties.

(** ** The selection of [print] *)

Section PrintProperties.

Variable hashTreeRoot marshal unmarshal size getTree : string -> Value -> string.
Variable hashSource : env.t -> Result string.
Variable findImport : env.t -> string -> string.

Local Abbreviation emitted' := (emitted hashTreeRoot marshal unmarshal size getTree).
Local Abbreviation printLoop' := (printLoop hashTreeRoot marshal unmarshal size getTree).
Local Abbreviation print' :=
  (print hashTreeRoot marshal unmarshal size getTree hashSource findImport).

Lemma printLoop_emits st experimental order : forall objs imports objs' imports',
  printLoop' st experimental order objs imports = Ok (objs', imports') ->
  objs' = (objs ++ omap (emitted' st experimental) order)%list.
Proof.
  induction order as [|tyname rest IH]; intros objs imports objs' imports' H;
    simpl in H.
  - injection H as <- _. simpl. rewrite app_nil_r. reflexivity.
  - simpl. unfold emitted at 1.
    destruct (default false (env.excludeTypeNames st !! tyname));
      [apply IH in H; exact H|].
    destruct (env.objs st !! tyname) as [obj|]; [|apply IH in H; exact H].
    destruct (detectImports obj) as [refs| | |]; try discriminate.
    unfold basicAlias.
    destruct (isFixed obj) as [[|]| | |]; try discriminate; simpl in H.
    + destruct (isBasicType obj); apply IH in H; rewrite H; [reflexivity|].
      rewrite <- app_assoc. reflexivity.
    + apply IH in H. rewrite H, <- app_assoc. reflexivity.
Qed.


End PrintProperties.

(** ** Collecting the declarations *)

Lemma decodeDecls_spec pack : forall decls objs refs objs' refs',
  decodeDecls pack decls objs refs = Ok (objs', refs') ->
  objs' = (objs ++ flat_map (declsOfDecl pack) decls)%list
  /\ forall n,
       default 0%nat (refs' !! n)
       = (default 0%nat (refs !! n) + length (List.filter (accepts n) decls))%nat.
Proof.
  induction decls as [|dec rest IH]; intros objs refs objs' refs' H; simpl in H.
  - injection H as <- <-. rewrite app_nil_r. split; [reflexivity|].
    intros n. simpl. lia.
  - destruct dec as [specs|f|].
    + apply IH in H as [-> Hr]. split.
      * simpl. rewrite app_assoc. reflexivity.
      * intros n. rewrite Hr. reflexivity.
    + destruct (decodeFuncDecl f) as [[objName|]| | |] eqn:Hd; try discriminate.
      * apply IH in H as [-> Hr]. split; [reflexivity|].
        intros n. rewrite Hr. simpl. rewrite Hd.
        destruct (String.eqb_spec objName n) as [->|Hne].
        -- rewrite lookup_insert_eq. simpl. lia.
        -- rewrite lookup_insert_ne by exact Hne. lia.
      * apply IH in H as [-> Hr]. split; [reflexivity|].
        intros n. rewrite Hr. simpl. rewrite Hd. reflexivity.
    + apply IH in H as [-> Hr]. split; [reflexivity|].
      intros n. rewrite Hr. reflexivity.
Qed.

Lemma decodeASTStruct_spec file res :
  decodeASTStruct file = Ok res ->
  astResult.objs res = declsOf file
  /\ astResult.packName res = ast.Name file
  /\ forall n, In n (astResult.funcs res) <-> acceptedMethods file n = 4%nat.
Proof.
  unfold decodeASTStruct.
  destruct (decodeDecls _ _ _ _) as [[objs refs]| | |] eqn:Hd; try discriminate.
  intros [= <-]. simpl. apply decodeDecls_spec in Hd as [-> Hr].
  split; [reflexivity|]. split; [reflexivity|].
  intros n. unfold acceptedMethods. specialize (Hr n).
  rewrite lookup_empty in Hr. simpl in Hr. rewrite <- Hr.
  rewrite in_map_iff. split.
  - intros ([n' cnt] & Hn & Hin). simpl in Hn. subst n'.
    apply list_elem_of_In, list_elem_of_filter in Hin as [Hc Hin].
    apply elem_of_map_to_list in Hin. simpl in Hc. rewrite Hin. exact Hc.
  - intros H4. exists (n, 4%nat). split; [reflexivity|].
    apply list_elem_of_In, list_elem_of_filter. split; [reflexivity|].
    apply elem_of_map_to_list.
    destruct (refs !! n) as [cnt|]; simpl in H4; [congruence|discriminate].
Qed.

Lemma check_result types args :
  check types args = Panic \/ exists b, check types args = Ok b.
Proof.
  unfold check. destruct types as [list|]; [right|left; reflexivity].
  destruct (negb _); eauto.
Qed.

Lemma isFuncDecl_result f :
  isFuncDecl f = Panic \/ exists b, isFuncDecl f = Ok b.
Proof.
  assert (H : forall in_ out,
             isSpecificFunc f in_ out = Panic
             \/ exists b, isSpecificFunc f in_ out = Ok b).
  { intros in_ out. unfold isSpecificFunc.
    destruct (check_result (Some (ast.Params (ast.FuncTy f))) in_)
      as [->|[[|] ->]]; eauto using check_result. }
  unfold isFuncDecl. repeat (destruct (String.eqb _ _); [apply H|]). eauto.
Qed.

Lemma decodeFuncDecl_result f :
  decodeFuncDecl f = Panic \/ exists r, decodeFuncDecl f = Ok r.
Proof.
  unfold decodeFuncDecl.
  destruct (ast.Recv f) as [[|recv rest]|]; eauto.
  destruct (ast.Type_ recv) as [| |[]| | | | |]; eauto.
  destruct (isFuncDecl_result f) as [->|[[|] ->]]; eauto.
Qed.

Lemma decodeASTStruct_no_fuel file : decodeASTStruct file <> OutOfFuel.
Proof.
  unfold decodeASTStruct.
  assert (H : forall decls objs refs,
             decodeDecls (ast.Name file) decls objs refs <> OutOfFuel).
  { induction decls as [|dec rest IH]; intros objs refs; simpl; [discriminate|].
    destruct dec as [specs|f|]; auto.
    destruct (decodeFuncDecl_result f) as [->|[[objName|] ->]];
      [discriminate|apply IH|apply IH]. }
  specialize (H (ast.Decls file) [] ∅).
  destruct (decodeDecls _ _ _ _) as [[? ?]| | |]; congruence.
Qed.

Lemma checkObjByPackage_None pack n raw :
  checkObjByPackage pack n raw = None <-> ~ In (pack, n) (map key raw).
Proof.
  induction raw as [|item rest IH]; simpl; [tauto|].
  destruct (String.eqb_spec (astStruct.name item) n) as [Hn|Hn]; simpl.
  - destruct (String.eqb_spec (astStruct.packName item) pack) as [Hp|Hp].
    + split; [discriminate|]. intros H. exfalso. apply H. left.
      unfold key. congruence.
    + rewrite IH. split; [|tauto].
      intros H [Hk|Hin]; [|tauto]. unfold key in Hk. congruence.
  - rewrite IH. split; [|tauto].
    intros H [Hk|Hin]; [|tauto]. unfold key in Hk. congruence.
Qed.

Lemma addStructs_spec isRef : forall objs st,
  match addStructs objs isRef st with
  | Ok (_, st') =>
      st' = env.set_raw (env.raw st ++ map (astStruct.set_isRef isRef) objs) st
      /\ (NoDup (map key (env.raw st)) -> NoDup (map key (env.raw st')))
  | Err _ => NoDup (map key (env.raw st)) ->
             ~ NoDup (map key (env.raw st ++ objs))
  | Panic | OutOfFuel => False
  end.
Proof.
  induction objs as [|i rest IH]; intros st; simpl.
  - unfold ret. split; [|auto].
    destruct st; unfold env.set_raw; simpl. rewrite app_nil_r. reflexivity.
  - destruct (checkObjByPackage _ _ (env.raw st)) as [found|] eqn:Hc.
    + intros _ Hnd. rewrite map_app in Hnd. apply NoDup_app in Hnd as (_ & Hnd & _).
      assert (Hin : key i ∈ map key (env.raw st)).
      { destruct (decide (key i ∈ map key (env.raw st))) as [|Hno]; [assumption|].
        rewrite list_elem_of_In in Hno.
        apply checkObjByPackage_None in Hno. congruence. }
      apply (Hnd (key i) Hin). simpl. left.
    + apply checkObjByPackage_None in Hc.
      specialize (IH (env.set_raw (env.raw st ++ [astStruct.set_isRef isRef i]) st)).
      destruct (addStructs rest isRef _) as [[u st']| | |]; simpl in IH; auto.
      * destruct IH as [-> IH]. split.
        -- destruct st; simpl. rewrite <- app_assoc. reflexivity.
        -- intros Hnd. apply IH. rewrite map_app. simpl.
           apply NoDup_app. split; [exact Hnd|]. split.
           ++ intros x Hx Hx'. apply list_elem_of_In in Hx.
              apply list_elem_of_singleton in Hx'. subst x. apply Hc. exact Hx.
           ++ apply NoDup_singleton.
      * intros Hnd Hall. apply IH.
        -- rewrite map_app. simpl. apply NoDup_app. split; [exact Hnd|]. split.
           ++ intros x Hx Hx'. apply list_elem_of_In in Hx.
              apply list_elem_of_singleton in Hx'. subst x. apply Hc. exact Hx.
           ++ apply NoDup_singleton.
        -- rewrite <- app_assoc. simpl.
           rewrite !map_app in *. simpl in *. exact Hall.
Qed.

Lemma frames_ret {A} (a : A) : frames (ret a).
Proof.
  intros st a' st' [= <- <-]. exists (env.objs st). destruct st; reflexivity.
Qed.

Lemma frames_bind {A B} (f : M A) (g : A -> M B) :
  frames f -> (forall a, frames (g a)) -> frames (bind f g).
Proof.
  intros Hf Hg st b st' H. unfold bind in H.
  destruct (f st) as [[a st1]| | |] eqn:Hfst; try discriminate.
  apply Hf in Hfst as [o1 ->]. apply Hg in H as [o2 ->].
  exists o2. destruct st; reflexivity.
Qed.

Lemma frames_lift {A} (r : Result A) : frames (fun st => match r with
                                                      | Ok a => Ok (a, st)
                                                      | Err err => Err err
                                                      | Panic => Panic
                                                      | OutOfFuel => OutOfFuel
                                                      end).
Proof.
  intros st a st' H. destruct r; try discriminate. injection H as <- <-.
  exists (env.objs st). destruct st; reflexivity.
Qed.

Lemma frames_ext {A} (f g : M A) : (forall st, f st = g st) -> frames g -> frames f.
Proof. intros E Hg st a st' H. rewrite E in H. apply Hg in H. exact H. Qed.

Section Frame.

Variable Atoi : string -> option Z.
Variable ParseUint : string -> option Z.
Variable extractSSZDimensions : string -> Result (list SSZDimension).

Local Abbreviation encodeItem' := (encodeItem Atoi ParseUint extractSSZDimensions).
Local Abbreviation parseASTStructType' :=
  (parseASTStructType Atoi ParseUint extractSSZDimensions).
Local Abbreviation parseASTFieldType' :=
  (parseASTFieldType Atoi ParseUint extractSSZDimensions).

Lemma dimsLoop_frames parseField fname tags :
  (forall n tg x, frames (parseField n tg x)) ->
  forall dims Len Elt collection,
  frames (dimsLoop ParseUint parseField fname tags dims Len Elt collection).
Proof.
  intros Hp. induction dims as [|dim rest IH]; intros Len Elt collection.
  - apply frames_ret.
  - intros st v st' H. simpl in H.
    destruct (arrayLen ParseUint fname Len) as [astSize| | |]; try discriminate.
    destruct (checkArray fname astSize (applyDim dim collection))
      as [col| | |]; try discriminate.
    assert (Hother : frames (element <- parseField fname tags Elt ;;
                             dimsLoop ParseUint parseField fname tags rest Len Elt
                               (set_e element col))).
    { apply frames_bind; [apply Hp|]. intros a. apply IH. }
    destruct Elt as [eltName| | | |Len' Elt'| | |];
      try (apply Hother in H; exact H).
    + destruct (String.eqb eltName "byte"); [|apply Hother in H; exact H].
      apply IH in H. exact H.
    + revert H. apply frames_bind; [apply IH|]. intros a. apply frames_ret.
Qed.

Lemma fieldsLoop_frames parseField :
  (forall n tg x, frames (parseField n tg x)) ->
  forall fields acc, frames (fieldsLoop parseField fields acc).
Proof.
  intros Hp. induction fields as [|f rest IH]; intros acc.
  - apply frames_ret.
  - intros st v st' H. simpl in H.
    destruct (ast.Names f) as [|fname [|]]; try (apply IH in H; exact H).
    destruct (isExportedField fname) as [[|]| | |]; try discriminate;
      [|apply IH in H; exact H].
    destruct (strings.HasPrefix fname "XXX_"); [apply IH in H; exact H|].
    revert H. apply frames_bind; [apply Hp|].
    intros [elem|]; apply IH.
Qed.

(** The builder changes nothing of the environment but the registry. *)
Lemma builder_frames fuel :
  (forall n tags, frames (encodeItem' fuel n tags))
  /\ (forall n fields, frames (parseASTStructType' fuel n fields))
  /\ (forall n tags x, frames (parseASTFieldType' fuel n tags x)).
Proof.
  induction fuel as [|k (IHe & IHs & IHf)].
  - repeat split; intros; intros st a st' H; discriminate.
  - assert (Hs : forall n fields, frames (parseASTStructType' (S k) n fields)).
    { intros n fields. simpl. unfold parseASTStructType_body.
      apply frames_bind; [apply fieldsLoop_frames, IHf|].
      intros a. apply frames_ret. }
    assert (Hf : forall n tags x, frames (parseASTFieldType' (S k) n tags x)).
    { intros n tags x. simpl. unfold parseASTFieldType_body.
      destruct (omitted tags); [apply frames_ret|].
      assert (Hfail : forall A, frames (fun _ : env.t => @Panic (A * env.t)))
        by (intros A st a st' H; discriminate).
      assert (Hfail' : forall A err, frames (@fail A err))
        by (intros A err st a st' H; discriminate).
      destruct x as [objName| |x'|x' sel|Len Elt| | |]; try apply Hfail.
      - repeat (destruct (String.eqb _ _); [apply frames_ret|]).
        intros st a st' H.
        destruct (encodeItem' k objName tags st) as [[vv st1]| | |] eqn:He;
          try discriminate.
        injection H as _ <-. apply IHe in He. exact He.
      - destruct x' as [elemName| | |x'' sel| | | |]; try apply Hfail'.
        + apply frames_bind; [apply IHe|]. intros a. apply frames_ret.
        + destruct x''; try apply Hfail.
          apply frames_bind; [apply IHe|]. intros a. apply frames_ret.
      - destruct x' as [pkg| | | | | | |]; try apply Hfail.
        destruct (String.eqb sel "Bitlist").
        { destruct (getTagsInt Atoi tags "ssz-max");
            [apply frames_ret|apply Hfail']. }
        destruct (strings.HasPrefix sel "Bitvector").
        { intros st a st' H.
          destruct (extractSSZDimensions tags) as [dims| | |]; try discriminate.
          destruct (last dims) as [tailDim|]; try discriminate.
          destruct (negb (IsVector tailDim)); try discriminate.
          injection H as _ <-. exists (env.objs st). destruct st; reflexivity. }
        apply frames_bind; [apply IHe|]. intros a. apply frames_ret.
      - intros st a st' H.
        destruct (extractSSZDimensions tags) as [dims| | |]; try discriminate.
        revert H. apply frames_bind; [apply dimsLoop_frames, IHf|].
        intros v. apply frames_ret. }
    split; [|split; assumption].
    intros n tags st v st' H. simpl in H. unfold encodeItem_body in H.
    destruct (env.objs st !! n) as [cached|].
    { injection H as _ <-. exists (env.objs st). destruct st; reflexivity. }
    destruct (getRawItemByName n (env.raw st)) as [raw|]; try discriminate.
    destruct (buildItem _ _ _ _ _ _) as [[[built|] st1]| | |] eqn:Hb;
      try discriminate.
    injection H as _ <-.
    assert (Hst1 : exists o1, st1 = env.set_objs o1 st).
    { unfold buildItem in Hb.
      destruct (astStruct.implFunc raw).
      - injection Hb as _ <-. exists (env.objs st). destruct st; reflexivity.
      - destruct (astStruct.obj raw) as [fields|].
        + revert Hb. apply frames_bind; [apply IHs|]. intros a. apply frames_ret.
        + destruct (astStruct.typ raw) as [typ|]; try discriminate.
          apply IHf in Hb. exact Hb. }
    destruct Hst1 as [o1 ->]. eexists. destruct st; reflexivity.
Qed.

Lemma encodeLoop_frames fuel targets raw :
  frames (encodeLoop Atoi ParseUint extractSSZDimensions fuel targets raw).
Proof.
  induction raw as [|obj rest IH]; simpl; [apply frames_ret|].
  destruct (_ && _); [|exact IH].
  apply frames_bind; [apply builder_frames|]. intros _. exact IH.
Qed.

End Frame.

Lemma knownImport_result i known : forall found,
  knownImport i known found <> Panic /\ knownImport i known found <> OutOfFuel.
Proof.
  induction known as [|j rest IH]; intros found; simpl; [split; discriminate|].
  destruct (String.eqb _ _); [|apply IH].
  destruct (negb _); [split; discriminate|apply IH].
Qed.

Lemma addImports_spec : forall imports st,
  match addImports imports st with
  | Ok (_, st') => exists imps, st' = env.set_imports imps st
  | Err _ => True
  | Panic | OutOfFuel => False
  end.
Proof.
  induction imports as [|i rest IH]; intros st; simpl.
  - exists (env.imports st). destruct st; reflexivity.
  - destruct (knownImport_result i (env.imports st) false) as [Hp Hf].
    destruct (knownImport i (env.imports st) false) as [[|]| | |];
      try congruence; auto.
    + apply IH.
    + specialize (IH (env.set_imports (env.imports st ++ [i]) st)).
      destruct (addImports rest _) as [[u st']| | |]; auto.
Qed.

Lemma importsLoop_spec : forall files st,
  match importsLoop files st with
  | Ok (_, st') => exists imps, st' = env.set_imports imps st
  | Err _ => True
  | Panic | OutOfFuel => False
  end.
Proof.
  induction files as [|[fname file] rest IH]; intros st; simpl.
  - exists (env.imports st). destruct st; reflexivity.
  - unfold bind. pose proof (addImports_spec (decodeASTImports file) st) as Ha.
    destruct (addImports _ st) as [[u st1]| | |]; auto.
    destruct Ha as [imps ->]. specialize (IH (env.set_imports imps st)).
    destruct (importsLoop rest _) as [[u' st']| | |]; auto.
Qed.

Lemma key_set_isRef b x : key (astStruct.set_isRef b x) = key x.
Proof. reflexivity. Qed.

Lemma key_mark P x : key (mark P x) = key x.
Proof. unfold mark. destruct (P _ _); reflexivity. Qed.

Lemma map_key_set_isRef b l : map key (map (astStruct.set_isRef b) l) = map key l.
Proof. rewrite map_map. reflexivity. Qed.

Lemma map_key_mark P l : map key (map (mark P) l) = map key l.
Proof. rewrite map_map. apply map_ext. intros x. apply key_mark. Qed.

(** The files are decoded one by one; their declarations are appended to
    [raw] with the flag [isRef]. *)
Lemma sourceLoop_spec : forall files acc st,
  match sourceLoop files acc st with
  | Ok (rs, st') =>
      exists results ord,
        Forall2 (fun nf res => decodeASTStruct (snd nf) = Ok res) files results
        /\ rs = (acc ++ results)%list
        /\ st' = env.set_order ord
                   (env.set_raw
                      (env.raw st
                       ++ map (astStruct.set_isRef false)
                            (flat_map declsOf (map snd files))) st)
        /\ (NoDup (map key (env.raw st)) -> NoDup (map key (env.raw st')))
  | Err _ | Panic => True
  | OutOfFuel => False
  end.
Proof.
  induction files as [|[fname file] rest IH]; intros acc st; simpl.
  - exists [], (env.order st). rewrite !app_nil_r.
    split; [constructor|]. split; [reflexivity|]. split; [|auto].
    destruct st; reflexivity.
  - unfold bind, liftResult.
    pose proof (decodeASTStruct_no_fuel file) as Hnf.
    destruct (decodeASTStruct file) as [res| | |] eqn:Hd; auto.
    pose proof (addStructs_spec false (astResult.objs res) st) as Ha.
    destruct (addStructs _ false st) as [[u st1]| | |]; auto.
    destruct Ha as [-> Hnd1].
    match goal with
    | |- context [sourceLoop rest ?a ?s] => specialize (IH a s)
    end.
    destruct (sourceLoop rest _ _) as [[rs st']| | |]; auto.
    destruct IH as (results & ord & Hall & -> & -> & Hnd2).
    exists (res :: results), ord.
    apply decodeASTStruct_spec in Hd as Hspec. destruct Hspec as (Hobjs & _ & _).
    split; [constructor; assumption|]. split; [rewrite <- app_assoc; reflexivity|].
    split.
    + destruct st; simpl. rewrite Hobjs, map_app, <- app_assoc. reflexivity.
    + intros Hnd. apply Hnd2. simpl. apply Hnd1. exact Hnd.
Qed.

Lemma includeLoop_spec : forall files acc st,
  match includeLoop files acc st with
  | Ok (rs, st') =>
      exists results,
        Forall2 (fun nf res => decodeASTStruct (snd nf) = Ok res) files results
        /\ rs = (acc ++ results)%list
        /\ st' = env.set_raw
                   (env.raw st
                    ++ map (astStruct.set_isRef true)
                         (flat_map declsOf (map snd files))) st
        /\ (NoDup (map key (env.raw st)) -> NoDup (map key (env.raw st')))
  | Err _ | Panic => True
  | OutOfFuel => False
  end.
Proof.
  induction files as [|[fname file] rest IH]; intros acc st; simpl.
  - exists []. rewrite !app_nil_r.
    split; [constructor|]. split; [reflexivity|]. split; [|auto].
    destruct st; reflexivity.
  - unfold bind, liftResult.
    pose proof (decodeASTStruct_no_fuel file) as Hnf.
    destruct (decodeASTStruct file) as [res| | |] eqn:Hd; auto.
    pose proof (addStructs_spec true (astResult.objs res) st) as Ha.
    destruct (addStructs _ true st) as [[u st1]| | |]; auto.
    destruct Ha as [-> Hnd1].
    match goal with
    | |- context [includeLoop rest ?a ?s] => specialize (IH a s)
    end.
    destruct (includeLoop rest _ _) as [[rs st']| | |]; auto.
    destruct IH as (results & Hall & -> & -> & Hnd2).
    exists (res :: results).
    apply decodeASTStruct_spec in Hd as Hspec. destruct Hspec as (Hobjs & _ & _).
    split; [constructor; assumption|]. split; [rewrite <- app_assoc; reflexivity|].
    split.
    + destruct st; simpl. rewrite Hobjs, map_app, <- app_assoc. reflexivity.
    + intros Hnd. apply Hnd2. simpl. apply Hnd1. exact Hnd.
Qed.

Lemma mark_ext P Q l :
  (forall p n, P p n = Q p n) -> map (mark P) l = map (mark Q) l.
Proof. intros E. apply map_ext. intros x. unfold mark. rewrite E. reflexivity. Qed.

Lemma mark_mark P Q x :
  mark Q (mark P x) = mark (fun p n => P p n || Q p n) x.
Proof.
  unfold mark. destruct x as [n ob p ty impl isr]; simpl.
  destruct (P p n) eqn:HP; simpl; destruct (Q p n) eqn:HQ; reflexivity.
Qed.

Lemma markImplFunc_spec p n : forall raw raw',
  NoDup (map key raw) ->
  markImplFunc p n raw = Some raw' ->
  raw' = map (mark (fun p' n' => String.eqb n' n && String.eqb p' p)) raw.
Proof.
  induction raw as [|item rest IH]; intros raw' Hnd H; simpl in H; [discriminate|].
  apply NoDup_cons in Hnd as [Hnotin Hnd]. simpl. unfold mark at 1.
  destruct (String.eqb (astStruct.name item) n
            && String.eqb (astStruct.packName item) p) eqn:Hc.
  - injection H as <-. f_equal.
    rewrite <- (map_id rest) at 1. apply map_ext_in. intros x Hx.
    unfold mark.
    destruct (String.eqb (astStruct.name x) n
              && String.eqb (astStruct.packName x) p) eqn:Hx'; [|reflexivity].
    exfalso. apply Hnotin. apply list_elem_of_In.
    apply andb_prop in Hc as [Hc1 Hc2]. apply andb_prop in Hx' as [Hx1 Hx2].
    apply String.eqb_eq in Hc1, Hc2, Hx1, Hx2.
    replace (key item) with (key x) by (unfold key; congruence).
    apply in_map. exact Hx.
  - destruct (markImplFunc p n rest) as [rest'|] eqn:Hm; [|discriminate].
    injection H as <-. f_equal. apply IH; [exact Hnd|reflexivity].
Qed.

Lemma checkImplFunc_spec pack : forall funcs st,
  NoDup (map key (env.raw st)) ->
  match checkImplFunc pack funcs st with
  | Ok (_, st') =>
      st' = env.set_raw
              (map (mark (fun p' n' =>
                            String.eqb pack p' && existsb (String.eqb n') funcs))
                 (env.raw st)) st
  | Err _ => True
  | Panic | OutOfFuel => False
  end.
Proof.
  induction funcs as [|n rest IH]; intros st Hnd; simpl.
  - unfold ret. destruct st; unfold env.set_raw; simpl. f_equal.
    rewrite <- (map_id raw) at 1. apply map_ext. intros x. unfold mark.
    rewrite andb_false_r. reflexivity.
  - destruct (markImplFunc pack n (env.raw st)) as [raw'|] eqn:Hm; [|exact I].
    apply markImplFunc_spec in Hm; [|exact Hnd]. subst raw'.
    match goal with
    | |- context [checkImplFunc pack rest ?s] => specialize (IH s)
    end.
    simpl in IH. rewrite map_key_mark in IH. specialize (IH Hnd).
    destruct (checkImplFunc pack rest _) as [[u st']| | |]; auto.
    subst st'. destruct st; unfold env.set_raw; simpl. f_equal.
    rewrite map_map. apply map_ext. intros x. rewrite mark_mark.
    unfold mark. f_equal.
    rewrite (String.eqb_sym (astStruct.packName x) pack).
    destruct (String.eqb pack _), (String.eqb (astStruct.name x) n); reflexivity.
Qed.

Lemma implLoop_spec : forall results st,
  NoDup (map key (env.raw st)) ->
  match implLoop results st with
  | Ok (_, st') =>
      st' = env.set_raw (map (mark (marked results)) (env.raw st)) st
  | Err _ => True
  | Panic | OutOfFuel => False
  end.
Proof.
  induction results as [|res rest IH]; intros st Hnd; simpl.
  - unfold ret. destruct st; unfold env.set_raw; simpl. f_equal.
    rewrite <- (map_id raw) at 1. apply map_ext. intros x. reflexivity.
  - unfold bind.
    pose proof (checkImplFunc_spec (astResult.packName res)
                  (astResult.funcs res) st Hnd) as Hc.
    destruct (checkImplFunc _ _ st) as [[u st1]| | |]; auto.
    subst st1.
    match goal with
    | |- context [implLoop rest ?s] => specialize (IH s)
    end.
    simpl in IH. rewrite map_key_mark in IH. specialize (IH Hnd).
    destruct (implLoop rest _) as [[u' st']| | |]; auto.
    subst st'. destruct st; unfold env.set_raw; simpl. f_equal.
    rewrite map_map. apply map_ext. intros x. rewrite mark_mark. reflexivity.
Qed.

Lemma Forall2_map_snd {A B C} (P : B -> C -> Prop) (l : list (A * B)) k :
  Forall2 (fun nf res => P (snd nf) res) l k -> Forall2 P (map snd l) k.
Proof. induction 1; simpl; constructor; auto. Qed.

Lemma keys_collected st : map key (collected st) = map key (allDecls st).
Proof.
  unfold collected, allDecls, allFiles.
  rewrite map_app, !map_key_set_isRef, map_app, flat_map_app, map_app.
  reflexivity.
Qed.

(** What [collect] leaves in the environment. *)
Lemma collect_spec st :
  match collect st with
  | Ok (_, st') =>
      exists results ord imps,
        Forall2 (fun file res => decodeASTStruct file = Ok res)
          (allFiles st) results
        /\ NoDup (map key (allDecls st))
        /\ st' = env.set_imports imps
                   (env.set_order ord
                      (env.set_raw (map (mark (marked results)) (collected st)) st))
  | Err _ | Panic => True
  | OutOfFuel => False
  end.
Proof.
  unfold collect, bind.
  set (st0 := env.set_imports [] (env.set_order ∅ (env.set_raw [] st))).
  pose proof (importsLoop_spec (env.files st0) st0) as Hi.
  destruct (importsLoop _ st0) as [[u st1]| | |]; auto.
  destruct Hi as [imps ->].
  match goal with
  | |- context [sourceLoop ?f ?a ?s] => pose proof (sourceLoop_spec f a s) as Hs
  end.
  destruct (sourceLoop _ _ _) as [[rs st2]| | |]; auto.
  destruct Hs as (results1 & ord & Hall1 & -> & -> & Hnd1).
  match goal with
  | |- context [includeLoop ?f ?a ?s] => pose proof (includeLoop_spec f a s) as Hs
  end.
  destruct (includeLoop _ _ _) as [[rs st3]| | |]; auto.
  destruct Hs as (results2 & Hall2 & -> & -> & Hnd2).
  simpl in *.
  assert (Hnd : NoDup (map key (collected st))).
  { apply Hnd2, Hnd1. constructor. }
  match goal with
  | |- context [implLoop ?r ?s] => pose proof (implLoop_spec r s) as Hm
  end.
  simpl in Hm. specialize (Hm Hnd).
  destruct (implLoop _ _) as [[u' st4]| | |]; auto.
  exists (results1 ++ results2)%list, ord, imps.
  split; [|split].
  - unfold allFiles. rewrite map_app. apply Forall2_app.
    + apply Forall2_map_snd. exact Hall1.
    + apply Forall2_map_snd. exact Hall2.
  - rewrite <- keys_collected. exact Hnd.
  - subst st4. destruct st; reflexivity.
Qed.

Lemma marked_iff files results pack n :
  Forall2 (fun file res => decodeASTStruct file = Ok res) files results ->
  marked results pack n = true
  <-> exists file, In file files /\ ast.Name file = pack
                   /\ acceptedMethods file n = 4%nat.
Proof.
  induction 1 as [|file res files results Hd _ IH]; simpl.
  - split; [discriminate|]. intros (? & [] & _).
  - apply decodeASTStruct_spec in Hd as (_ & Hp & Hf).
    rewrite orb_true_iff, andb_true_iff, IH, String.eqb_eq, Hp. split.
    + intros [[<- Hex]|(f & Hin & Hn & Hc)].
      * exists file. split; [left; reflexivity|]. split; [reflexivity|].
        apply Hf. apply existsb_exists in Hex as (x & Hx & Hxn).
        apply String.eqb_eq in Hxn. subst x. exact Hx.
      * exists f. auto.
    + intros (f & [<-|Hin] & Hn & Hc).
      * left. split; [exact Hn|]. apply existsb_exists. exists n.
        split; [apply Hf; exact Hc|apply String.eqb_refl].
      * right. exists f. auto.
Qed.

Lemma declsOf_implFunc file x : In x (declsOf file) -> astStruct.implFunc x = false.
Proof.
  unfold declsOf. rewrite in_flat_map. intros (dec & _ & Hx).
  destruct dec as [specs| |]; simpl in Hx; try contradiction.
  unfold decodeSpecs in Hx. apply in_flat_map in Hx as (spec & _ & Hx).
  destruct spec as [n ty|]; simpl in Hx; [|contradiction].
  destruct ty; simpl in Hx; try contradiction;
    destruct Hx as [<-|[]]; reflexivity.
Qed.

Lemma collected_implFunc st x : In x (collected st) -> astStruct.implFunc x = false.
Proof.
  unfold collected. rewrite in_app_iff, !in_map_iff.
  intros [(y & <- & Hy)|(y & <- & Hy)];
    apply in_flat_map in Hy as (file & _ & Hy);
    apply declsOf_implFunc in Hy; exact Hy.
Qed.

Lemma isFuncDecl_name f :
  isFuncDecl f = Ok true -> In (ast.FuncName f) sszMethodNames.
Proof.
  unfold isFuncDecl, sszMethodNames.
  destruct (String.eqb_spec (ast.FuncName f) "SizeSSZ") as [->|_];
    [simpl; auto|].
  destruct (String.eqb_spec (ast.FuncName f) "MarshalSSZTo") as [->|_];
    [simpl; auto|].
  destruct (String.eqb_spec (ast.FuncName f) "UnmarshalSSZ") as [->|_];
    [simpl; auto|].
  destruct (String.eqb_spec (ast.FuncName f) "HashTreeRootWith") as [->|_];
    [simpl; auto|].
  discriminate.
Qed.

Lemma accepts_name tyname f :
  accepts tyname (ast.FuncDeclD f) = true -> In (ast.FuncName f) sszMethodNames.
Proof.
  unfold accepts, decodeFuncDecl.
  destruct (ast.Recv f) as [[|recv rest]|]; try discriminate.
  destruct (ast.Type_ recv) as [| |[]| | | | |]; try discriminate.
  destruct (isFuncDecl f) as [[|]| | |] eqn:Hf; try discriminate.
  intros _. apply isFuncDecl_name. exact Hf.
Qed.

Lemma acceptedNames_length file tyname :
  length (acceptedNames file tyname) = acceptedMethods file tyname.
Proof.
  unfold acceptedNames, acceptedMethods.
  induction (ast.Decls file) as [|dec rest IH]; simpl; [reflexivity|].
  rewrite length_app, IH.
  destruct dec as [specs|f|]; simpl; try reflexivity.
  destruct (match decodeFuncDecl f with
            | Ok (Some objName) => String.eqb objName tyname
            | _ => false
            end); reflexivity.
Qed.

Lemma acceptedNames_known file tyname mname :
  In mname (acceptedNames file tyname) -> In mname sszMethodNames.
Proof.
  unfold acceptedNames. rewrite in_flat_map. intros (dec & _ & Hm).
  destruct dec as [specs|f|]; try contradiction.
  destruct (accepts tyname (ast.FuncDeclD f)) eqn:Ha; [|contradiction].
  destruct Hm as [<-|[]]. apply (accepts_name _ _ Ha).
Qed.

(** In a file where the accepted methods on a type have distinct names
    (as in every package that compiles), there are exactly four of them
    exactly when each of the four methods is there. *)
Lemma four_methods_iff_all file tyname :
  NoDup (acceptedNames file tyname) ->
  acceptedMethods file tyname = 4%nat
  <-> forall mname, In mname sszMethodNames ->
                    In mname (acceptedNames file tyname).
Proof.
  intros Hnd. rewrite <- acceptedNames_length.
  assert (Hsub : acceptedNames file tyname ⊆+ sszMethodNames).
  { apply NoDup_submseteq; [exact Hnd|]. intros x Hx.
    apply list_elem_of_In. apply list_elem_of_In in Hx.
    apply (acceptedNames_known _ _ _ Hx). }
  split.
  - intros Hlen mname Hm.
    assert (Hperm : acceptedNames file tyname ≡ₚ sszMethodNames).
    { apply submseteq_length_Permutation; [exact Hsub|]. rewrite Hlen. simpl. lia. }
    apply list_elem_of_In. rewrite Hperm. apply list_elem_of_In. exact Hm.
  - intros Hall.
    assert (Hsup : sszMethodNames ⊆+ acceptedNames file tyname).
    { apply NoDup_submseteq.
      - apply (bool_decide_eq_true_1 (NoDup sszMethodNames)). reflexivity.
      - intros x Hx. apply list_elem_of_In. apply Hall.
        apply list_elem_of_In. exact Hx. }
    apply submseteq_length in Hsub, Hsup. simpl in *. lia.
Qed.

Section GenerateIRProperties.

Variable Atoi : string -> option Z.
Variable ParseUint : string -> option Z.
Variable extractSSZDimensions : string -> Result (list SSZDimension).

Local Abbreviation encodeItem' := (encodeItem Atoi ParseUint extractSSZDimensions).
Local Abbreviation parseASTStructType' :=
  (parseASTStructType Atoi ParseUint extractSSZDimensions).
Local Abbreviation parseASTFieldType' :=
  (parseASTFieldType Atoi ParseUint extractSSZDimensions).
Local Abbreviation generateIR' := (generateIR Atoi ParseUint extractSSZDimensions).

Lemma generateIR_raw fuel st st' :
  generateIR' fuel st = Ok (tt, st') ->
  exists results,
    Forall2 (fun file res => decodeASTStruct file = Ok res) (allFiles st) results
    /\ NoDup (map key (allDecls st))
    /\ env.raw st' = map (mark (marked results)) (collected st).
Proof.
  unfold generateIR, bind. pose proof (collect_spec st) as Hc.
  destruct (collect st) as [[u st1]| | |]; try discriminate.
  destruct Hc as (results & ord & imps & Hall & Hnd & ->).
  intros H. apply encodeLoop_frames in H as [objs' ->].
  exists results. auto.
Qed.

Lemma generateIR_failure fuel st :
  ~ NoDup (map key (allDecls st)) ->
  generateIR' fuel st = Panic \/ exists err, generateIR' fuel st = Err err.
Proof.
  intros Hdup. unfold generateIR, bind. pose proof (collect_spec st) as Hc.
  destruct (collect st) as [[u st1]| | |]; eauto; [|contradiction].
  destruct Hc as (results & ord & imps & _ & Hnd & _). contradiction.
Qed.

(** X23.  When two type declarations of the source and include files
    have the same name in the same package, [generateIR] fails (with an
    error, or a panic while the files are decoded); when it succeeds,
    [raw] holds the declarations of the files, each package and name once,
    in the order of the files. *)
Theorem generateIR_rejects_duplicates fuel st :
  (~ NoDup (map key (allDecls st)) ->
   generateIR' fuel st = Panic \/ exists err, generateIR' fuel st = Err err)
  /\ (forall st', generateIR' fuel st = Ok (tt, st') ->
      NoDup (map key (env.raw st'))
      /\ map key (env.raw st') = map key (allDecls st)).
Proof.
  split; [apply generateIR_failure|].
  intros st' H. apply generateIR_raw in H as (results & _ & Hnd & ->).
  rewrite map_key_mark, keys_collected. auto.
Qed.

Lemma encodeItem_reference k n tags stx item :
  getRawItemByName n (env.raw stx) = Some item ->
  env.objs stx !! n = None ->
  astStruct.implFunc item = true ->
  encodeItem' (S k) n tags stx
  = Ok (referenceNode Atoi n tags item,
        env.set_objs (<[n := referenceNode Atoi n tags item]> (env.objs stx)) stx).
Proof.
  intros Hraw Hobjs Himpl. simpl. unfold encodeItem_body, buildItem.
  rewrite Hobjs, Hraw, Himpl. reflexivity.
Qed.

Lemma encodeItem_expands k n tags stx item v stx' :
  getRawItemByName n (env.raw stx) = Some item ->
  env.objs stx !! n = None ->
  astStruct.implFunc item = false ->
  encodeItem' (S k) n tags stx = Ok (v, stx') ->
  match astStruct.obj item, astStruct.typ item with
  | Some fields, _ =>
      t v = TypeContainer /\ map name (o v) = declaredOrder fields
  | None, Some typ =>
      exists w st1,
        parseASTFieldType' k n tags typ stx = Ok (Some w, st1)
        /\ v = set_obj n (set_name n w)
  | None, None => False
  end.
Proof.
  intros Hraw Hobjs Himpl. simpl. unfold encodeItem_body, buildItem.
  rewrite Hobjs, Hraw, Himpl.
  destruct (astStruct.obj item) as [fields|].
  - unfold bind, ret.
    destruct (parseASTStructType' k n fields stx) as [[w st1]| | |] eqn:Hp;
      try discriminate.
    intros H.
    assert (Hv : v = copy (set_obj n (set_name n w))) by congruence.
    rewrite copy_id in Hv. subst v.
    apply parseASTStructType_names in Hp as [Ht Ho]. auto.
  - destruct (astStruct.typ item) as [typ|]; [|discriminate].
    destruct (parseASTFieldType' k n tags typ stx) as [[[w|] st1]| | |] eqn:Hp;
      try discriminate.
    intros H.
    assert (Hv : v = copy (set_obj n (set_name n w))) by congruence.
    rewrite copy_id in Hv. eauto.
Qed.


End GenerateIRProperties.

(** ** Copies in the store *)

Section StoreProperties.

Lemma repr_unfold h p v :
  Store.repr h p v
  <-> exists a cell,
        p = Some a /\ h !! a = Some cell
        /\ Store.mkCell (name v) (obj v) (s v) (t v) (Store.o_ cell) (Store.e_ cell) (c v) (m v)
             (ref v) (noPtr v) (fixed v) = cell
        /\ Forall2 (Store.repr h) (Store.o_ cell) (o v)
        /\ match e v with
           | Some x => Store.repr h (Store.e_ cell) x
           | None => Store.e_ cell = None
           end.
Proof.
  destruct v as [n ob s0 t0 o0 e0 c0 m0 r0 np fx]; simpl.
  assert (Hall : forall ps vs,
             (fix all (ps : list Store.ptr) (vs : list Value) {struct vs} : Prop :=
                match vs, ps with
                | [], [] => True
                | x :: vs', q :: ps' => Store.repr h q x /\ all ps' vs'
                | _, _ => False
                end) ps vs <-> Forall2 (Store.repr h) ps vs).
  { intros ps vs. revert ps. induction vs as [|x vs IH]; intros [|q ps].
    - split; [constructor|auto].
    - split; [contradiction|inversion 1].
    - split; [contradiction|inversion 1].
    - rewrite IH. split.
      + intros [H1 H2]. constructor; assumption.
      + inversion 1; subst. auto. }
  split; intros (a & cell & H1 & H2 & H3 & H4 & H5); exists a, cell;
    (split; [exact H1|]); (split; [exact H2|]); (split; [exact H3|]);
    (split; [apply Hall; exact H4|exact H5]).
Qed.

Lemma reach_lt h a b : Store.reach h a b -> (b < length h)%nat.
Proof.
  induction 1 as [a cell Ha| |]; auto. apply lookup_lt_Some in Ha. exact Ha.
Qed.

Lemma reach_closed lo h a b :
  Store.closedIn lo h -> Store.reach h a b -> (lo <= a)%nat -> (lo <= b)%nat.
Proof.
  intros Hc. induction 1 as [a cell Ha|a cell q b Ha Hin _ IH|a cell q b Ha He _ IH];
    intros Hlo; auto.
  - apply IH. apply (Hc a cell q Hlo Ha). left. exact Hin.
  - apply IH. apply (Hc a cell q Hlo Ha). right. exact He.
Qed.

(** A tree is read from the cells below its pointer only. *)
Lemma repr_frame h1 h2 v : forall p,
  Store.repr h1 p v ->
  (forall a b, p = Some a -> Store.reach h1 a b -> h2 !! b = h1 !! b) ->
  Store.repr h2 p v.
Proof.
  induction v as [v IHo IHe] using Value_tree_ind. intros p Hr Hag.
  apply repr_unfold in Hr as (a & cell & -> & Hl & Hsc & Hall & He).
  apply repr_unfold. exists a, cell. split; [reflexivity|].
  split; [rewrite (Hag a a eq_refl (Store.reach_here _ _ _ Hl)); exact Hl|].
  split; [exact Hsc|]. split.
  - assert (Hsub : forall q, In q (Store.o_ cell) -> forall qa b,
               q = Some qa -> Store.reach h1 qa b -> h2 !! b = h1 !! b).
    { intros q Hq qa b -> Hreach. apply (Hag a b eq_refl).
      eapply Store.reach_o; eauto. }
    clear Hsc Hl. revert IHo Hsub.
    induction Hall as [|q x ps vs Hqx _ IH]; intros IHo Hsub; constructor.
    + apply Forall_cons in IHo as [Hx _]. apply Hx; [exact Hqx|].
      intros qa b Hq. apply (Hsub q); [left; reflexivity|exact Hq].
    + apply Forall_cons in IHo as [_ Hvs]. apply IH; [exact Hvs|].
      intros q' Hq'. apply Hsub. right. exact Hq'.
  - destruct (e v) as [x|] eqn:Hev; [|exact He].
    apply (IHe x eq_refl); [exact He|].
    intros qa b Hq Hreach. apply (Hag a b eq_refl).
    eapply Store.reach_e; eauto.
Qed.

Lemma repr_extends h h' p v : Store.extends h h' -> Store.repr h p v -> Store.repr h' p v.
Proof.
  intros Hext Hr. apply (repr_frame h h' v p Hr).
  intros a b _ Hreach. apply reach_lt in Hreach.
  apply lookup_lt_is_Some in Hreach as [cell Hc].
  rewrite Hc. apply Hext. exact Hc.
Qed.

(** The nodes of a tree found in [h] are cells of [h], also when they are
    looked for in a store that Store.extends [h]. *)
Lemma reach_of_repr h h' a b :
  Store.extends h h' -> Store.reach h' a b ->
  forall v, Store.repr h (Some a) v -> (b < length h)%nat.
Proof.
  intros Hext.
  induction 1 as [a cell Ha|a cell q b Ha Hin _ IH|a cell q b Ha He _ IH];
    intros v Hr; apply repr_unfold in Hr as (a' & cell' & [= <-] & Hl & _ & Hall & Hev).
  - apply lookup_lt_Some in Hl. exact Hl.
  - apply Hext in Hl as Hl'. rewrite Ha in Hl'. injection Hl' as ->.
    apply list_elem_of_In, list_elem_of_lookup in Hin as [i Hi].
    destruct (Forall2_lookup_l _ _ _ _ _ Hall Hi) as (x & _ & Hx).
    apply (IH x Hx).
  - apply Hext in Hl as Hl'. rewrite Ha in Hl'. injection Hl' as ->.
    destruct (e v) as [x|].
    + rewrite He in Hev. apply (IH x Hev).
    + congruence.
Qed.

Lemma with_o_with_o x y cell :
  Store.with_o x (Store.with_o y cell) = Store.with_o x cell.
Proof. reflexivity. Qed.

Lemma insert_next (qs : list Store.ptr) q n :
  (length qs < n)%nat ->
  <[length qs := q]> (qs ++ replicate (n - length qs) None)%list
  = ((qs ++ [q]) ++ replicate (n - length (qs ++ [q])%list) None)%list.
Proof.
  intros Hlt. rewrite length_app. simpl.
  replace (n - length qs)%nat with (S (n - (length qs + 1))) by lia.
  simpl. rewrite insert_app_r_alt by lia. rewrite Nat.sub_diag. simpl.
  rewrite <- app_assoc. reflexivity.
Qed.

Section CopyStep.

Variable k : nat.
Hypothesis IHk : forall v h p h', Store.copy k v h = Ok (p, h') -> copyPost h v p h'.

Variable h : list Store.Cell.
Variable cell : Store.Cell.

Local Abbreviation vv := (length h).
Local Abbreviation n := (length (Store.o_ cell)).

(** A tree in the new cells above [vv] stays when [vv] is written and
    cells are added. *)
Lemma repr_above hc hc' q x :
  Store.closedIn (S vv) hc ->
  (exists b, q = Some b /\ (vv < b)%nat) ->
  (forall i, i <> vv -> forall cl, hc !! i = Some cl -> hc' !! i = Some cl) ->
  Store.repr hc q x -> Store.repr hc' q x.
Proof.
  intros Hcl (b & -> & Hb) Hag Hr. apply (repr_frame hc hc' x _ Hr).
  intros a c [= <-] Hreach.
  pose proof (reach_closed _ _ _ _ Hcl Hreach Hb) as Hc.
  apply reach_lt in Hreach. apply lookup_lt_is_Some in Hreach as [cl Hcl'].
  rewrite Hcl'. apply Hag; [lia|exact Hcl'].
Qed.

Lemma copied_mono hc hc' p q :
  Store.closedIn (S vv) hc ->
  (forall i, i <> vv -> forall cl, hc !! i = Some cl -> hc' !! i = Some cl) ->
  copied h hc p q -> copied h hc' p q.
Proof.
  intros Hcl Hag [Hq Hr]. split; [exact Hq|].
  intros x Hx. apply (repr_above hc hc' q x Hcl Hq Hag). apply Hr. exact Hx.
Qed.

Lemma copyFields_post : forall ps done qs hc hf,
  length done = length qs ->
  (length qs + length ps = n)%nat ->
  fieldsInv h cell hc qs ->
  Forall2 (copied h hc) done qs ->
  Store.copyFields (Store.copy k) vv (length qs) ps hc = Ok hf ->
  exists qs',
    fieldsInv h cell hf qs' /\ length qs' = n
    /\ Forall2 (copied h hf) (done ++ ps) qs'.
Proof.
  induction ps as [|p rest IH]; intros done qs hc hf Hlen Hn Hinv Hrep H;
    simpl in H.
  - injection H as <-. exists qs. rewrite app_nil_r. simpl in Hn.
    split; [exact Hinv|]. split; [lia|exact Hrep].
  - destruct (Store.copy k p hc) as [[q h2]| | |] eqn:Hcp; try discriminate.
    apply IHk in Hcp as (Hext2 & -> & Hlt2 & Hcl2 & Hrep2).
    destruct Hinv as (Hext & Hvv & Hcl).
    assert (Hvvlt : (vv < length hc)%nat) by (apply lookup_lt_Some in Hvv; exact Hvv).
    set (hc' := alter (fun x => Store.with_o (<[length qs := Some (length hc)]> (Store.o_ x)) x)
                  vv h2) in *.
    assert (Hag : forall i, i <> vv -> forall cl, hc !! i = Some cl -> hc' !! i = Some cl).
    { intros i Hi cl Hc. unfold hc'. rewrite list_lookup_alter_ne by lia.
      apply Hext2. exact Hc. }
    assert (Hag2 : forall i, i <> vv -> forall cl, h2 !! i = Some cl -> hc' !! i = Some cl).
    { intros i Hi cl Hc. unfold hc'. rewrite list_lookup_alter_ne by lia. exact Hc. }
    assert (Hcl' : Store.closedIn (S vv) hc').
    { intros a cl b Ha Hl Hp. unfold hc' in Hl.
      rewrite list_lookup_alter_ne in Hl by lia.
      destruct (decide (a < length hc)%nat) as [Hin|Hout].
      - apply lookup_lt_is_Some in Hin as [cl0 Hcl0].
        pose proof (Hext2 _ _ Hcl0) as Hh2. rewrite Hl in Hh2.
        injection Hh2 as ->. apply (Hcl a cl0 b Ha Hcl0 Hp).
      - assert (length hc <= b)%nat by (apply (Hcl2 a cl b); [lia|exact Hl|exact Hp]).
        lia. }
    simpl in Hn.
    assert (Hinv' : fieldsInv h cell hc' (qs ++ [Some (length hc)])).
    { split; [|split].
      - intros i cl Hc. pose proof (lookup_lt_Some _ _ _ Hc).
        apply Hag; [lia|]. apply Hext. exact Hc.
      - unfold hc'. rewrite list_lookup_alter_eq. rewrite (Hext2 _ _ Hvv). simpl.
        rewrite with_o_with_o. f_equal. f_equal. apply insert_next. lia.
      - exact Hcl'. }
    replace (done ++ p :: rest)%list with ((done ++ [p]) ++ rest)%list
      by (rewrite <- app_assoc; reflexivity).
    apply (IH (done ++ [p])%list (qs ++ [Some (length hc)])%list hc' hf).
    + rewrite !length_app. simpl. lia.
    + rewrite length_app. simpl. lia.
    + exact Hinv'.
    + apply Forall2_app.
      * eapply Forall2_impl; [exact Hrep|].
        intros p0 q0 Hp0. apply (copied_mono hc hc' p0 q0 Hcl Hag Hp0).
      * constructor; [|constructor]. split.
        { exists (length hc). split; [reflexivity|lia]. }
        intros x Hx.
        apply (repr_extends _ _ _ _ Hext) in Hx. apply Hrep2 in Hx.
        apply (repr_frame h2 hc' x _ Hx).
        intros a b [= <-] Hreach.
        pose proof (reach_closed _ _ _ _ Hcl2 Hreach (Nat.le_refl _)) as Hb.
        apply reach_lt in Hreach. apply lookup_lt_is_Some in Hreach as [cl Hc].
        rewrite Hc. apply Hag2; [lia|exact Hc].
    + rewrite length_app. simpl. rewrite Nat.add_1_r. exact H.
Qed.

End CopyStep.

Lemma Forall2_compose {A B C} (R1 : A -> B -> Prop) (R2 : A -> C -> Prop)
  (R3 : B -> C -> Prop) ps qs xs :
  (forall p q x, R1 p q -> R2 p x -> R3 q x) ->
  Forall2 R1 ps qs -> Forall2 R2 ps xs -> Forall2 R3 qs xs.
Proof.
  intros Hc H1. revert xs. induction H1 as [|p q ps qs Hpq _ IH]; intros xs H2.
  - inversion H2. constructor.
  - inversion H2 as [|? x ? xs' Hpx Hrest]; subst. constructor; eauto.
Qed.

Lemma repr_nil h x : ~ Store.repr h None x.
Proof. intros H. apply repr_unfold in H as (a & cell & [=] & _). Qed.

Lemma copy_post k : forall v h p h',
  Store.copy k v h = Ok (p, h') -> copyPost h v p h'.
Proof.
  induction k as [|k IHk]; intros v h p h' H; [discriminate|].
  simpl in H. destruct v as [a|]; [|discriminate].
  destruct (h !! a) as [cell|] eqn:Ha; [|discriminate].
  set (h1 := (h ++ [Store.with_o (replicate (length (Store.o_ cell)) None) cell])%list) in *.
  destruct (Store.copyFields (Store.copy k) (length h) 0 (Store.o_ cell) h1)
    as [hf| | |] eqn:Hf; try discriminate.
  assert (Hinv1 : fieldsInv h cell h1 []).
  { split; [|split].
    - intros i cl Hc. unfold h1. apply lookup_app_l_Some. exact Hc.
    - unfold h1. rewrite list_lookup_middle by reflexivity. simpl.
      rewrite Nat.sub_0_r. reflexivity.
    - intros b cl q Hb Hl. apply lookup_lt_Some in Hl. unfold h1 in Hl.
      rewrite length_app in Hl. simpl in Hl. lia. }
  apply (copyFields_post k IHk h cell (Store.o_ cell) [] [] h1 hf eq_refl eq_refl
           Hinv1 (List.Forall2_nil _)) in Hf as (qs & (Hext & Hvv & Hcl) & Hlen & Hcop).
  simpl in Hcop. rewrite Hlen, Nat.sub_diag in Hvv. simpl in Hvv.
  rewrite app_nil_r in Hvv.
  assert (Hqs : forall q, In (Some q) qs -> (length h < q)%nat).
  { intros q Hq. apply list_elem_of_In, list_elem_of_lookup in Hq as [i Hi].
    destruct (Forall2_lookup_r _ _ _ _ _ Hcop Hi) as (p0 & _ & (b & [= ->] & Hb) & _).
    exact Hb. }
  assert (Hfields : forall hz x,
             (forall i, i <> length h -> forall cl, hf !! i = Some cl -> hz !! i = Some cl) ->
             Forall2 (Store.repr h) (Store.o_ cell) (o x) ->
             Forall2 (Store.repr hz) qs (o x)).
  { intros hz x Hag Hall. eapply Forall2_compose; [|exact Hcop|exact Hall].
    intros p0 q0 x0 [Hq0 Hr0] Hp0.
    apply (repr_above h hf hz q0 x0 Hcl Hq0 Hag). apply Hr0. exact Hp0. }
  destruct (Store.e_ cell) as [ea|] eqn:Hea.
  - destruct (Store.copy k (Some ea) hf) as [[q h3]| | |] eqn:Hce; try discriminate.
    injection H as <- <-.
    apply IHk in Hce as (Hext3 & -> & Hlt3 & Hcl3 & Hrep3).
    assert (Hvvlt : (length h < length hf)%nat)
      by (apply lookup_lt_Some in Hvv; exact Hvv).
    assert (Hag : forall i, i <> length h -> forall cl,
               hf !! i = Some cl ->
               alter (Store.with_e (Some (length hf))) (length h) h3 !! i = Some cl).
    { intros i Hi cl Hc. rewrite list_lookup_alter_ne by lia. apply Hext3. exact Hc. }
    split; [|split; [|split; [|split]]].
    + intros i cl Hc. pose proof (lookup_lt_Some _ _ _ Hc).
      apply Hag; [lia|]. apply Hext. exact Hc.
    + reflexivity.
    + rewrite length_alter. lia.
    + intros b cl q Hb Hl Hp.
      destruct (decide (b = length h)) as [->|Hne].
      * rewrite list_lookup_alter_eq, (Hext3 _ _ Hvv) in Hl. simpl in Hl.
        injection Hl as <-. destruct Hp as [Hp|Hp]; simpl in Hp.
        -- apply Hqs in Hp. lia.
        -- injection Hp as <-. lia.
      * rewrite list_lookup_alter_ne in Hl by lia.
        destruct (decide (b < length hf)%nat) as [Hin|Hout].
        -- apply lookup_lt_is_Some in Hin as [cl0 Hcl0].
           pose proof (Hext3 _ _ Hcl0) as Hh3. rewrite Hl in Hh3.
           injection Hh3 as ->.
           assert (S (length h) <= q)%nat
             by (apply (Hcl b cl0 q); [lia|exact Hcl0|exact Hp]).
           lia.
        -- assert (length hf <= q)%nat
             by (apply (Hcl3 b cl q); [lia|exact Hl|exact Hp]).
           lia.
    + intros x Hx. apply repr_unfold in Hx as (a' & cell' & [= <-] & Hl & Hsc & Hall & Hev).
      rewrite Ha in Hl. injection Hl as <-.
      apply repr_unfold. exists (length h), (Store.with_e (Some (length hf)) (Store.with_o qs cell)).
      split; [reflexivity|]. split.
      { rewrite list_lookup_alter_eq, (Hext3 _ _ Hvv). reflexivity. }
      split; [rewrite <- Hsc; reflexivity|]. split.
      { simpl. apply Hfields; assumption. }
      rewrite Hea in Hev. simpl. destruct (e x) as [y|]; [|discriminate].
      apply (repr_extends _ _ _ _ Hext) in Hev. apply Hrep3 in Hev.
      apply (repr_frame _ _ _ _ Hev).
      intros a' b [= <-] Hreach.
      pose proof (reach_closed _ _ _ _ Hcl3 Hreach (Nat.le_refl _)) as Hb.
      rewrite list_lookup_alter_ne by lia. reflexivity.
  - injection H as <- <-.
    split; [exact Hext|]. split; [reflexivity|].
    split; [apply lookup_lt_Some in Hvv; exact Hvv|]. split.
    + intros b cl q Hb Hl Hp.
      destruct (decide (b = length h)) as [->|Hne].
      * rewrite Hvv in Hl. injection Hl as <-. destruct Hp as [Hp|Hp]; simpl in Hp.
        -- apply Hqs in Hp. lia.
        -- congruence.
      * assert (S (length h) <= q)%nat
          by (apply (Hcl b cl q); [lia|exact Hl|exact Hp]).
        lia.
    + intros x Hx. apply repr_unfold in Hx as (a' & cell' & [= <-] & Hl & Hsc & Hall & Hev).
      rewrite Ha in Hl. injection Hl as <-.
      apply repr_unfold. exists (length h), (Store.with_o qs cell).
      split; [reflexivity|]. split; [exact Hvv|].
      split; [rewrite <- Hsc; reflexivity|]. split.
      { simpl. apply Hfields; auto. }
      rewrite Hea in Hev. simpl. destruct (e x) as [y|]; [|exact Hea].
      exfalso. apply (repr_nil _ _ Hev).
Qed.

(** [copy] returns on every pointer that leads to a tree, given fuel for
    the height of the tree. *)
Lemma copyFields_returns k h : forall ps xs indx hc,
  Forall2 (Store.repr h) ps xs ->
  Forall (fun x => forall p hx, Store.repr hx p x ->
                   exists r, Store.copy k p hx = Ok r) xs ->
  Store.extends h hc ->
  exists hf, Store.copyFields (Store.copy k) (length h) indx ps hc = Ok hf
             /\ Store.extends h hf.
Proof.
  intros ps xs indx hc Hall. revert indx hc.
  induction Hall as [|p x ps xs Hpx _ IH]; intros indx hc Hk Hext; simpl.
  - eauto.
  - apply Forall_cons in Hk as [Hx Hxs].
    destruct (Hx p hc (repr_extends _ _ _ _ Hext Hpx)) as [[q h2] Hc].
    rewrite Hc. apply copy_post in Hc as (Hext2 & _).
    apply IH; [exact Hxs|].
    intros i cl Hi. pose proof (lookup_lt_Some _ _ _ Hi).
    rewrite list_lookup_alter_ne by lia. apply Hext2, Hext. exact Hi.
Qed.

Lemma copy_returns x :
  exists K, forall k, (K <= k)%nat -> forall p h,
    Store.repr h p x -> exists r, Store.copy k p h = Ok r.
Proof.
  induction x as [x IHo IHe] using Value_tree_ind.
  assert (Ho : exists K, forall k, (K <= k)%nat ->
             Forall (fun y => forall p h, Store.repr h p y ->
                              exists r, Store.copy k p h = Ok r) (o x)).
  { induction IHo as [|y ys [Ky Hy] _ [Ks Hs]].
    - exists O. intros k _. constructor.
    - exists (Nat.max Ky Ks). intros k Hk. constructor.
      + apply Hy. lia.
      + apply Hs. lia. }
  destruct Ho as [Ko Ho].
  assert (He : exists K, forall k, (K <= k)%nat ->
             forall y, e x = Some y -> forall p h, Store.repr h p y ->
             exists r, Store.copy k p h = Ok r).
  { destruct (e x) as [y|].
    - destruct (IHe y eq_refl) as [Ke Hy]. exists Ke.
      intros k Hk y' [= <-]. apply Hy. exact Hk.
    - exists O. intros k _ y [=]. }
  destruct He as [Ke He].
  exists (S (Nat.max Ko Ke)). intros k Hk p h Hr.
  destruct k as [|k]; [lia|]. simpl.
  apply repr_unfold in Hr as (a & cell & -> & Hl & Hsc & Hall & Hev).
  rewrite Hl.
  assert (Hext1 : Store.extends h
            (h ++ [Store.with_o (replicate (length (Store.o_ cell)) None) cell])).
  { intros i cl Hi. apply lookup_app_l_Some. exact Hi. }
  destruct (copyFields_returns k h _ _ O _ Hall (Ho k ltac:(lia)) Hext1)
    as (hf & -> & Hextf).
  destruct (Store.e_ cell) as [ea|] eqn:Hea; [|eauto].
  destruct (e x) as [y|]; [|discriminate].
  destruct (He k ltac:(lia) y eq_refl (Some ea) hf
              (repr_extends _ _ _ _ Hextf Hev)) as [[q h3] ->].
  eauto.
Qed.

Lemma lookupOrBuild_registers Atoi pS pF n tags st r st1 :
  Store.lookupOrBuild Atoi pS pF n tags st = Ok (r, st1) ->
  Store.objs st1 !! n = Some r.
Proof.
  unfold Store.lookupOrBuild.
  destruct (Store.objs st !! n) as [v|] eqn:Hobjs.
  - intros [= <- <-]. exact Hobjs.
  - destruct (getRawItemByName n (Store.raw st)) as [raw|]; [|discriminate].
    destruct (Store.buildItem _ _ _ _ _ _ _) as [[[a|] st2]| | |];
      try discriminate.
    destruct (Store.heap st2 !! a) as [cell|]; [|discriminate].
    intros [= <- <-]. simpl. apply lookup_insert_eq.
Qed.

Lemma encodeItem_copy_spec Atoi pS pF fuel n tags st p st' :
  Store.encodeItem Atoi pS pF fuel n tags st = Ok (p, st') ->
  exists st1 r a,
    Store.lookupOrBuild Atoi pS pF n tags st = Ok (r, st1)
    /\ Store.objs st1 !! n = Some r
    /\ Store.objs st' = Store.objs st1
    /\ p = Some a /\ a = length (Store.heap st1)
    /\ Store.extends (Store.heap st1) (Store.heap st')
    /\ (forall b, Store.reach (Store.heap st') a b ->
                  (length (Store.heap st1) <= b)%nat)
    /\ (forall v, Store.repr (Store.heap st1) r v ->
                  Store.repr (Store.heap st') p v)
    /\ (forall v ra b,
          r = Some ra -> Store.repr (Store.heap st1) r v ->
          Store.reach (Store.heap st') ra b ->
          ~ Store.reach (Store.heap st') a b)
    /\ (forall q v ref' noPtr',
          Store.repr (Store.heap st1) q v ->
          Store.repr (Store.annotate a ref' noPtr' (Store.heap st')) q v)
    /\ (forall x v ref' noPtr',
          (x < length (Store.heap st1))%nat ->
          Store.repr (Store.heap st') p v ->
          Store.repr (Store.annotate x ref' noPtr' (Store.heap st')) p v).
Proof.
  unfold Store.encodeItem.
  destruct (Store.lookupOrBuild Atoi pS pF n tags st) as [[r st1]| | |] eqn:Hl;
    try discriminate.
  destruct (Store.copy fuel r (Store.heap st1)) as [[p0 h']| | |] eqn:Hc;
    try discriminate.
  intros [= <- <-]. simpl.
  apply copy_post in Hc as (Hext & -> & Hlt & Hcl & Hrep).
  assert (Hnew : forall b, Store.reach h' (length (Store.heap st1)) b ->
                           (length (Store.heap st1) <= b)%nat).
  { intros b Hb. apply (reach_closed _ _ _ _ Hcl Hb). lia. }
  exists st1, r, (length (Store.heap st1)).
  split; [reflexivity|]. split; [apply (lookupOrBuild_registers _ _ _ _ _ _ _ _ Hl)|].
  split; [reflexivity|]. split; [reflexivity|]. split; [reflexivity|].
  split; [exact Hext|]. split; [exact Hnew|]. split; [exact Hrep|].
  split; [|split].
  - intros v ra b -> Hr Hreach Hcopy.
    pose proof (reach_of_repr _ _ _ _ Hext Hreach v Hr).
    apply Hnew in Hcopy. lia.
  - intros q v ref' noPtr' Hr. apply (repr_frame _ _ _ _ Hr).
    intros qa b _ Hreach. apply reach_lt in Hreach.
    unfold Store.annotate. rewrite list_lookup_alter_ne by lia.
    apply lookup_lt_is_Some in Hreach as [cl Hcl']. rewrite Hcl'.
    apply Hext. exact Hcl'.
  - intros x v ref' noPtr' Hx Hr. apply (repr_frame _ _ _ _ Hr).
    intros a b [= <-] Hreach. apply Hnew in Hreach.
    unfold Store.annotate. rewrite list_lookup_alter_ne by lia. reflexivity.
Qed.

Lemma encodeItem_returns_on_hit Atoi pS pF n tags st r v :
  Store.objs st !! n = Some r ->
  Store.repr (Store.heap st) r v ->
  exists fuel p st', Store.encodeItem Atoi pS pF fuel n tags st = Ok (p, st').
Proof.
  intros Hobjs Hr. destruct (copy_returns v) as [K HK].
  destruct (HK K (Nat.le_refl K) r (Store.heap st) Hr) as [[p h'] Hc].
  exists K, p, (Store.mk h' (Store.objs st) (Store.raw st)).
  unfold Store.encodeItem, Store.lookupOrBuild. rewrite Hobjs, Hc. reflexivity.
Qed.

(** C2.  Every resolution returns a copy of the registry entry [r] made
    at the [return]: a new cell [a], under which every cell is new (none
    existed in the store [st1] in which [r] lives, so none is a node of the
    registry entry or of an earlier copy), and which holds the same tree as
    [r].  Writing the annotations [ref] and [noPtr] into the copy leaves
    every tree of [st1] (the registry entries, the copies handed out
    before) as it was, and writing them into any earlier cell leaves the
    copy as it was.  The resolution of a name whose registry entry is a
    tree does return, given enough fuel. *)
Theorem encodeItem_returns_private_copy Atoi pS pF n tags st :
  (forall fuel p st',
     Store.encodeItem Atoi pS pF fuel n tags st = Ok (p, st') ->
     exists st1 r a,
       Store.lookupOrBuild Atoi pS pF n tags st = Ok (r, st1)
       /\ Store.objs st1 !! n = Some r
       /\ Store.objs st' = Store.objs st1
       /\ p = Some a /\ a = length (Store.heap st1)
       /\ Store.extends (Store.heap st1) (Store.heap st')
       /\ (forall b, Store.reach (Store.heap st') a b ->
                     (length (Store.heap st1) <= b)%nat)
       /\ (forall v, Store.repr (Store.heap st1) r v ->
                     Store.repr (Store.heap st') p v)
       /\ (forall v ra b,
             r = Some ra -> Store.repr (Store.heap st1) r v ->
             Store.reach (Store.heap st') ra b ->
             ~ Store.reach (Store.heap st') a b)
       /\ (forall q v ref' noPtr',
             Store.repr (Store.heap st1) q v ->
             Store.repr (Store.annotate a ref' noPtr' (Store.heap st')) q v)
       /\ (forall x v ref' noPtr',
             (x < length (Store.heap st1))%nat ->
             Store.repr (Store.heap st') p v ->
             Store.repr (Store.annotate x ref' noPtr' (Store.heap st')) p v))
  /\ (forall r v,
        Store.objs st !! n = Some r ->
        Store.repr (Store.heap st) r v ->
        exists fuel p st',
          Store.encodeItem Atoi pS pF fuel n tags st = Ok (p, st')).
Proof.
  split.
  - intros fuel p st'. apply encodeItem_copy_spec.
  - intros r v. apply encodeItem_returns_on_hit.
Qed.

End StoreProperties.

(** * The properties on sample inputs *)

Lemma isFixed_total_on_defined_kinds_witness :
  (exists b, isFixed Sample.containerT = Ok b) /\ isFixed zeroValue = Panic.
Proof.
  split.
  - apply (proj1 isFixed_total_on_defined_kinds Sample.containerT). reflexivity.
  - apply (proj2 isFixed_total_on_defined_kinds zeroValue). reflexivity.
Defined.

Lemma encodeItem_cached_ignores_tags_witness :
  (Sample.encodeItem 1 "Sig" Sample.tagSize96 Sample.envSig
   = Ok (copy Sample.sigNode, Sample.envSig)
   /\ Sample.encodeItem 1 "Sig" "" Sample.envSig
      = Sample.encodeItem 1 "Sig" Sample.tagSize96 Sample.envSig
   /\ copy Sample.sigNode = Sample.sigNode)
  /\ (forall fuel2 tags2,
        Sample.encodeItem (S fuel2) "Sig" tags2 Sample.envSig
        = Ok (Sample.sigNode, Sample.envSig)).
Proof.
  split.
  - apply (proj1 (encodeItem_cached_ignores_tags Sample.Atoi Sample.ParseUint
                    Sample.extractSSZDimensions "Sig" Sample.envSig)
             0%nat Sample.tagSize96 "" Sample.sigNode).
    vm_compute. reflexivity.
  - apply (proj2 (encodeItem_cached_ignores_tags Sample.Atoi Sample.ParseUint
                    Sample.extractSSZDimensions "Sig" Sample.envSigRaw)
             1%nat "" Sample.sigNode Sample.envSig).
    vm_compute. reflexivity.
Defined.


Lemma literal_array_length_checked_witness :
  (IsVector (mkDim (Some 32) None false) = false
   \/ IsList (mkDim (Some 32) None false) = true ->
   exists ty,
     Sample.parseASTFieldType 1 "Root" Sample.tagSize32 Sample.bytes32
       (Sample.envOf [] []) = Err (ErrUnexpectedType "Root" ty))
  /\ (IsVector (mkDim (Some 32) None false) = true ->
      IsList (mkDim (Some 32) None false) = false ->
      uint64 (VectorLen (mkDim (Some 32) None false)) <> 32 ->
      Sample.parseASTFieldType 1 "Root" Sample.tagSize32 Sample.bytes32
        (Sample.envOf [] [])
      = Err (ErrSizeMismatch "Root"
               (uint64 (VectorLen (mkDim (Some 32) None false))) 32))
  /\ (forall r st',
      Sample.parseASTFieldType 1 "Root" Sample.tagSize32 Sample.bytes32
        (Sample.envOf [] []) = Ok (r, st') ->
      IsVector (mkDim (Some 32) None false) = true
      /\ IsList (mkDim (Some 32) None false) = false
      /\ uint64 (VectorLen (mkDim (Some 32) None false)) = 32
      /\ exists v, r = Some v /\ s v = 32 /\ c v = true
         /\ (t v = TypeVector
             \/ ast.Ident "byte" = ast.Ident "byte"
                /\ (t v = TypeBytes \/ t v = TypeBitList))).
Proof.
  apply (literal_array_length_checked Sample.Atoi Sample.ParseUint
           Sample.extractSSZDimensions 0 "Root" Sample.tagSize32 "32" 32
           (ast.Ident "byte") (mkDim (Some 32) None false) []
           (Sample.envOf [] [])).
  - vm_compute. reflexivity.
  - vm_compute. reflexivity.
  - vm_compute. reflexivity.
Defined.


(** C8, as stated, fails: the container [B] is a named type in the
    registry, it is not an alias of a basic type, and [print] emits no
    procedures for it, because it is excluded. *)
Lemma print_skips_excluded_type :
  env.objs Sample.envPrint !! "B" = Some Sample.containerB
  /\ basicAlias Sample.containerB = false
  /\ Sample.print Sample.envPrint ["A"; "B"] false
     = Ok (Some (mkOutput "p" "hash" [] [Sample.procedures "A"])).
Proof. vm_compute. repeat split; reflexivity. Qed.

Lemma generateIR_rejects_duplicates_witness :
  Sample.generateIR 1 Sample.envSameNameWithin = Panic
  \/ exists err, Sample.generateIR 1 Sample.envSameNameWithin = Err err.
Proof.
  apply (proj1 (generateIR_rejects_duplicates Sample.Atoi Sample.ParseUint
                  Sample.extractSSZDimensions 1 Sample.envSameNameWithin)).
  apply (bool_decide_eq_false_1 (NoDup (map key (allDecls Sample.envSameNameWithin)))).
  vm_compute. reflexivity.
Defined.


(** C3, as stated, fails: the file [a.go] that declares [T] holds none of
    the four methods, they are in [b.go] of the same package, and [T] is
    captured as a reference. *)
Lemma reference_with_methods_in_another_file :
  declsOf Sample.fileA <> [] /\ declsOf Sample.fileB = []
  /\ acceptedMethods Sample.fileA "T" = 0%nat
  /\ Sample.generateIR 1 Sample.envMethodsApart = Ok (tt, Sample.envMethodsApart')
  /\ env.objs Sample.envMethodsApart' !! "T" = Some Sample.refT
  /\ t Sample.refT = TypeReference.
Proof. vm_compute. repeat split; try reflexivity. discriminate. Qed.

Lemma encodeItem_returns_private_copy_witness :
  exists st1 r a,
    Store.lookupOrBuild Sample.Atoi Sample.noStruct Sample.noField "A" ""
      Sample.store0 = Ok (r, st1)
    /\ Store.objs st1 !! "A" = Some r
    /\ Store.objs Sample.store1 = Store.objs st1
    /\ Some 3%nat = Some a /\ a = length (Store.heap st1)
    /\ Store.extends (Store.heap st1) (Store.heap Sample.store1)
    /\ (forall b, Store.reach (Store.heap Sample.store1) a b ->
                  (length (Store.heap st1) <= b)%nat)
    /\ (forall v, Store.repr (Store.heap st1) r v ->
                  Store.repr (Store.heap Sample.store1) (Some 3%nat) v)
    /\ (forall v ra b,
          r = Some ra -> Store.repr (Store.heap st1) r v ->
          Store.reach (Store.heap Sample.store1) ra b ->
          ~ Store.reach (Store.heap Sample.store1) a b)
    /\ (forall q v ref' noPtr',
          Store.repr (Store.heap st1) q v ->
          Store.repr (Store.annotate a ref' noPtr' (Store.heap Sample.store1)) q v)
    /\ (forall x v ref' noPtr',
          (x < length (Store.heap st1))%nat ->
          Store.repr (Store.heap Sample.store1) (Some 3%nat) v ->
          Store.repr (Store.annotate x ref' noPtr' (Store.heap Sample.store1))
            (Some 3%nat) v).
Proof.
  apply (proj1 (encodeItem_returns_private_copy Sample.Atoi Sample.noStruct
                  Sample.noField "A" "" Sample.store0)
           3%nat (Some 3%nat) Sample.store1).
  vm_compute. reflexivity.
Defined.

(** * Further properties *)

(** ** The tag readers *)

Lemma Split_nonempty str sep : strings.Split str sep <> [].
Proof.
  destruct str as [|a rest]; simpl; [discriminate|].
  destruct (Ascii.eqb a sep); [discriminate|].
  destruct (strings.Split rest sep); discriminate.
Qed.

Lemma Split_app a sep b :
  strings.Split (a ++ String sep b) sep
  = (strings.Split a sep ++ strings.Split b sep)%list.
Proof.
  induction a as [|x a IH]; simpl.
  - rewrite Ascii.eqb_refl. reflexivity.
  - destruct (Ascii.eqb x sep); [rewrite IH; reflexivity|].
    rewrite IH. destruct (strings.Split a sep) as [|p ps] eqn:E.
    + exfalso. exact (Split_nonempty a sep E).
    + reflexivity.
Qed.

Lemma Split_none str sep :
  strings.Contains str sep = false -> strings.Split str sep = [str].
Proof.
  induction str as [|a rest IH]; simpl; [reflexivity|].
  destruct (Ascii.eqb a sep); simpl; [discriminate|].
  intros H. rewrite (IH H). reflexivity.
Qed.

Lemma Contains_app a b sep :
  strings.Contains (a ++ b) sep = strings.Contains a sep || strings.Contains b sep.
Proof.
  induction a as [|x a IH]; simpl; [reflexivity|].
  rewrite IH. apply orb_assoc.
Qed.

Lemma Contains_In str sep :
  strings.Contains str sep = false -> ~ In sep (list_ascii_of_string str).
Proof.
  induction str as [|a rest IH]; simpl; [tauto|].
  destruct (Ascii.eqb_spec a sep) as [->|Hne]; simpl; [discriminate|].
  intros H [Heq|Hin]; [contradiction|]. exact (IH H Hin).
Qed.

Lemma list_ascii_of_string_app a b :
  list_ascii_of_string (a ++ b)
  = (list_ascii_of_string a ++ list_ascii_of_string b)%list.
Proof. induction a as [|x a IH]; simpl; [reflexivity|]. rewrite IH. reflexivity. Qed.

Lemma dropWhile_head cut l :
  ~ In cut l -> strings.dropWhile cut l = l.
Proof.
  destruct l as [|a rest]; simpl; [reflexivity|].
  destruct (Ascii.eqb_spec a cut) as [->|Hne]; [|reflexivity].
  intros H. exfalso. apply H. left. reflexivity.
Qed.

(** A string between two cut bytes, with no cut byte inside, is what
    [strings.Trim] leaves. *)
Lemma Trim_between cut str :
  strings.Contains str cut = false ->
  strings.Trim (String cut (str ++ String cut "")) cut = str.
Proof.
  intros H. apply Contains_In in H. unfold strings.Trim.
  simpl list_ascii_of_string. rewrite list_ascii_of_string_app. simpl.
  rewrite Ascii.eqb_refl.
  set (l := list_ascii_of_string str) in *.
  assert (E : rev (strings.dropWhile cut
                     (rev (strings.dropWhile cut (l ++ [cut])))) = l).
  { destruct l as [|x l'] eqn:El.
    - simpl. rewrite Ascii.eqb_refl. reflexivity.
    - rewrite <- El in *.
      assert (Hd : strings.dropWhile cut (l ++ [cut]) = (l ++ [cut])%list).
      { rewrite El. simpl. destruct (Ascii.eqb_spec x cut) as [->|Hne]; [|reflexivity].
        exfalso. apply H. rewrite El. left. reflexivity. }
      rewrite Hd, rev_app_distr. simpl. rewrite Ascii.eqb_refl.
      rewrite dropWhile_head; [apply rev_involutive|].
      intros Hin. apply H. apply in_rev. exact Hin. }
  rewrite E. apply string_of_list_ascii_of_string.
Qed.

Lemma length_append a b :
  String.length (a ++ b) = (String.length a + String.length b)%nat.
Proof. induction a as [|x a IH]; simpl; [reflexivity|]. rewrite IH. reflexivity. Qed.

Lemma substring_all b : String.substring 0 (String.length b) b = b.
Proof. induction b as [|x b IH]; simpl; [reflexivity|]. rewrite IH. reflexivity. Qed.

Lemma substring_append a b :
  String.substring (String.length a) (String.length b) (a ++ b) = b.
Proof. induction a as [|x a IH]; simpl; [apply substring_all|exact IH]. Qed.

Lemma HasSuffix_app a b : strings.HasSuffix (a ++ b) b = true.
Proof.
  unfold strings.HasSuffix. rewrite length_append.
  replace (String.length a + String.length b - String.length b)%nat
    with (String.length a) by lia.
  rewrite substring_append, String.eqb_refl.
  rewrite andb_true_r. apply Nat.leb_le. lia.
Qed.

Lemma plain_spec str :
  plain str = true ->
  strings.Contains str " "%char = false /\ strings.Contains str ":"%char = false
  /\ strings.Contains str quote = false /\ strings.Contains str "`"%char = false.
Proof.
  unfold plain. intros H.
  repeat (apply andb_prop in H as [H ?]).
  repeat split; apply negb_true_iff; assumption.
Qed.

Lemma tagPiece_Contains kv sep :
  strings.Contains (fst kv) sep = false -> strings.Contains (snd kv) sep = false ->
  strings.Contains (tagPiece kv) sep
  = Ascii.eqb ":"%char sep || Ascii.eqb quote sep.
Proof.
  intros Hk Hv. unfold tagPiece, quoteStr.
  change (fst kv ++ ":" ++ String quote "" ++ snd kv ++ String quote "")
    with (fst kv ++ String ":"%char (String quote (snd kv ++ String quote ""))).
  rewrite Contains_app, Hk. cbn [strings.Contains].
  rewrite Contains_app, Hv. cbn [strings.Contains].
  generalize (Ascii.eqb ":" sep), (Ascii.eqb quote sep).
  intros [] []; reflexivity.
Qed.

(** One well-formed piece under the scanner. *)
Lemma getTagsLoop_piece kv rest field :
  plainTag kv = true ->
  getTagsLoop (tagPiece kv :: rest) field
  = if String.eqb (fst kv) field then Some (snd kv) else getTagsLoop rest field.
Proof.
  intros H. apply andb_prop in H as [Hk Hv].
  apply plain_spec in Hk as (Hk1 & Hk2 & Hk3 & Hk4).
  apply plain_spec in Hv as (Hv1 & Hv2 & Hv3 & Hv4).
  simpl getTagsLoop.
  rewrite (tagPiece_Contains kv ":" Hk2 Hv2). simpl.
  assert (Hs : strings.Split (tagPiece kv) ":"
               = [fst kv; String quote (snd kv ++ quoteStr)]).
  { unfold tagPiece. change (":" ++ quoteStr ++ snd kv ++ quoteStr)
      with (String ":"%char (String quote (snd kv ++ quoteStr))).
    rewrite Split_app, (Split_none _ _ Hk2).
    rewrite Split_none; [reflexivity|].
    simpl. rewrite Contains_app, Hv2. reflexivity. }
  rewrite Hs.
  assert (Hp : strings.HasPrefix (String quote (snd kv ++ quoteStr)) quoteStr = true).
  { unfold strings.HasPrefix, quoteStr. cbn [String.prefix].
    destruct (ascii_dec quote quote); [|contradiction].
    destruct (snd kv ++ String quote ""); reflexivity. }
  assert (Hx : strings.HasSuffix (String quote (snd kv ++ quoteStr)) quoteStr = true).
  { change (String quote (snd kv ++ quoteStr))
      with ((String quote (snd kv)) ++ quoteStr).
    apply HasSuffix_app. }
  rewrite Hp, Hx. simpl.
  destruct (String.eqb (fst kv) field); simpl; [|reflexivity].
  unfold quoteStr. rewrite (Trim_between quote (snd kv) Hv3). reflexivity.
Qed.

Lemma getTagsLoop_pieces tags rest field :
  Forall (fun kv => plainTag kv = true) tags ->
  getTagsLoop (map tagPiece tags ++ rest) field
  = match firstTag field tags with
    | Some val => Some val
    | None => getTagsLoop rest field
    end.
Proof.
  induction 1 as [|[k v] tags Hkv _ IH]; [reflexivity|].
  simpl map. simpl app. rewrite (getTagsLoop_piece (k, v) _ field Hkv). simpl.
  destruct (String.eqb k field); [reflexivity|exact IH].
Qed.

Lemma tagPiece_plain kv sep :
  plainTag kv = true -> (sep = " " \/ sep = "`")%char ->
  strings.Contains (tagPiece kv) sep = false.
Proof.
  intros H Hsep. apply andb_prop in H as [Hk Hv].
  apply plain_spec in Hk as (Hk1 & Hk2 & Hk3 & Hk4).
  apply plain_spec in Hv as (Hv1 & Hv2 & Hv3 & Hv4).
  destruct Hsep as [-> | ->]; rewrite tagPiece_Contains; auto.
Qed.

Lemma tagString_cons kv tags :
  tags <> [] -> tagString (kv :: tags) = tagPiece kv ++ String " " (tagString tags).
Proof. destruct tags; [congruence|reflexivity]. Qed.

Lemma tagString_Split tags :
  Forall (fun kv => plainTag kv = true) tags -> tags <> [] ->
  strings.Split (tagString tags) " " = map tagPiece tags.
Proof.
  induction 1 as [|kv tags Hkv Htags IH]; [congruence|]. intros _.
  destruct tags as [|kv' tags'].
  - simpl. apply Split_none. apply tagPiece_plain; auto.
  - rewrite tagString_cons by discriminate.
    rewrite Split_app, Split_none by (apply tagPiece_plain; auto).
    rewrite IH by discriminate. reflexivity.
Qed.

Lemma tagString_backquote tags :
  Forall (fun kv => plainTag kv = true) tags ->
  strings.Contains (tagString tags) "`" = false.
Proof.
  induction 1 as [|kv tags Hkv Htags IH]; [reflexivity|].
  destruct tags as [|kv' tags'].
  - simpl. apply tagPiece_plain; auto.
  - rewrite tagString_cons by discriminate.
    rewrite Contains_app. rewrite tagPiece_plain by auto.
    simpl. exact IH.
Qed.

Lemma getTags_tagLiteral tags field :
  Forall (fun kv => plainTag kv = true) tags ->
  getTags (tagLiteral tags) field = firstTag field tags.
Proof.
  intros H. unfold getTags, tagLiteral.
  change ("`" ++ tagString tags ++ "`")
    with (String "`"%char (tagString tags ++ String "`"%char "")).
  rewrite Trim_between by (apply tagString_backquote, H).
  destruct tags as [|kv tags']; [reflexivity|].
  rewrite tagString_Split by (auto; discriminate).
  rewrite <- (app_nil_r (map tagPiece (kv :: tags'))).
  rewrite (getTagsLoop_pieces _ [] field H).
  destruct (firstTag field (kv :: tags')); reflexivity.
Qed.

Lemma append_assoc' (a b c : string) : (a ++ b) ++ c = a ++ (b ++ c).
Proof.
  induction a as [|x a IH]; [reflexivity|].
  change (String x ((a ++ b) ++ c) = String x (a ++ (b ++ c))).
  rewrite IH. reflexivity.
Qed.

Lemma getTagsLoop_malformed bad rest field :
  wellFormedPiece bad = false -> getTagsLoop (bad :: rest) field = None.
Proof.
  unfold wellFormedPiece. simpl getTagsLoop.
  destruct (strings.Contains bad ":"); simpl; [|reflexivity].
  destruct (strings.Split bad ":") as [|a [|vals [|]]]; try reflexivity.
  destruct (strings.HasPrefix vals quoteStr); simpl; [|reflexivity].
  intros ->. reflexivity.
Qed.

(** ** The classifier and the nodes below a node *)

Lemma visited_unfold v :
  visited v
  = v :: match t v with
         | TypeContainer => flat_map visited (o v)
         | TypeVector =>
             match e v with
             | Some x => visited x
             | None => []
             end
         | _ => []
         end.
Proof.
  destruct v as [n ob s0 t0 o0 e0 c0 m0 r0 np fx]. simpl.
  destruct t0; reflexivity.
Qed.

Lemma isFixed_true_visited v :
  isFixed v = Ok true <-> Forall settled (visited v).
Proof.
  induction v as [v IHo IHe] using Value_tree_ind.
  rewrite visited_unfold, Forall_cons_iff. unfold settled at 1.
  unfold variableLeaf, classifiable.
  destruct (t v) eqn:Kt.
  - rewrite (isFixed_undefined v Kt). split; [discriminate|].
    intros [[_ H] _]. discriminate.
  - destruct v; simpl in *; subst.
    split; [intros _; split; [split; reflexivity|constructor]|reflexivity].
  - destruct v; simpl in *; subst.
    split; [intros _; split; [split; reflexivity|constructor]|reflexivity].
  - rewrite (isFixed_bytes v Kt). split.
    + intros [= ->]. split; [split; reflexivity|constructor].
    + intros [[H _] _]. apply negb_false_iff in H. rewrite H. reflexivity.
  - destruct v; simpl in *; subst. split; [discriminate|].
    intros [[H _] _]. discriminate.
  - rewrite (isFixed_vector v Kt). destruct (e v) as [x|] eqn:Ee.
    + rewrite (IHe x eq_refl). split.
      * intros H. split; [|exact H]. split; [reflexivity|].
        apply bool_decide_eq_true_2. eauto.
      * intros [_ H]. exact H.
    + split; [discriminate|]. intros [[_ H] _].
      apply bool_decide_eq_true_1 in H. destruct H as [x H]. discriminate.
  - destruct v; simpl in *; subst. split; [discriminate|].
    intros [[H _] _]. discriminate.
  - rewrite (isFixed_container v Kt), isFixed_fields_true.
    split.
    + intros H. split; [split; reflexivity|].
      induction IHo as [|f rest Hf _ IH]; simpl; [constructor|].
      inversion H as [|? ? H1 H2]; subst.
      apply Forall_app. split; [apply Hf, H1|apply IH, H2].
    + intros [_ H].
      induction IHo as [|f rest Hf _ IH]; simpl in *; [constructor|].
      apply Forall_app in H as [H1 H2].
      constructor; [apply Hf, H1|apply IH, H2].
  - rewrite (isFixed_reference v Kt). split.
    + intros [= H]. apply negb_true_iff in H.
      split; [split; [exact H|reflexivity]|constructor].
    + intros [[H _] _]. rewrite H. reflexivity.
Qed.

Lemma isFixed_fields_false fs :
  isFixed_fields fs = Ok false -> exists f, In f fs /\ isFixed f = Ok false.
Proof.
  induction fs as [|f rest IH]; simpl; [discriminate|].
  destruct (isFixed f) as [[|]| | |] eqn:E; try discriminate.
  - intros H. destruct (IH H) as (g & Hg & Hfg). exists g. auto.
  - intros _. exists f. auto.
Qed.

Lemma isFixed_false_visited v :
  isFixed v = Ok false -> Exists (fun w => variableLeaf w = true) (visited v).
Proof.
  induction v as [v IHo IHe] using Value_tree_ind.
  rewrite visited_unfold.
  assert (Here : variableLeaf v = true ->
                 forall l, Exists (fun w => variableLeaf w = true) (v :: l)).
  { intros H l. apply Exists_cons. left. exact H. }
  unfold variableLeaf in Here.
  destruct (t v) eqn:Kt.
  - rewrite (isFixed_undefined v Kt). discriminate.
  - destruct v; simpl in *; subst. discriminate.
  - destruct v; simpl in *; subst. discriminate.
  - rewrite (isFixed_bytes v Kt). intros [= H]. apply Here. rewrite H. reflexivity.
  - intros _. apply Here. reflexivity.
  - rewrite (isFixed_vector v Kt). destruct (e v) as [x|] eqn:Ee; [|discriminate].
    intros H. apply Exists_cons. right. exact (IHe x eq_refl H).
  - intros _. apply Here. reflexivity.
  - rewrite (isFixed_container v Kt). intros H.
    apply isFixed_fields_false in H as (f & Hin & Hf).
    apply Exists_cons. right.
    apply Exists_exists.
    rewrite Forall_forall in IHo.
    apply list_elem_of_In in Hin.
    specialize (IHo f Hin Hf). apply Exists_exists in IHo as (w & Hw & Hv).
    exists w. split; [|exact Hv].
    apply list_elem_of_In, in_flat_map. exists f. split.
    + apply list_elem_of_In, Hin.
    + apply list_elem_of_In, Hw.
  - rewrite (isFixed_reference v Kt). intros [= H]. apply negb_false_iff in H.
    apply Here. exact H.
Qed.

(** ** What the builder keeps *)

Section Respects.

Variable Atoi : string -> option Z.
Variable ParseUint : string -> option Z.
Variable extractSSZDimensions : string -> Result (list SSZDimension).

Local Abbreviation encodeItem' := (encodeItem Atoi ParseUint extractSSZDimensions).
Local Abbreviation parseASTStructType' :=
  (parseASTStructType Atoi ParseUint extractSSZDimensions).
Local Abbreviation parseASTFieldType' :=
  (parseASTFieldType Atoi ParseUint extractSSZDimensions).

Variable R : env.t -> env.t -> Prop.
Hypothesis R_refl : forall st, R st st.
Hypothesis R_trans : forall st1 st2 st3, R st1 st2 -> R st2 st3 -> R st1 st3.

(** The one write of the builder: [e.objs[name] = v] in [encodeItem], for
    a declared name that was not in the registry when the call began. *)
Hypothesis R_register : forall st st1 n v,
  env.objs st !! n = None ->
  is_Some (getRawItemByName n (env.raw st)) ->
  R st st1 ->
  R st (env.set_objs (<[n := set_obj n (set_name n v)]> (env.objs st1)) st1).

Lemma respects_ret {A} (a : A) : respects R (ret a).
Proof. intros st a' st' [= <- <-]. apply R_refl. Qed.

Lemma respects_bind {A B} (f : M A) (g : A -> M B) :
  respects R f -> (forall a, respects R (g a)) -> respects R (bind f g).
Proof.
  intros Hf Hg st b st' H. unfold bind in H.
  destruct (f st) as [[a st1]| | |] eqn:Hfst; try discriminate.
  apply Hf in Hfst. apply Hg in H. exact (R_trans _ _ _ Hfst H).
Qed.

Lemma dimsLoop_respects parseField fname tags :
  (forall n tg x, respects R (parseField n tg x)) ->
  forall dims Len Elt collection,
  respects R (dimsLoop ParseUint parseField fname tags dims Len Elt collection).
Proof.
  intros Hp. induction dims as [|dim rest IH]; intros Len Elt collection.
  - apply respects_ret.
  - intros st v st' H. simpl in H.
    destruct (arrayLen ParseUint fname Len) as [astSize| | |]; try discriminate.
    destruct (checkArray fname astSize (applyDim dim collection))
      as [col| | |]; try discriminate.
    assert (Hother : respects R (element <- parseField fname tags Elt ;;
                                 dimsLoop ParseUint parseField fname tags rest Len Elt
                                   (set_e element col))).
    { apply respects_bind; [apply Hp|]. intros a. apply IH. }
    destruct Elt as [eltName| | | |Len' Elt'| | |];
      try (apply Hother in H; exact H).
    + destruct (String.eqb eltName "byte"); [|apply Hother in H; exact H].
      apply IH in H. exact H.
    + revert H. apply respects_bind; [apply IH|]. intros a. apply respects_ret.
Qed.

Lemma fieldsLoop_respects parseField :
  (forall n tg x, respects R (parseField n tg x)) ->
  forall fields acc, respects R (fieldsLoop parseField fields acc).
Proof.
  intros Hp. induction fields as [|f rest IH]; intros acc.
  - apply respects_ret.
  - intros st v st' H. simpl in H.
    destruct (ast.Names f) as [|fname [|]]; try (apply IH in H; exact H).
    destruct (isExportedField fname) as [[|]| | |]; try discriminate;
      [|apply IH in H; exact H].
    destruct (strings.HasPrefix fname "XXX_"); [apply IH in H; exact H|].
    revert H. apply respects_bind; [apply Hp|].
    intros [elem|]; apply IH.
Qed.

Lemma builder_respects fuel :
  (forall n tags, respects R (encodeItem' fuel n tags))
  /\ (forall n fields, respects R (parseASTStructType' fuel n fields))
  /\ (forall n tags x, respects R (parseASTFieldType' fuel n tags x)).
Proof.
  induction fuel as [|k (IHe & IHs & IHf)].
  - repeat split; intros; intros st a st' H; discriminate.
  - assert (Hs : forall n fields, respects R (parseASTStructType' (S k) n fields)).
    { intros n fields. simpl. unfold parseASTStructType_body.
      apply respects_bind; [apply fieldsLoop_respects, IHf|].
      intros a. apply respects_ret. }
    assert (Hf : forall n tags x, respects R (parseASTFieldType' (S k) n tags x)).
    { intros n tags x. simpl. unfold parseASTFieldType_body.
      destruct (omitted tags); [apply respects_ret|].
      assert (Hfail : forall A, respects R (fun _ : env.t => @Panic (A * env.t)))
        by (intros A st a st' H; discriminate).
      assert (Hfail' : forall A err, respects R (@fail A err))
        by (intros A err st a st' H; discriminate).
      destruct x as [objName| |x'|x' sel|Len Elt| | |]; try apply Hfail.
      - repeat (destruct (String.eqb _ _); [apply respects_ret|]).
        intros st a st' H.
        destruct (encodeItem' k objName tags st) as [[vv st1]| | |] eqn:He;
          try discriminate.
        injection H as _ <-. apply IHe in He. exact He.
      - destruct x' as [elemName| | |x'' sel| | | |]; try apply Hfail'.
        + apply respects_bind; [apply IHe|]. intros a. apply respects_ret.
        + destruct x''; try apply Hfail.
          apply respects_bind; [apply IHe|]. intros a. apply respects_ret.
      - destruct x' as [pkg| | | | | | |]; try apply Hfail.
        destruct (String.eqb sel "Bitlist").
        { destruct (getTagsInt Atoi tags "ssz-max");
            [apply respects_ret|apply Hfail']. }
        destruct (strings.HasPrefix sel "Bitvector").
        { intros st a st' H.
          destruct (extractSSZDimensions tags) as [dims| | |]; try discriminate.
          destruct (last dims) as [tailDim|]; try discriminate.
          destruct (negb (IsVector tailDim)); try discriminate.
          injection H as _ <-. apply R_refl. }
        apply respects_bind; [apply IHe|]. intros a. apply respects_ret.
      - intros st a st' H.
        destruct (extractSSZDimensions tags) as [dims| | |]; try discriminate.
        revert H. apply respects_bind; [apply dimsLoop_respects, IHf|].
        intros v. apply respects_ret. }
    split; [|split; assumption].
    intros n tags st v st' H. simpl in H. unfold encodeItem_body in H.
    destruct (env.objs st !! n) as [cached|] eqn:Hmiss.
    { injection H as _ <-. apply R_refl. }
    destruct (getRawItemByName n (env.raw st)) as [raw|] eqn:Hraw;
      try discriminate.
    destruct (buildItem _ _ _ _ _ _) as [[[built|] st1]| | |] eqn:Hb;
      try discriminate.
    injection H as _ <-.
    apply R_register; [exact Hmiss|rewrite Hraw; eauto|].
    unfold buildItem in Hb.
    destruct (astStruct.implFunc raw).
    + injection Hb as _ <-. apply R_refl.
    + destruct (astStruct.obj raw) as [fields|].
      * revert Hb. apply respects_bind; [apply IHs|]. intros a. apply respects_ret.
      * destruct (astStruct.typ raw) as [typ|]; try discriminate.
        apply IHf in Hb. exact Hb.
Qed.

Lemma encodeLoop_respects fuel targets raw :
  respects R (encodeLoop Atoi ParseUint extractSSZDimensions fuel targets raw).
Proof.
  induction raw as [|obj rest IH]; simpl; [apply respects_ret|].
  destruct (_ && _); [|exact IH].
  apply respects_bind; [apply builder_respects|]. intros _. exact IH.
Qed.

End Respects.

Lemma grows_refl st : grows st st.
Proof. split; [reflexivity|]. destruct st; reflexivity. Qed.

Lemma grows_trans st1 st2 st3 : grows st1 st2 -> grows st2 st3 -> grows st1 st3.
Proof.
  intros [H1 E1] [H2 E2]. split; [etrans; eassumption|].
  unfold env.set_objs in *. destruct st1, st2, st3; simpl in *. congruence.
Qed.

Lemma grows_register st st1 n v :
  env.objs st !! n = None ->
  is_Some (getRawItemByName n (env.raw st)) ->
  grows st st1 ->
  grows st (env.set_objs (<[n := set_obj n (set_name n v)]> (env.objs st1)) st1).
Proof.
  intros Hmiss _ [H1 E1]. split.
  - simpl. apply insert_subseteq_r; assumption.
  - unfold env.set_objs in *. destruct st, st1; simpl in *. congruence.
Qed.

(** ** The widths of the scalar nodes *)

Lemma nodes_unfold v :
  nodes v
  = v :: (flat_map nodes (o v)
          ++ match e v with Some x => nodes x | None => [] end)%list.
Proof. destruct v as [n ob s0 t0 o0 e0 c0 m0 r0 np fx]. reflexivity. Qed.

Lemma forallb_flat_map {A B} (p : B -> bool) (f : A -> list B) l :
  forallb p (flat_map f l) = forallb (fun x => forallb p (f x)) l.
Proof.
  induction l as [|x l IH]; simpl; [reflexivity|].
  rewrite forallb_app, IH. reflexivity.
Qed.

Lemma widthsOK_unfold v :
  widthsOK v
  = scalarWidth v && forallb widthsOK (o v)
    && match e v with Some x => widthsOK x | None => true end.
Proof.
  unfold widthsOK at 1. rewrite nodes_unfold. simpl.
  rewrite forallb_app, forallb_flat_map, andb_assoc.
  destruct (e v); reflexivity.
Qed.

Lemma widthsOK_leaf v :
  o v = [] -> e v = None -> widthsOK v = scalarWidth v.
Proof.
  intros Ho He. rewrite widthsOK_unfold, Ho, He. simpl.
  rewrite !andb_true_r. reflexivity.
Qed.

Lemma collectionOK_widths col : collectionOK col -> widthsOK col = true.
Proof.
  intros (Hu & Hb & Ho & He). rewrite widthsOK_unfold, Ho.
  unfold scalarWidth. destruct (t col); try congruence; simpl;
    destruct (e col) as [x|]; auto.
Qed.

Lemma widthsOK_annotated v n ob r np :
  widthsOK v = true ->
  widthsOK (set_name n v) = true /\ widthsOK (set_obj ob v) = true
  /\ widthsOK (set_ref r v) = true /\ widthsOK (set_noPtr np v) = true.
Proof.
  intros H. rewrite widthsOK_unfold in H.
  repeat split; rewrite widthsOK_unfold; destruct v; exact H.
Qed.

Lemma collectionOK_applyDim dim col :
  collectionOK col -> collectionOK (applyDim dim col).
Proof.
  intros (Hu & Hb & Ho & He). unfold applyDim.
  destruct (IsVector dim), (IsList dim); destruct col; simpl in *;
    repeat split; auto; discriminate.
Qed.

Lemma collectionOK_checkArray fname astSize col col' :
  collectionOK col -> checkArray fname astSize col = Ok col' -> collectionOK col'.
Proof.
  intros H Hc. destruct astSize as [a|]; [|injection Hc as <-; exact H].
  apply checkArray_literal in Hc as (-> & _ & _).
  destruct H as (Hu & Hb & Ho & He). destruct col; simpl in *.
  repeat split; auto.
Qed.

Lemma collectionOK_applyByte dim col :
  collectionOK col -> collectionOK (applyByte dim col).
Proof.
  intros (Hu & Hb & Ho & He). unfold applyByte.
  destruct (IsVector dim), (IsBitlist dim); destruct col; simpl in *;
    repeat split; auto; discriminate.
Qed.

Lemma collectionOK_set_e element col :
  collectionOK col ->
  (forall x, element = Some x -> widthsOK x = true) ->
  collectionOK (set_e element col).
Proof.
  intros (Hu & Hb & Ho & He) Hx. destruct col; simpl in *.
  repeat split; auto.
Qed.

Lemma collectionOK_zero : collectionOK zeroValue.
Proof. repeat split; try discriminate. Qed.

Lemma yields_ret {A} (Q : A -> Prop) (a : A) : Q a -> yields Q (ret a).
Proof. intros Ha st a' st' Hst [= <- <-]. auto. Qed.

Lemma yields_bind {A B} (Q1 : A -> Prop) (Q2 : B -> Prop) (f : M A) (g : A -> M B) :
  yields Q1 f -> (forall a, Q1 a -> yields Q2 (g a)) -> yields Q2 (bind f g).
Proof.
  intros Hf Hg st b st' Hst H. unfold bind in H.
  destruct (f st) as [[a st1]| | |] eqn:Hfst; try discriminate.
  destruct (Hf _ _ _ Hst Hfst) as [Hst1 Ha].
  exact (Hg a Ha _ _ _ Hst1 H).
Qed.

Section Widths.

Variable Atoi : string -> option Z.
Variable ParseUint : string -> option Z.
Variable extractSSZDimensions : string -> Result (list SSZDimension).

Local Abbreviation encodeItem' := (encodeItem Atoi ParseUint extractSSZDimensions).
Local Abbreviation parseASTStructType' :=
  (parseASTStructType Atoi ParseUint extractSSZDimensions).
Local Abbreviation parseASTFieldType' :=
  (parseASTFieldType Atoi ParseUint extractSSZDimensions).

Local Abbreviation optionOK :=
  (fun r : option Value => forall x, r = Some x -> widthsOK x = true).

Lemma dimsLoop_widths parseField fname tags :
  (forall n tg x, yields optionOK (parseField n tg x)) ->
  forall dims Len Elt collection,
  collectionOK collection ->
  yields collectionOK
    (dimsLoop ParseUint parseField fname tags dims Len Elt collection).
Proof.
  intros Hp. induction dims as [|dim rest IH]; intros Len Elt collection Hc.
  - apply yields_ret, Hc.
  - intros st v st' Hst H. simpl in H.
    destruct (arrayLen ParseUint fname Len) as [astSize| | |]; try discriminate.
    destruct (checkArray fname astSize (applyDim dim collection))
      as [col| | |] eqn:Hcheck; try discriminate.
    assert (Hcol : collectionOK col).
    { eapply collectionOK_checkArray; [|exact Hcheck].
      apply collectionOK_applyDim, Hc. }
    assert (Hother : yields collectionOK
                       (element <- parseField fname tags Elt ;;
                        dimsLoop ParseUint parseField fname tags rest Len Elt
                          (set_e element col))).
    { eapply yields_bind; [apply Hp|]. intros a Ha. apply IH.
      apply collectionOK_set_e; assumption. }
    destruct Elt as [eltName| | | |Len' Elt'| | |];
      try (exact (Hother _ _ _ Hst H)).
    + destruct (String.eqb eltName "byte"); [|exact (Hother _ _ _ Hst H)].
      refine (IH _ _ _ _ _ _ _ Hst H). apply collectionOK_applyByte, Hcol.
    + revert Hst H. apply (yields_bind collectionOK collectionOK);
        [apply IH, collectionOK_zero|].
      intros inner Hinner. apply yields_ret.
      apply collectionOK_set_e; [exact Hcol|].
      intros x [= <-]. apply collectionOK_widths, Hinner.
Qed.

Lemma fieldsLoop_widths parseField :
  (forall n tg x, yields optionOK (parseField n tg x)) ->
  forall fields acc,
  forallb widthsOK acc = true ->
  yields (fun o' => forallb widthsOK o' = true) (fieldsLoop parseField fields acc).
Proof.
  intros Hp. induction fields as [|f rest IH]; intros acc Hacc.
  - apply yields_ret, Hacc.
  - intros st v st' Hst H. simpl in H.
    destruct (ast.Names f) as [|fname [|]]; try exact (IH _ Hacc _ _ _ Hst H).
    destruct (isExportedField fname) as [[|]| | |]; try discriminate;
      [|exact (IH _ Hacc _ _ _ Hst H)].
    destruct (strings.HasPrefix fname "XXX_"); [exact (IH _ Hacc _ _ _ Hst H)|].
    revert Hst H.
    apply (yields_bind optionOK (fun o' => forallb widthsOK o' = true));
      [apply Hp|].
    intros [elem|] Helem; apply IH; [|exact Hacc].
    rewrite forallb_app, Hacc. simpl. rewrite andb_true_r.
    apply (widthsOK_annotated elem fname "" "" false), Helem. reflexivity.
Qed.

(** The builder gives every scalar node it makes the width of its kind. *)
Lemma builder_widths fuel :
  (forall n tags, yields (fun v => widthsOK v = true) (encodeItem' fuel n tags))
  /\ (forall n fields,
        yields (fun v => widthsOK v = true) (parseASTStructType' fuel n fields))
  /\ (forall n tags x, yields optionOK (parseASTFieldType' fuel n tags x)).
Proof.
  induction fuel as [|k (IHe & IHs & IHf)].
  - split; [|split]; intros; intros st a st' Hst H; discriminate.
  - assert (Hs : forall n fields,
               yields (fun v => widthsOK v = true) (parseASTStructType' (S k) n fields)).
    { intros n fields. simpl. unfold parseASTStructType_body.
      eapply yields_bind; [apply fieldsLoop_widths; [apply IHf|reflexivity]|].
      intros o' Ho'. apply yields_ret.
      rewrite widthsOK_unfold. simpl. rewrite Ho'. reflexivity. }
    assert (Hf : forall n tags x, yields optionOK (parseASTFieldType' (S k) n tags x)).
    { intros n tags x. simpl. unfold parseASTFieldType_body.
      destruct (omitted tags); [apply yields_ret; discriminate|].
      assert (Hfail : forall A (Q : A -> Prop),
                 yields Q (fun _ : env.t => @Panic (A * env.t)))
        by (intros A Q st a st' Hst H; discriminate).
      assert (Hfail' : forall A (Q : A -> Prop) err, yields Q (@fail A err))
        by (intros A Q err st a st' Hst H; discriminate).
      assert (Hsome : forall v, widthsOK v = true -> optionOK (Some v))
        by (intros v Hv w [= <-]; exact Hv).
      destruct x as [objName| |x'|x' sel|Len Elt| | |]; try apply Hfail.
      - repeat (destruct (String.eqb _ _);
                [apply yields_ret, Hsome; reflexivity|]).
        intros st a st' Hst H.
        destruct (encodeItem' k objName tags st) as [[vv st1]| | |] eqn:He;
          try discriminate.
        injection H as <- <-. destruct (IHe _ _ _ _ _ Hst He) as [Hst1 Hvv].
        split; [exact Hst1|apply Hsome, Hvv].
      - destruct x' as [elemName| | |x'' sel| | | |]; try apply Hfail'.
        + eapply yields_bind; [apply IHe|]. intros a Ha. apply yields_ret, Hsome, Ha.
        + destruct x''; try apply Hfail.
          eapply yields_bind; [apply IHe|]. intros a Ha. apply yields_ret, Hsome.
          apply (widthsOK_annotated a "" "" Name false), Ha.
      - destruct x' as [pkg| | | | | | |]; try apply Hfail.
        destruct (String.eqb sel "Bitlist").
        { destruct (getTagsInt Atoi tags "ssz-max");
            [apply yields_ret, Hsome; reflexivity|apply Hfail']. }
        destruct (strings.HasPrefix sel "Bitvector").
        { intros st a st' Hst H.
          destruct (extractSSZDimensions tags) as [dims| | |]; try discriminate.
          destruct (last dims) as [tailDim|]; try discriminate.
          destruct (negb (IsVector tailDim)); try discriminate.
          injection H as <- <-. split; [exact Hst|]. apply Hsome. reflexivity. }
        eapply yields_bind; [apply IHe|]. intros a Ha. apply yields_ret, Hsome.
        apply (widthsOK_annotated (set_ref pkg a) "" "" "" true).
        apply (widthsOK_annotated a "" "" pkg false), Ha.
      - intros st a st' Hst H.
        destruct (extractSSZDimensions tags) as [dims| | |]; try discriminate.
        revert Hst H. apply (yields_bind collectionOK optionOK);
          [apply dimsLoop_widths; [apply IHf|apply collectionOK_zero]|].
        intros v Hv. apply yields_ret, Hsome, collectionOK_widths, Hv. }
    split; [|split; assumption].
    intros n tags st v st' Hst H. simpl in H. unfold encodeItem_body in H.
    destruct (env.objs st !! n) as [cached|] eqn:Hmiss.
    { assert (v = copy cached /\ st' = st) as [-> ->] by (split; congruence).
      rewrite copy_id. split; [exact Hst|]. exact (Hst _ _ Hmiss). }
    destruct (getRawItemByName n (env.raw st)) as [raw|] eqn:Hraw;
      try discriminate.
    destruct (buildItem _ _ _ _ _ _) as [[[built|] st1]| | |] eqn:Hb;
      try discriminate.
    assert (Hbuilt : registryWidths st1 /\ widthsOK built = true).
    { unfold buildItem in Hb.
      destruct (astStruct.implFunc raw).
      - injection Hb as <- <-. split; [exact Hst|reflexivity].
      - destruct (astStruct.obj raw) as [fields|].
        + unfold bind, ret in Hb.
          destruct (parseASTStructType' k n fields st) as [[a st2]| | |] eqn:Hp;
            try discriminate.
          injection Hb as <- <-. exact (IHs _ _ _ _ _ Hst Hp).
        + destruct (astStruct.typ raw) as [typ|]; try discriminate.
          destruct (IHf _ _ _ _ _ _ Hst Hb) as [Hst1 Hx].
          split; [exact Hst1|apply Hx; reflexivity]. }
    destruct Hbuilt as [Hst1 Hbuilt].
    assert (Hv : widthsOK (set_obj n (set_name n built)) = true).
    { apply (widthsOK_annotated (set_name n built) "" n "" false).
      apply (widthsOK_annotated built n "" "" false), Hbuilt. }
    assert (v = copy (set_obj n (set_name n built))
            /\ st' = env.set_objs (<[n := set_obj n (set_name n built)]> (env.objs st1)) st1)
      as [-> ->] by (split; congruence).
    rewrite copy_id. split; [|exact Hv].
    intros n' r Hlook. simpl in Hlook.
    destruct (decide (n = n')) as [<-|Hne].
    + rewrite lookup_insert_eq in Hlook. injection Hlook as <-. exact Hv.
    + rewrite lookup_insert_ne in Hlook by exact Hne. exact (Hst1 _ _ Hlook).
Qed.

Lemma encodeLoop_widths fuel targets raw :
  yields (fun _ => True)
    (encodeLoop Atoi ParseUint extractSSZDimensions fuel targets raw).
Proof.
  induction raw as [|obj rest IH]; simpl; [apply yields_ret; exact I|].
  destruct (_ && _); [|exact IH].
  eapply yields_bind; [apply builder_widths|]. intros _ _. exact IH.
Qed.

End Widths.

Lemma uintVToName_returns w :
  scalarWidth w = true -> t w = TypeUint ->
  exists nm, uintVToName w = Ok nm
             /\ In nm ["Uint64"; "Uint32"; "Uint16"; "Uint8"].
Proof.
  unfold scalarWidth, uintVToName. intros H Ht. rewrite Ht in *.
  rewrite bool_decide_eq_true_2 by reflexivity. simpl.
  destruct (s w =? 8); [eexists; split; [reflexivity|simpl; auto]|].
  destruct (s w =? 4); [eexists; split; [reflexivity|simpl; auto]|].
  destruct (s w =? 2); [eexists; split; [reflexivity|simpl; auto]|].
  destruct (s w =? 1); [eexists; split; [reflexivity|simpl; auto 6]|].
  discriminate.
Qed.

(** ** The registry after [generateIR] *)

Lemma contains_In i j : contains i j = true <-> In i j.
Proof.
  induction j as [|a rest IH]; simpl; [split; [discriminate|tauto]|].
  destruct (String.eqb_spec a i) as [->|Hne].
  - split; auto.
  - rewrite IH. split; [auto|]. intros [H|H]; [contradiction|exact H].
Qed.

Section Registry.

Variable Atoi : string -> option Z.
Variable ParseUint : string -> option Z.
Variable extractSSZDimensions : string -> Result (list SSZDimension).

Local Abbreviation encodeItem' := (encodeItem Atoi ParseUint extractSSZDimensions).
Local Abbreviation parseASTStructType' :=
  (parseASTStructType Atoi ParseUint extractSSZDimensions).
Local Abbreviation parseASTFieldType' :=
  (parseASTFieldType Atoi ParseUint extractSSZDimensions).
Local Abbreviation encodeLoop' := (encodeLoop Atoi ParseUint extractSSZDimensions).
Local Abbreviation generateIR' := (generateIR Atoi ParseUint extractSSZDimensions).

Lemma builder_grows fuel :
  (forall n tags, respects grows (encodeItem' fuel n tags))
  /\ (forall n fields, respects grows (parseASTStructType' fuel n fields))
  /\ (forall n tags x, respects grows (parseASTFieldType' fuel n tags x)).
Proof.
  apply builder_respects;
    [apply grows_refl|apply grows_trans|apply grows_register].
Qed.

Lemma encodeLoop_grows fuel targets raw :
  respects grows (encodeLoop' fuel targets raw).
Proof.
  apply encodeLoop_respects;
    [apply grows_refl|apply grows_trans|apply grows_register].
Qed.

Lemma staysNamed_refl st : staysNamed st st.
Proof. split; auto. Qed.

Lemma staysNamed_trans st1 st2 st3 :
  staysNamed st1 st2 -> staysNamed st2 st3 -> staysNamed st1 st3.
Proof. intros [E1 H1] [E2 H2]. split; [congruence|auto]. Qed.

Lemma staysNamed_register st st1 n v :
  env.objs st !! n = None ->
  is_Some (getRawItemByName n (env.raw st)) ->
  staysNamed st st1 ->
  staysNamed st (env.set_objs (<[n := set_obj n (set_name n v)]> (env.objs st1)) st1).
Proof.
  intros _ Hraw [E1 H1]. split; [exact E1|].
  intros Hst n' r Hlook. simpl in Hlook.
  assert (Eraw : env.raw (env.set_objs (<[n := set_obj n (set_name n v)]> (env.objs st1)) st1)
                 = env.raw st) by exact E1.
  rewrite Eraw.
  destruct (decide (n = n')) as [<-|Hne].
  - rewrite lookup_insert_eq in Hlook. injection Hlook as <-.
    repeat split; [destruct v; reflexivity..|exact Hraw].
  - rewrite lookup_insert_ne in Hlook by exact Hne.
    rewrite <- E1. exact (H1 Hst _ _ Hlook).
Qed.

Lemma builder_staysNamed fuel :
  (forall n tags, respects staysNamed (encodeItem' fuel n tags))
  /\ (forall n fields, respects staysNamed (parseASTStructType' fuel n fields))
  /\ (forall n tags x, respects staysNamed (parseASTFieldType' fuel n tags x)).
Proof.
  apply builder_respects;
    [apply staysNamed_refl|apply staysNamed_trans|apply staysNamed_register].
Qed.

Lemma encodeLoop_staysNamed fuel targets raw :
  respects staysNamed (encodeLoop' fuel targets raw).
Proof.
  apply encodeLoop_respects;
    [apply staysNamed_refl|apply staysNamed_trans|apply staysNamed_register].
Qed.

(** [generateIR] is [collect], which leaves the registry and the targets
    alone, and then the loop over [raw]. *)
Lemma generateIR_steps fuel st st' :
  generateIR' fuel st = Ok (tt, st') ->
  exists st1 results,
    collect st = Ok (tt, st1)
    /\ encodeLoop' fuel (env.targets st) (env.raw st1) st1 = Ok (tt, st')
    /\ env.objs st1 = env.objs st
    /\ env.raw st1 = map (mark (marked results)) (collected st)
    /\ env.raw st' = env.raw st1.
Proof.
  intros H. unfold generateIR, bind in H.
  pose proof (collect_spec st) as Hc.
  destruct (collect st) as [[[] st1]| | |] eqn:Hcol; try discriminate.
  destruct Hc as (results & ord & imps & _ & _ & ->).
  exists (env.set_imports imps
            (env.set_order ord
               (env.set_raw (map (mark (marked results)) (collected st)) st))),
    results.
  split; [reflexivity|]. split; [exact H|].
  split; [reflexivity|]. split; [reflexivity|].
  apply encodeLoop_staysNamed in H. exact (proj1 H).
Qed.

Lemma encodeLoop_registers fuel targets : forall raw st st',
  encodeLoop' fuel targets raw st = Ok (tt, st') ->
  forall item, In item raw -> astStruct.isRef item = false ->
  (targets = [] \/ In (astStruct.name item) targets) ->
  is_Some (env.objs st' !! astStruct.name item).
Proof.
  induction raw as [|obj rest IH]; intros st st' H item Hin Href Hvalid;
    [destruct Hin|].
  simpl in H.
  destruct Hin as [->|Hin].
  - assert (Hv : match targets with
                 | [] => true
                 | _ => contains (astStruct.name item) targets
                 end && negb (astStruct.isRef item) = true).
    { rewrite Href. simpl. rewrite andb_true_r.
      destruct targets as [|a l]; [reflexivity|].
      apply contains_In. destruct Hvalid as [Hnil|Hv]; [discriminate|exact Hv]. }
    rewrite Hv in H. unfold bind in H.
    destruct (encodeItem' fuel (astStruct.name item) "" st) as [[v st1]| | |] eqn:He;
      try discriminate.
    apply encodeItem_registers in He as (r & Hr & _).
    apply encodeLoop_grows in H as [Hsub _].
    exists r. exact (lookup_weaken _ _ _ _ Hr Hsub).
  - destruct (_ && _); [|exact (IH _ _ H item Hin Href Hvalid)].
    unfold bind in H.
    destruct (encodeItem' fuel (astStruct.name obj) "" st) as [[v st1]| | |];
      try discriminate.
    exact (IH _ _ H item Hin Href Hvalid).
Qed.

Lemma getRawItemByName_Some n raw item :
  getRawItemByName n raw = Some item -> In item raw /\ astStruct.name item = n.
Proof.
  induction raw as [|x rest IH]; simpl; [discriminate|].
  destruct (String.eqb_spec (astStruct.name x) n) as [E|Hne].
  - intros [= <-]. auto.
  - intros H. destruct (IH H). auto.
Qed.

Lemma name_mark P x : astStruct.name (mark P x) = astStruct.name x.
Proof. unfold mark. destruct (P _ _); reflexivity. Qed.

Lemma isRef_mark P x : astStruct.isRef (mark P x) = astStruct.isRef x.
Proof. unfold mark. destruct (P _ _); reflexivity. Qed.

Lemma generateIR_named fuel st st' :
  env.objs st = ∅ ->
  generateIR' fuel st = Ok (tt, st') ->
  forall n r, env.objs st' !! n = Some r ->
    name r = n /\ obj r = n
    /\ In n (map astStruct.name (allDecls st)).
Proof.
  intros Hempty H n r Hlook.
  destruct (generateIR_steps _ _ _ H) as (st1 & results & _ & Hloop & Hobjs & Hraw & Hraw').
  apply encodeLoop_staysNamed in Hloop as [_ Hnamed].
  assert (H1 : registryNamed st1).
  { intros n' r' Hl. rewrite Hobjs, Hempty in Hl. rewrite lookup_empty in Hl.
    discriminate. }
  destruct (Hnamed H1 _ _ Hlook) as (Hn & Ho & [item Hitem]).
  repeat split; [exact Hn|exact Ho|].
  apply getRawItemByName_Some in Hitem as [Hin <-].
  rewrite Hraw', Hraw in Hin.
  apply in_map_iff in Hin as (x & <- & Hx).
  rewrite name_mark.
  assert (Hk : In (key x) (map key (allDecls st))).
  { rewrite <- keys_collected. apply in_map, Hx. }
  apply in_map_iff in Hk as (y & Hy & Hiny).
  apply in_map_iff. exists y. split; [|exact Hiny].
  unfold key in Hy. congruence.
Qed.

Lemma generateIR_complete fuel st st' x :
  generateIR' fuel st = Ok (tt, st') ->
  In x (flat_map declsOf (map snd (env.files st))) ->
  (env.targets st = [] \/ In (astStruct.name x) (env.targets st)) ->
  is_Some (env.objs st' !! astStruct.name x).
Proof.
  intros H Hx Hvalid.
  destruct (generateIR_steps _ _ _ H) as (st1 & results & _ & Hloop & _ & Hraw & _).
  pose proof (encodeLoop_registers _ _ _ _ _ Hloop
                (mark (marked results) (astStruct.set_isRef false x))) as Hreg.
  rewrite name_mark in Hreg. apply Hreg.
  - rewrite Hraw. apply in_map. unfold collected. apply in_or_app. left.
    apply in_map, Hx.
  - rewrite isRef_mark. reflexivity.
  - exact Hvalid.
Qed.

Lemma generateIR_grows fuel st st' :
  generateIR' fuel st = Ok (tt, st') ->
  env.objs st ⊆ env.objs st'
  /\ env.source st' = env.source st /\ env.include st' = env.include st
  /\ env.files st' = env.files st /\ env.packName st' = env.packName st
  /\ env.targets st' = env.targets st
  /\ env.excludeTypeNames st' = env.excludeTypeNames st.
Proof.
  intros H. unfold generateIR, bind in H.
  pose proof (collect_spec st) as Hc.
  destruct (collect st) as [[[] st1]| | |] eqn:Hcol; try discriminate.
  destruct Hc as (results & ord & imps & _ & _ & ->).
  apply encodeLoop_grows in H as [Hsub ->].
  split; [exact Hsub|]. repeat split.
Qed.

Lemma generateIR_widths fuel st st' :
  registryWidths st ->
  generateIR' fuel st = Ok (tt, st') ->
  registryWidths st'.
Proof.
  intros Hst H.
  destruct (generateIR_steps _ _ _ H) as (st1 & results & _ & Hloop & Hobjs & _ & _).
  refine (proj1 (encodeLoop_widths _ _ _ _ _ _ _ _ _ _ Hloop)).
  intros n r Hl. rewrite Hobjs in Hl. exact (Hst _ _ Hl).
Qed.

End Registry.

(** ** Edge cases of [parseASTFieldType] *)

Section FieldEdges.

Variable Atoi : string -> option Z.
Variable ParseUint : string -> option Z.
Variable extractSSZDimensions : string -> Result (list SSZDimension).

Local Abbreviation encodeItem' := (encodeItem Atoi ParseUint extractSSZDimensions).
Local Abbreviation parseASTFieldType' :=
  (parseASTFieldType Atoi ParseUint extractSSZDimensions).

Lemma encodeItem_unknown fuel n tags st :
  env.objs st !! n = None ->
  getRawItemByName n (env.raw st) = None ->
  encodeItem' (S fuel) n tags st = Err (ErrCouldNotFind n).
Proof.
  intros Hobjs Hraw. simpl. unfold encodeItem_body. rewrite Hobjs, Hraw.
  reflexivity.
Qed.

Lemma parseASTFieldType_unknown fuel fname tags pkg n st :
  omitted tags = false ->
  env.objs st !! n = None ->
  getRawItemByName n (env.raw st) = None ->
  (~ In n basicTypeNames ->
   parseASTFieldType' (S (S fuel)) fname tags (ast.Ident n) st
   = Err (ErrTypeNotFound n))
  /\ parseASTFieldType' (S (S fuel)) fname tags (ast.StarExpr (ast.Ident n)) st
     = Err (ErrCouldNotFind n)
  /\ parseASTFieldType' (S (S fuel)) fname tags
       (ast.StarExpr (ast.SelectorExpr (ast.Ident pkg) n)) st
     = Err (ErrCouldNotFind n)
  /\ (n <> "Bitlist" -> strings.HasPrefix n "Bitvector" = false ->
      parseASTFieldType' (S (S fuel)) fname tags
        (ast.SelectorExpr (ast.Ident pkg) n) st
      = Err (ErrCouldNotFind n)).
Proof.
  intros Hom Hobjs Hraw.
  pose proof (encodeItem_unknown fuel n tags st Hobjs Hraw) as He.
  repeat split.
  - intros Hbasic. rewrite parseASTFieldType_S. unfold parseASTFieldType_body.
    rewrite Hom.
    assert (Hne : forall b, In b basicTypeNames -> String.eqb n b = false).
    { intros b Hb. apply String.eqb_neq. intros ->. exact (Hbasic Hb). }
    rewrite !Hne by (simpl; auto 6). rewrite He. reflexivity.
  - rewrite parseASTFieldType_S. unfold parseASTFieldType_body, bind.
    rewrite Hom, He. reflexivity.
  - rewrite parseASTFieldType_S. unfold parseASTFieldType_body, bind.
    rewrite Hom, He. reflexivity.
  - intros Hbl Hbv. rewrite parseASTFieldType_S.
    unfold parseASTFieldType_body, bind. rewrite Hom, Hbv.
    apply String.eqb_neq in Hbl. rewrite Hbl, He. reflexivity.
Qed.

(** One annotation for an array of arrays: the loop over [dims] ends
    before it reaches the inner array, whose node stays as allocated. *)
Lemma parseASTFieldType_short_dims fuel fname tags dim Len' Elt' st :
  omitted tags = false ->
  extractSSZDimensions tags = Ok [dim] ->
  parseASTFieldType' (S fuel) fname tags
    (ast.ArrayType None (ast.ArrayType Len' Elt')) st
  = Ok (Some (set_e (Some zeroValue) (applyDim dim zeroValue)), st).
Proof.
  intros Hom Hdims. rewrite parseASTFieldType_S.
  unfold parseASTFieldType_body. rewrite Hom, Hdims. reflexivity.
Qed.

Lemma isFixed_vector_of_undefined dim :
  IsVector dim = true -> IsList dim = false ->
  isFixed (set_e (Some zeroValue) (applyDim dim zeroValue)) = Panic.
Proof.
  intros Hv Hl. unfold applyDim. rewrite Hv, Hl. reflexivity.
Qed.

End FieldEdges.

(** ** Edge cases of [decodeASTStruct] and of the method check *)

Lemma check_Some list args : exists b, check (Some list) args = Ok b.
Proof. unfold check. destruct (negb _); eauto. Qed.

Lemma isSpecificFunc_panics f in_ out :
  isSpecificFunc f in_ out = Panic
  <-> match check (Some (ast.Params (ast.FuncTy f))) in_,
            ast.Results (ast.FuncTy f) with
      | Ok true, None => True
      | _, _ => False
      end.
Proof.
  unfold isSpecificFunc.
  destruct (check_Some (ast.Params (ast.FuncTy f)) in_) as [[|] ->].
  - destruct (ast.Results (ast.FuncTy f)) as [rs|].
    + destruct (check_Some rs out) as [b ->]. split; [discriminate|tauto].
    + simpl. split; [trivial|reflexivity].
  - split; [discriminate|tauto].
Qed.

Lemma isFuncDecl_panics f :
  isFuncDecl f = Panic
  <-> match expectedParams (ast.FuncName f) with
      | Some params =>
          match check (Some (ast.Params (ast.FuncTy f))) params,
                ast.Results (ast.FuncTy f) with
          | Ok true, None => True
          | _, _ => False
          end
      | None => False
      end.
Proof.
  unfold isFuncDecl, expectedParams.
  repeat (destruct (String.eqb (ast.FuncName f) _);
          [apply isSpecificFunc_panics|]).
  split; [discriminate|tauto].
Qed.

Lemma decodeFuncDecl_panics f :
  decodeFuncDecl f = Panic <-> unreadable (ast.FuncDeclD f) = true.
Proof.
  unfold decodeFuncDecl, unreadable.
  destruct (ast.Recv f) as [[|recv rest]|]; [tauto| |split; discriminate].
  destruct (ast.Type_ recv) as [ | |[T| | | | | | |]| | | | |];
    try (split; discriminate).
  assert (Hu : match expectedParams (ast.FuncName f) with
               | Some params =>
                   match check (Some (ast.Params (ast.FuncTy f))) params,
                         ast.Results (ast.FuncTy f) with
                   | Ok true, None => true
                   | _, _ => false
                   end
               | None => false
               end = true <-> isFuncDecl f = Panic).
  { rewrite isFuncDecl_panics.
    destruct (expectedParams _) as [ps|]; [|split; [discriminate|tauto]].
    destruct (check _ _) as [[|]| | |]; try (split; [discriminate|tauto]).
    destruct (ast.Results _); split; try discriminate; tauto. }
  rewrite Hu.
  destruct (isFuncDecl f) as [[|]| | |]; split; try discriminate; reflexivity.
Qed.

Lemma decodeDecls_panics pack : forall decls objs refs,
  decodeDecls pack decls objs refs = Panic <-> existsb unreadable decls = true.
Proof.
  induction decls as [|dec rest IH]; intros objs refs; simpl.
  - split; discriminate.
  - destruct dec as [specs|f|].
    + rewrite IH. reflexivity.
    + pose proof (decodeFuncDecl_panics f) as Hp.
      destruct (decodeFuncDecl f) as [[n|]| | |] eqn:Hf.
      * rewrite IH.
        destruct (unreadable (ast.FuncDeclD f)); [|reflexivity].
        discriminate (proj2 Hp eq_refl).
      * rewrite IH.
        destruct (unreadable (ast.FuncDeclD f)); [|reflexivity].
        discriminate (proj2 Hp eq_refl).
      * destruct (decodeFuncDecl_result f) as [E|[b E]]; congruence.
      * rewrite (proj1 Hp eq_refl). split; reflexivity.
      * destruct (decodeFuncDecl_result f) as [E|[b E]]; congruence.
    + rewrite IH. reflexivity.
Qed.

Lemma decodeDecls_result pack : forall decls objs refs,
  decodeDecls pack decls objs refs = Panic
  \/ exists r, decodeDecls pack decls objs refs = Ok r.
Proof.
  induction decls as [|dec rest IH]; intros objs refs; simpl; [eauto|].
  destruct dec as [specs|f|]; auto.
  destruct (decodeFuncDecl_result f) as [->|[[n|] ->]]; auto.
Qed.

Lemma decodeASTStruct_panics file :
  (decodeASTStruct file = Panic
   <-> existsb unreadable (ast.Decls file) = true)
  /\ (decodeASTStruct file = Panic \/ exists res, decodeASTStruct file = Ok res).
Proof.
  unfold decodeASTStruct.
  pose proof (decodeDecls_panics (ast.Name file) (ast.Decls file) [] ∅) as Hp.
  destruct (decodeDecls_result (ast.Name file) (ast.Decls file) [] ∅)
    as [E|[[objs refs] E]]; rewrite E in *.
  - split; [|left; reflexivity].
    split; [intros _; apply Hp; reflexivity|reflexivity].
  - split; [|right; eauto].
    rewrite <- Hp. split; discriminate.
Qed.

(** *** Methods on a type that no file declares *)

Lemma markImplFunc_found p n : forall raw raw',
  markImplFunc p n raw = Some raw' ->
  In (p, n) (map key raw) /\ map key raw' = map key raw.
Proof.
  induction raw as [|item rest IH]; intros raw' H; simpl in H; [discriminate|].
  destruct (String.eqb (astStruct.name item) n
            && String.eqb (astStruct.packName item) p) eqn:Hc.
  - injection H as <-. apply andb_prop in Hc as [Hc1 Hc2].
    apply String.eqb_eq in Hc1, Hc2. split; [|reflexivity].
    left. unfold key. congruence.
  - destruct (markImplFunc p n rest) as [rest'|] eqn:Hm; [|discriminate].
    injection H as <-. destruct (IH _ eq_refl) as [Hin Hk].
    split; [right; exact Hin|]. simpl. rewrite Hk. reflexivity.
Qed.

Lemma checkImplFunc_found pack : forall funcs st u st',
  checkImplFunc pack funcs st = Ok (u, st') ->
  map key (env.raw st') = map key (env.raw st)
  /\ forall n, In n funcs -> In (pack, n) (map key (env.raw st)).
Proof.
  induction funcs as [|n rest IH]; intros st u st' H; simpl in H.
  - injection H as _ <-. split; [reflexivity|]. intros n [].
  - destruct (markImplFunc pack n (env.raw st)) as [raw'|] eqn:Hm;
      [|discriminate].
    apply markImplFunc_found in Hm as [Hin Hk].
    apply IH in H as [Hk' Hall]. simpl in *.
    split; [congruence|].
    intros n' [<-|Hn']; [exact Hin|]. rewrite <- Hk. exact (Hall _ Hn').
Qed.

Lemma implLoop_found : forall results st u st',
  implLoop results st = Ok (u, st') ->
  forall res n, In res results -> In n (astResult.funcs res) ->
  In (astResult.packName res, n) (map key (env.raw st)).
Proof.
  induction results as [|res rest IH]; intros st u st' H res' n Hres Hn;
    [destruct Hres|].
  simpl in H. unfold bind in H.
  destruct (checkImplFunc _ _ st) as [[u1 st1]| | |] eqn:Hc; try discriminate.
  apply checkImplFunc_found in Hc as [Hk Hall].
  destruct Hres as [<-|Hres]; [exact (Hall _ Hn)|].
  rewrite <- Hk. exact (IH _ _ _ H _ _ Hres Hn).
Qed.

(** ** The imports *)

Lemma decodeASTImports_alias file i :
  In i (decodeASTImports file) -> astImport.alias i <> "_".
Proof.
  unfold decodeASTImports. intros H.
  apply in_flat_map in H as (spec & _ & H).
  destruct (ast.ImportName spec) as [n|].
  - revert H. destruct (String.eqb_spec n "_") as [E|Hne]; intros H;
      [destruct H|].
    destruct H as [<-|[]]. exact Hne.
  - destruct H as [<-|[]]. discriminate.
Qed.

Lemma knownImport_Ok i : forall known found b,
  knownImport i known found = Ok b ->
  (forall j, In j known -> astImport.path j = astImport.path i -> j = i)
  /\ b = found
         || existsb (fun j => String.eqb (astImport.path j) (astImport.path i)) known.
Proof.
  induction known as [|j rest IH]; intros found b H; simpl in H.
  - injection H as <-. split; [intros j []|]. rewrite orb_false_r. reflexivity.
  - simpl. destruct (String.eqb_spec (astImport.path j) (astImport.path i)) as [Hp|Hp].
    + destruct (String.eqb_spec (astImport.alias i) (astImport.alias j)) as [Ha|Ha];
        simpl in H; [|discriminate].
      apply IH in H as [Hall ->]. split.
      * intros j' [<-|Hj'] Hpj'; [|exact (Hall _ Hj' Hpj')].
        destruct j, i; simpl in *; congruence.
      * rewrite !orb_true_r. reflexivity.
    + apply IH in H as [Hall ->]. split; [|reflexivity].
      intros j' [<-|Hj'] Hpj'; [contradiction|exact (Hall _ Hj' Hpj')].
Qed.

Lemma NoDup_path_inj (l : list astImport.t) i j :
  NoDup (map astImport.path l) -> In i l -> In j l ->
  astImport.path i = astImport.path j -> i = j.
Proof.
  induction l as [|x l IH]; intros Hnd Hi Hj Hp; [destruct Hi|].
  simpl in Hnd. apply NoDup_cons in Hnd as [Hx Hnd].
  destruct Hi as [<-|Hi], Hj as [<-|Hj]; auto.
  - exfalso. apply Hx. rewrite Hp. apply list_elem_of_In, in_map, Hj.
  - exfalso. apply Hx. rewrite <- Hp. apply list_elem_of_In, in_map, Hi.
Qed.

Lemma addImports_imports : forall imports st u st',
  addImports imports st = Ok (u, st') ->
  NoDup (map astImport.path (env.imports st)) ->
  NoDup (map astImport.path (env.imports st'))
  /\ forall i, In i (env.imports st') <-> In i (env.imports st) \/ In i imports.
Proof.
  induction imports as [|i rest IH]; intros st u st' H Hnd; simpl in H.
  - injection H as _ <-. split; [exact Hnd|]. intros i. simpl. tauto.
  - destruct (knownImport i (env.imports st) false) as [[|]| | |] eqn:Hk;
      try discriminate.
    + apply knownImport_Ok in Hk as [Hsame Hb]. simpl in Hb. symmetry in Hb.
      apply existsb_exists in Hb as (j & Hj & Hp). apply String.eqb_eq in Hp.
      pose proof (Hsame j Hj Hp) as ->.
      destruct (IH _ _ _ H Hnd) as [Hnd' Hin]. split; [exact Hnd'|].
      intros x. rewrite Hin. simpl. split; [tauto|].
      intros [Hx|[<-|Hx]]; auto.
    + apply knownImport_Ok in Hk as [_ Hb]. simpl in Hb.
      assert (Hnd1 : NoDup (map astImport.path (env.imports st ++ [i]))).
      { rewrite map_app. apply NoDup_app. split; [exact Hnd|]. split.
        - intros p Hp Hp'. apply list_elem_of_singleton in Hp'. subst p.
          apply list_elem_of_In, in_map_iff in Hp as (j & Hpj & Hj).
          assert (Hex : existsb (fun j => String.eqb (astImport.path j)
                                            (astImport.path i)) (env.imports st)
                        = true).
          { apply existsb_exists. exists j. split; [exact Hj|].
            apply String.eqb_eq, Hpj. }
          congruence.
        - apply NoDup_singleton. }
      destruct (IH _ _ _ H Hnd1) as [Hnd' Hin]. split; [exact Hnd'|].
      intros x. rewrite Hin. simpl. rewrite in_app_iff. simpl. tauto.
Qed.

Lemma importsLoop_imports : forall files st u st',
  importsLoop files st = Ok (u, st') ->
  NoDup (map astImport.path (env.imports st)) ->
  NoDup (map astImport.path (env.imports st'))
  /\ forall i, In i (env.imports st')
               <-> In i (env.imports st)
                   \/ In i (flat_map decodeASTImports (map snd files)).
Proof.
  induction files as [|[fname file] rest IH]; intros st u st' H Hnd; simpl in H.
  - injection H as _ <-. split; [exact Hnd|]. intros i. simpl. tauto.
  - unfold bind in H.
    destruct (addImports (decodeASTImports file) st) as [[u1 st1]| | |] eqn:Ha;
      try discriminate.
    destruct (addImports_imports _ _ _ _ Ha Hnd) as [Hnd1 Hin1].
    destruct (IH _ _ _ H Hnd1) as [Hnd' Hin]. split; [exact Hnd'|].
    intros i. rewrite Hin, Hin1. simpl. rewrite in_app_iff. tauto.
Qed.

Lemma sourceLoop_order : forall files acc st rs st',
  sourceLoop files acc st = Ok (rs, st') ->
  env.order st'
  = foldl (fun m nf => <[fst nf := map astStruct.name (declsOf (snd nf))]> m)
      (env.order st) files.
Proof.
  induction files as [|[fname file] rest IH]; intros acc st rs st' H; simpl in H.
  - injection H as _ <-. reflexivity.
  - unfold bind, liftResult in H.
    destruct (decodeASTStruct file) as [res| | |] eqn:Hd; try discriminate.
    apply decodeASTStruct_spec in Hd as (Hobjs & _ & _).
    pose proof (addStructs_spec false (astResult.objs res) st) as Ha.
    destruct (addStructs (astResult.objs res) false st) as [[u st1]| | |];
      try discriminate.
    destruct Ha as [-> _].
    apply IH in H. rewrite H. simpl. rewrite Hobjs. reflexivity.
Qed.

Lemma foldl_insert_lookup {V} (f : ast.File -> V) :
  forall (files : list (string * ast.File)) (m : gmap string V),
  NoDup (map fst files) ->
  (forall fname file, In (fname, file) files ->
     foldl (fun m nf => <[fst nf := f (snd nf)]> m) m files !! fname
     = Some (f file))
  /\ (forall fname, ~ In fname (map fst files) ->
      foldl (fun m nf => <[fst nf := f (snd nf)]> m) m files !! fname
      = m !! fname).
Proof.
  induction files as [|[n0 f0] rest IH]; intros m Hnd; simpl.
  - split; [intros fname file []|reflexivity].
  - simpl in Hnd. apply NoDup_cons in Hnd as [Hn0 Hnd].
    destruct (IH (<[n0 := f f0]> m) Hnd) as [Hin Hout]. split.
    + intros fname file [[= <- <-]|Hrest].
      * rewrite Hout; [apply lookup_insert_eq|].
        intros Hx. apply Hn0, list_elem_of_In, Hx.
      * exact (Hin _ _ Hrest).
    + intros fname Hno. rewrite Hout by tauto.
      apply lookup_insert_ne. tauto.
Qed.

(** What [collect] leaves beside [raw]: the imports of the source files,
    each path once, and a declaration for every type that a file lists
    with four accepted methods. *)
Lemma collect_full st u st' :
  collect st = Ok (u, st') ->
  exists results,
    Forall2 (fun file res => decodeASTStruct file = Ok res) (allFiles st) results
    /\ (forall res n, In res results -> In n (astResult.funcs res) ->
        In (astResult.packName res, n) (map key (allDecls st)))
    /\ NoDup (map astImport.path (env.imports st'))
    /\ (forall i, In i (env.imports st')
                  <-> In i (flat_map decodeASTImports (map snd (env.files st))))
    /\ env.order st'
       = foldl (fun m nf => <[fst nf := map astStruct.name (declsOf (snd nf))]> m)
           ∅ (env.files st).
Proof.
  unfold collect, bind.
  set (st0 := env.set_imports [] (env.set_order ∅ (env.set_raw [] st))).
  pose proof (importsLoop_spec (env.files st0) st0) as Hi.
  destruct (importsLoop _ st0) as [[u0 st1]| | |] eqn:Hil; try discriminate.
  destruct (importsLoop_imports _ _ _ _ Hil) as [Hnd Hin]; [constructor|].
  destruct Hi as [imps ->].
  match goal with
  | |- context [sourceLoop ?f ?a ?s] => pose proof (sourceLoop_spec f a s) as Hs
  end.
  destruct (sourceLoop _ _ _) as [[rs st2]| | |] eqn:Hsl; try discriminate.
  apply sourceLoop_order in Hsl.
  destruct Hs as (results1 & ord & Hall1 & -> & -> & Hnd1).
  match goal with
  | |- context [includeLoop ?f ?a ?s] => pose proof (includeLoop_spec f a s) as Hs
  end.
  destruct (includeLoop _ _ _) as [[rs st3]| | |]; try discriminate.
  destruct Hs as (results2 & Hall2 & -> & -> & Hnd2).
  simpl in *.
  assert (Hndk : NoDup (map key (collected st))).
  { apply Hnd2, Hnd1. constructor. }
  match goal with
  | |- context [implLoop ?r ?s] =>
      pose proof (implLoop_spec r s) as Hm;
      pose proof (implLoop_found r s) as Hfound
  end.
  simpl in Hm. specialize (Hm Hndk).
  destruct (implLoop _ _) as [[u' st4]| | |]; try discriminate.
  intros [= <- <-]. subst st4.
  exists (results1 ++ results2)%list.
  split; [|split; [|split; [|split]]].
  - unfold allFiles. rewrite map_app. apply Forall2_app.
    + apply Forall2_map_snd. exact Hall1.
    + apply Forall2_map_snd. exact Hall2.
  - intros res n Hres Hn. rewrite <- keys_collected.
    exact (Hfound _ _ eq_refl res n Hres Hn).
  - exact Hnd.
  - intros i. rewrite (Hin i). simpl. tauto.
  - exact Hsl.
Qed.

Lemma Forall2_In_l {A B} (P : A -> B -> Prop) l k x :
  Forall2 P l k -> In x l -> exists y, In y k /\ P x y.
Proof.
  induction 1 as [|a b l k Hab _ IH]; intros Hin; [destruct Hin|].
  destruct Hin as [<-|Hin].
  - exists b. split; [left; reflexivity|exact Hab].
  - destruct (IH Hin) as (y & Hy & Hxy). exists y. split; [right; exact Hy|exact Hxy].
Qed.

Section ImportsOfGenerateIR.

Variable Atoi : string -> option Z.
Variable ParseUint : string -> option Z.
Variable extractSSZDimensions : string -> Result (list SSZDimension).

Local Abbreviation generateIR' := (generateIR Atoi ParseUint extractSSZDimensions).

Lemma generateIR_collect fuel st st' :
  generateIR' fuel st = Ok (tt, st') ->
  exists st1, collect st = Ok (tt, st1)
              /\ exists objs', st' = env.set_objs objs' st1.
Proof.
  intros H. unfold generateIR, bind in H.
  destruct (collect st) as [[[] st1]| | |] eqn:Hcol; try discriminate.
  exists st1. split; [reflexivity|].
  apply encodeLoop_frames in H. exact H.
Qed.

Lemma generateIR_collect_fails fuel st :
  ~ (exists u st1, collect st = Ok (u, st1)) ->
  generateIR' fuel st = Panic \/ exists err, generateIR' fuel st = Err err.
Proof.
  intros Hno. unfold generateIR, bind.
  pose proof (collect_spec st) as Hc.
  destruct (collect st) as [[u st1]| | |]; eauto.
  - exfalso. apply Hno. eauto.
  - destruct Hc.
Qed.

Lemma generateIR_imports fuel st st' :
  generateIR' fuel st = Ok (tt, st') ->
  NoDup (map astImport.path (env.imports st'))
  /\ forall i, In i (env.imports st')
               <-> In i (flat_map decodeASTImports (map snd (env.files st))).
Proof.
  intros H. apply generateIR_collect in H as (st1 & Hc & objs' & ->).
  apply collect_full in Hc as (results & _ & _ & Hnd & Hin & _).
  split; [exact Hnd|exact Hin].
Qed.

Lemma generateIR_order fuel st st' :
  generateIR' fuel st = Ok (tt, st') ->
  NoDup (map fst (env.files st)) ->
  (forall fname file, In (fname, file) (env.files st) ->
     env.order st' !! fname = Some (map astStruct.name (declsOf file)))
  /\ (forall fname, ~ In fname (map fst (env.files st)) ->
      env.order st' !! fname = None).
Proof.
  intros H Hnd. apply generateIR_collect in H as (st1 & Hc & objs' & ->).
  apply collect_full in Hc as (results & _ & _ & _ & _ & Hord).
  simpl. rewrite Hord.
  destruct (foldl_insert_lookup (fun file => map astStruct.name (declsOf file))
              (env.files st) ∅ Hnd) as [Hin Hout].
  split; [exact Hin|]. intros fname Hno. rewrite (Hout _ Hno). apply lookup_empty.
Qed.

Lemma generateIR_alias_clash fuel st i j :
  In i (flat_map decodeASTImports (map snd (env.files st))) ->
  In j (flat_map decodeASTImports (map snd (env.files st))) ->
  astImport.path i = astImport.path j ->
  astImport.alias i <> astImport.alias j ->
  generateIR' fuel st = Panic \/ exists err, generateIR' fuel st = Err err.
Proof.
  intros Hi Hj Hp Ha. apply generateIR_collect_fails.
  intros (u & st1 & Hc).
  apply collect_full in Hc as (results & _ & _ & Hnd & Hin & _).
  apply Hin in Hi, Hj.
  pose proof (NoDup_path_inj _ _ _ Hnd Hi Hj Hp) as E. subst j. contradiction.
Qed.

Lemma generateIR_methods_without_type fuel st file n :
  In file (allFiles st) ->
  acceptedMethods file n = 4%nat ->
  ~ In (ast.Name file, n) (map key (allDecls st)) ->
  generateIR' fuel st = Panic \/ exists err, generateIR' fuel st = Err err.
Proof.
  intros Hfile Hfour Hno. apply generateIR_collect_fails.
  intros (u & st1 & Hc).
  apply collect_full in Hc as (results & Hall & Hfound & _ & _ & _).
  apply Hno.
  destruct (Forall2_In_l _ _ _ _ Hall Hfile) as (res & Hres & Hdec).
  apply decodeASTStruct_spec in Hdec as (_ & Hpack & Hfuncs).
  rewrite <- Hpack. apply Hfound; [exact Hres|]. apply Hfuncs, Hfour.
Qed.

End ImportsOfGenerateIR.

(** ** The imports of the output *)

Lemma appendWithoutRepeated_spec : forall i s0,
  exists added,
    appendWithoutRepeated s0 i = (s0 ++ added)%list
    /\ NoDup added
    /\ forall x, In x added <-> In x i /\ ~ In x s0.
Proof.
  induction i as [|j rest IH]; intros s0; simpl.
  - exists []. rewrite app_nil_r. split; [reflexivity|].
    split; [constructor|]. intros x. simpl. tauto.
  - destruct (contains j s0) eqn:Hc.
    + apply contains_In in Hc.
      destruct (IH s0) as (added & -> & Hnd & Hin).
      exists added. split; [reflexivity|]. split; [exact Hnd|].
      intros x. rewrite Hin. split; [tauto|].
      intros [[<-|Hx] Hno]; [contradiction|tauto].
    + assert (Hj : ~ In j s0).
      { intros H. apply contains_In in H. congruence. }
      destruct (IH (s0 ++ [j])%list) as (added & -> & Hnd & Hin).
      exists (j :: added). split; [rewrite <- app_assoc; reflexivity|].
      split.
      * apply NoDup_cons. split; [|exact Hnd].
        intros H. apply list_elem_of_In, Hin in H as [_ H].
        apply H, in_or_app. right. left. reflexivity.
      * intros x. simpl. rewrite Hin, in_app_iff. simpl.
        destruct (String.eqb_spec j x) as [->|Hne]; [tauto|].
        split.
        -- intros [E|[Hx Hno]]; [contradiction|]. split; [tauto|]. tauto.
        -- intros [[E|Hx] Hno]; [contradiction|]. right. split; [exact Hx|].
           intros [H|[H|[]]]; [contradiction|contradiction].
Qed.

Lemma appendWithoutRepeated_NoDup s0 i :
  NoDup s0 -> NoDup (appendWithoutRepeated s0 i).
Proof.
  intros Hnd. destruct (appendWithoutRepeated_spec i s0) as (added & -> & Ha & Hin).
  apply NoDup_app. split; [exact Hnd|]. split; [|exact Ha].
  intros x Hx Hx'. apply list_elem_of_In in Hx, Hx'.
  apply Hin in Hx' as [_ Hno]. contradiction.
Qed.

Lemma appendWithoutRepeated_In s0 i x :
  In x (appendWithoutRepeated s0 i) <-> In x s0 \/ In x i.
Proof.
  destruct (appendWithoutRepeated_spec i s0) as (added & -> & _ & Hin).
  rewrite in_app_iff, Hin.
  destruct (in_dec string_dec x s0); tauto.
Qed.

Lemma elementMissing_eq i :
  elementMissing i
  = match t i with
    | TypeList | TypeVector =>
        match e i with
        | Some _ => false
        | None => true
        end
    | _ => false
    end.
Proof. unfold elementMissing. destruct (t i), (e i); reflexivity. Qed.

Lemma detectImports__cons i rest refs :
  detectImports_ (i :: rest) refs
  = if elementMissing i then Panic
    else detectImports_ rest
           (if String.eqb (importOf i) "" then refs
            else (refs ++ [importOf i])%list).
Proof.
  rewrite elementMissing_eq. unfold importOf. simpl.
  destruct (t i); try reflexivity.
  - destruct (e i); reflexivity.
  - destruct (e i); reflexivity.
  - destruct (noPtr i); reflexivity.
Qed.

Lemma detectImports__spec : forall fields refs,
  if existsb elementMissing fields
  then detectImports_ fields refs = Panic
  else detectImports_ fields refs
       = Ok (refs ++ List.filter (fun r => negb (String.eqb r ""))
                       (map importOf fields))%list.
Proof.
  induction fields as [|i rest IH]; intros refs.
  - simpl. rewrite app_nil_r. reflexivity.
  - rewrite detectImports__cons. cbn [existsb map List.filter].
    destruct (elementMissing i); [reflexivity|]. cbn [orb].
    specialize (IH (if String.eqb (importOf i) "" then refs
                    else (refs ++ [importOf i])%list)).
    destruct (existsb elementMissing rest); [exact IH|].
    rewrite IH. destruct (String.eqb (importOf i) ""); cbn [negb];
      [reflexivity|].
    rewrite <- app_assoc. reflexivity.
Qed.

Lemma detectImports_spec v :
  if existsb elementMissing (o v)
  then detectImports v = Panic
  else detectImports v
       = Ok (List.filter (fun r => negb (String.eqb r "")) (map importOf (o v))).
Proof. exact (detectImports__spec (o v) []). Qed.

Lemma detectImports_nonempty v refs :
  detectImports v = Ok refs -> Forall (fun r => r <> "") refs.
Proof.
  pose proof (detectImports_spec v) as H.
  destruct (existsb elementMissing (o v)); [congruence|].
  rewrite H. intros [= <-]. apply Forall_forall. intros r Hr.
  apply list_elem_of_In, filter_In in Hr as [_ Hr].
  apply negb_true_iff, String.eqb_neq in Hr. exact Hr.
Qed.

Section PrintImports.

Variable hashTreeRoot marshal unmarshal size getTree : string -> Value -> string.
Variable hashSource : env.t -> Result string.
Variable findImport : env.t -> string -> string.

Local Abbreviation printLoop' := (printLoop hashTreeRoot marshal unmarshal size getTree).

Lemma printLoop_imports st experimental : forall order objs imports objs' imports',
  printLoop' st experimental order objs imports = Ok (objs', imports') ->
  (NoDup imports -> NoDup imports')
  /\ (Forall (fun r => r <> "") imports -> Forall (fun r => r <> "") imports')
  /\ forall r, In r imports'
               <-> In r imports
                   \/ exists tyname obj rs,
                        selected st order tyname obj
                        /\ detectImports obj = Ok rs /\ In r rs.
Proof.
  induction order as [|tyname rest IH]; intros objs imports objs' imports' H;
    simpl in H.
  - injection H as _ <-. split; [auto|]. split; [auto|].
    intros r. split; [auto|]. intros [Hr|(n & ob & rs & [[] _] & _)]. exact Hr.
  - assert (Hskip : forall ob im,
              printLoop' st experimental rest ob im = Ok (objs', imports') ->
              (forall obj, ~ selected st [tyname] tyname obj) ->
              (NoDup im -> NoDup imports')
              /\ (Forall (fun r => r <> "") im -> Forall (fun r => r <> "") imports')
              /\ forall r, In r imports'
                 <-> In r im
                     \/ exists n obj rs,
                          selected st (tyname :: rest) n obj
                          /\ detectImports obj = Ok rs /\ In r rs).
    { intros ob im Hl Hnot. destruct (IH _ _ _ _ Hl) as (Hnd & Hne & Hin).
      split; [exact Hnd|]. split; [exact Hne|].
      intros r. rewrite Hin. split.
      - intros [Hr|(n & obj & rs & (Hn & Hex & Hob) & Hd & Hr)]; [auto|].
        right. exists n, obj, rs. repeat split; auto. right. exact Hn.
      - intros [Hr|(n & obj & rs & (Hn & Hex & Hob) & Hd & Hr)]; [auto|].
        destruct Hn as [<-|Hn].
        + exfalso. apply (Hnot obj). repeat split; auto. left. reflexivity.
        + right. exists n, obj, rs. repeat split; auto. }
    destruct (default false (env.excludeTypeNames st !! tyname)) eqn:Hex.
    { apply (Hskip _ _ H). intros obj (_ & Hex' & _). congruence. }
    destruct (env.objs st !! tyname) as [obj|] eqn:Hobj.
    2:{ apply (Hskip _ _ H). intros obj (_ & _ & Hob). congruence. }
    destruct (detectImports obj) as [refs| | |] eqn:Hd; try discriminate.
    assert (Hl : printLoop' st experimental rest
                   (if match isFixed obj with
                       | Ok fx => fx && isBasicType obj
                       | _ => false
                       end
                    then objs
                    else (objs ++ [mkObj (size tyname obj) (marshal tyname obj)
                                     (unmarshal tyname obj) (hashTreeRoot tyname obj)
                                     (if experimental then getTree tyname obj else "")])%list)
                   (appendWithoutRepeated imports refs) = Ok (objs', imports')).
    { destruct (isFixed obj) as [fx| | |]; try discriminate.
      destruct (fx && isBasicType obj); exact H. }
    clear H. destruct (IH _ _ _ _ Hl) as (Hnd & Hne & Hin).
    split; [|split].
    + intros Hi. apply Hnd, appendWithoutRepeated_NoDup, Hi.
    + intros Hi. apply Hne. apply Forall_forall. intros r Hr.
      apply list_elem_of_In, appendWithoutRepeated_In in Hr as [Hr|Hr].
      * rewrite Forall_forall in Hi. apply Hi, list_elem_of_In, Hr.
      * pose proof (detectImports_nonempty _ _ Hd) as Hn.
        rewrite Forall_forall in Hn. apply Hn, list_elem_of_In, Hr.
    + intros r. rewrite Hin, appendWithoutRepeated_In. split.
      * intros [[Hr|Hr]|(n & ob & rs & (Hn & Hex' & Hob) & Hd' & Hr)]; [auto| |].
        -- right. exists tyname, obj, refs. repeat split; auto. left. reflexivity.
        -- right. exists n, ob, rs. repeat split; auto. right. exact Hn.
      * intros [Hr|(n & ob & rs & (Hn & Hex' & Hob) & Hd' & Hr)]; [auto|].
        destruct Hn as [<-|Hn].
        -- left. right. congruence.
        -- right. exists n, ob, rs. repeat split; auto.
Qed.

Lemma print_imports st order experimental output :
  print hashTreeRoot marshal unmarshal size getTree hashSource findImport
    st order experimental = Ok (Some output) ->
  exists refs,
    out_imports output = buildImports findImport st refs
    /\ NoDup refs
    /\ Forall (fun r => r <> "") refs
    /\ forall r, In r refs
                 <-> exists tyname obj rs,
                       selected st order tyname obj
                       /\ detectImports obj = Ok rs /\ In r rs.
Proof.
  unfold print. destruct (hashSource st) as [hash| | |]; try discriminate.
  destruct (printLoop _ _ _ _ _ _ _ _ _ _) as [[objs imports]| | |] eqn:Hl;
    try discriminate.
  apply printLoop_imports in Hl as (Hnd & Hne & Hin).
  destruct objs as [|ob objs]; [discriminate|].
  intros [= <-]. exists imports. simpl.
  split; [reflexivity|]. split; [apply Hnd; constructor|].
  split; [apply Hne; constructor|].
  intros r. rewrite Hin. simpl. tauto.
Qed.

End PrintImports.

(** ** Resolution by name *)

Lemma getRawItemByName_app n l1 l2 :
  getRawItemByName n (l1 ++ l2)
  = match getRawItemByName n l1 with
    | Some x => Some x
    | None => getRawItemByName n l2
    end.
Proof.
  induction l1 as [|x l1 IH]; simpl; [reflexivity|].
  destruct (String.eqb (astStruct.name x) n); [reflexivity|exact IH].
Qed.

Lemma getRawItemByName_map f n l :
  (forall x, astStruct.name (f x) = astStruct.name x) ->
  getRawItemByName n (map f l) = option_map f (getRawItemByName n l).
Proof.
  intros Hf. induction l as [|x l IH]; simpl; [reflexivity|].
  rewrite Hf. destruct (String.eqb (astStruct.name x) n); [reflexivity|exact IH].
Qed.

Lemma getRawItemByName_In n l x :
  In x l -> astStruct.name x = n -> is_Some (getRawItemByName n l).
Proof.
  induction l as [|y l IH]; intros Hin Hn; [destruct Hin|]. simpl.
  destruct (String.eqb_spec (astStruct.name y) n) as [E|Hne]; [eauto|].
  destruct Hin as [->|Hin]; [contradiction|]. exact (IH Hin Hn).
Qed.

(** ** When [print] panics *)

Lemma isFixed_result v : isFixed v = Panic \/ exists b, isFixed v = Ok b.
Proof.
  induction v as [v IHo IHe] using Value_tree_ind.
  destruct (t v) eqn:Kt.
  - left. apply isFixed_undefined, Kt.
  - right. destruct v; simpl in *; subst. eauto.
  - right. destruct v; simpl in *; subst. eauto.
  - right. rewrite (isFixed_bytes v Kt). eauto.
  - right. destruct v; simpl in *; subst. eauto.
  - rewrite (isFixed_vector v Kt). destruct (e v) as [x|]; [|auto].
    exact (IHe x eq_refl).
  - right. destruct v; simpl in *; subst. eauto.
  - rewrite (isFixed_container v Kt).
    induction IHo as [|f rest Hf _ IH]; simpl; [eauto|].
    destruct Hf as [->|[[|] ->]]; eauto.
  - right. rewrite (isFixed_reference v Kt). eauto.
Qed.

Section PrintPanics.

Variable hashTreeRoot marshal unmarshal size getTree : string -> Value -> string.
Variable hashSource : env.t -> Result string.
Variable findImport : env.t -> string -> string.

Local Abbreviation printLoop' := (printLoop hashTreeRoot marshal unmarshal size getTree).

Lemma printLoop_panics st experimental : forall order objs imports,
  (printLoop' st experimental order objs imports = Panic
   <-> exists tyname obj,
         selected st order tyname obj
         /\ (existsb elementMissing (o obj) = true \/ isFixed obj = Panic))
  /\ (printLoop' st experimental order objs imports = Panic
      \/ exists r, printLoop' st experimental order objs imports = Ok r).
Proof.
  induction order as [|tyname rest IH]; intros objs imports; simpl.
  - split; [|eauto]. split; [discriminate|].
    intros (n & ob & ([] & _) & _).
  - assert (Hskip : forall ob im,
              (forall obj, ~ selected st [tyname] tyname obj) ->
              (printLoop' st experimental rest ob im = Panic
               <-> exists n obj,
                     selected st (tyname :: rest) n obj
                     /\ (existsb elementMissing (o obj) = true
                         \/ isFixed obj = Panic))).
    { intros ob im Hnot. rewrite (proj1 (IH ob im)). split.
      - intros (n & obj & (Hn & Hex & Hob) & Hbad).
        exists n, obj. repeat split; auto. right. exact Hn.
      - intros (n & obj & (Hn & Hex & Hob) & Hbad).
        destruct Hn as [<-|Hn].
        + exfalso. apply (Hnot obj). repeat split; auto. left. reflexivity.
        + exists n, obj. repeat split; auto. }
    destruct (default false (env.excludeTypeNames st !! tyname)) eqn:Hex.
    { split; [|apply IH]. apply Hskip. intros obj (_ & Hex' & _). congruence. }
    destruct (env.objs st !! tyname) as [obj|] eqn:Hobj.
    2:{ split; [|apply IH]. apply Hskip. intros obj (_ & _ & Hob). congruence. }
    assert (Hhere : selected st (tyname :: rest) tyname obj).
    { repeat split; auto. left. reflexivity. }
    pose proof (detectImports_spec obj) as Hd.
    destruct (existsb elementMissing (o obj)) eqn:Hmiss.
    { rewrite Hd. split; [|auto]. split; [intros _|reflexivity].
      exists tyname, obj. split; [exact Hhere|]. left. exact Hmiss. }
    rewrite Hd.
    destruct (isFixed_result obj) as [Hp|[fx Hfx]].
    { rewrite Hp. split; [|auto]. split; [intros _|reflexivity].
      exists tyname, obj. split; [exact Hhere|]. right. exact Hp. }
    rewrite Hfx.
    assert (Hrest : forall ob im,
              printLoop' st experimental rest ob im = Panic
              <-> exists n obj0,
                    selected st (tyname :: rest) n obj0
                    /\ (existsb elementMissing (o obj0) = true
                        \/ isFixed obj0 = Panic)).
    { intros ob im. rewrite (proj1 (IH ob im)). split.
      - intros (n & obj0 & (Hn & Hex0 & Hob0) & Hbad).
        exists n, obj0. repeat split; auto. right. exact Hn.
      - intros (n & obj0 & (Hn & Hex0 & Hob0) & Hbad).
        destruct Hn as [<-|Hn].
        + exfalso. assert (obj0 = obj) by congruence. subst obj0.
          destruct Hbad as [Hbad|Hbad]; congruence.
        + exists n, obj0. repeat split; auto. }
    destruct (fx && isBasicType obj); (split; [apply Hrest|apply IH]).
Qed.

Lemma print_panics st order experimental hash :
  hashSource st = Ok hash ->
  (print hashTreeRoot marshal unmarshal size getTree hashSource findImport
     st order experimental = Panic
   <-> exists tyname obj,
         selected st order tyname obj
         /\ (existsb elementMissing (o obj) = true \/ isFixed obj = Panic))
  /\ (print hashTreeRoot marshal unmarshal size getTree hashSource findImport
        st order experimental = Panic
      \/ exists out,
           print hashTreeRoot marshal unmarshal size getTree hashSource findImport
             st order experimental = Ok out).
Proof.
  intros Hh. unfold print. rewrite Hh.
  destruct (printLoop_panics st experimental order [] []) as [Hiff Hres].
  destruct Hres as [Hp|[[objs imports] Hok]].
  - rewrite Hp in *. split; [|auto].
    split; [intros _; apply Hiff; reflexivity|reflexivity].
  - rewrite Hok in *. split.
    + rewrite <- Hiff. destruct objs; split; discriminate.
    + right. destruct objs; eauto.
Qed.

End PrintPanics.

(** ** References to other packages *)

Section Qualified.

Variable Atoi : string -> option Z.
Variable ParseUint : string -> option Z.
Variable extractSSZDimensions : string -> Result (list SSZDimension).

Local Abbreviation encodeItem' := (encodeItem Atoi ParseUint extractSSZDimensions).
Local Abbreviation parseASTFieldType' :=
  (parseASTFieldType Atoi ParseUint extractSSZDimensions).

Lemma encodeItem_named fuel n tags st v st' :
  registryNamed st ->
  encodeItem' fuel n tags st = Ok (v, st') ->
  env.objs st' !! n = Some v /\ name v = n /\ obj v = n.
Proof.
  intros Hst H.
  pose proof (proj1 (builder_staysNamed Atoi ParseUint extractSSZDimensions fuel)
                n tags st v st' H) as [_ Hnamed].
  apply encodeItem_registers in H as (r & Hr & ->). rewrite copy_id.
  destruct (Hnamed Hst _ _ Hr) as (Hn & Ho & _). auto.
Qed.

Lemma objRef_set_ref pkg v :
  pkg <> "" -> objRef (set_ref pkg v) = pkg ++ "." ++ obj v.
Proof.
  intros Hp. unfold objRef. destruct v; simpl.
  apply String.eqb_neq in Hp. rewrite Hp. reflexivity.
Qed.

Lemma parseASTFieldType_qualified fuel fname tags pkg sel st :
  registryNamed st -> pkg <> "" ->
  (forall v st',
     parseASTFieldType' fuel fname tags
       (ast.StarExpr (ast.SelectorExpr (ast.Ident pkg) sel)) st = Ok (Some v, st') ->
     exists r, env.objs st' !! sel = Some r /\ v = set_ref pkg r
               /\ objRef v = pkg ++ "." ++ sel)
  /\ (forall v st',
        sel <> "Bitlist" -> strings.HasPrefix sel "Bitvector" = false ->
        parseASTFieldType' fuel fname tags
          (ast.SelectorExpr (ast.Ident pkg) sel) st = Ok (Some v, st') ->
        exists r, env.objs st' !! sel = Some r
                  /\ v = set_noPtr true (set_ref pkg r)
                  /\ objRef v = pkg ++ "." ++ sel).
Proof.
  intros Hst Hp. split.
  - intros v st' H. destruct fuel as [|k]; [discriminate|].
    rewrite parseASTFieldType_S in H. unfold parseASTFieldType_body in H.
    destruct (omitted tags); [discriminate|]. unfold bind, ret in H.
    destruct (encodeItem' k sel tags st) as [[vv st1]| | |] eqn:He;
      try discriminate.
    assert (v = set_ref pkg vv /\ st' = st1) as [-> ->] by (split; congruence).
    destruct (encodeItem_named _ _ _ _ _ _ Hst He) as (Hr & Hn & Ho).
    exists vv. split; [exact Hr|]. split; [reflexivity|].
    rewrite (objRef_set_ref pkg vv Hp), Ho. reflexivity.
  - intros v st' Hbl Hbv H. destruct fuel as [|k]; [discriminate|].
    rewrite parseASTFieldType_S in H. unfold parseASTFieldType_body in H.
    destruct (omitted tags); [discriminate|].
    apply String.eqb_neq in Hbl. rewrite Hbl, Hbv in H. unfold bind, ret in H.
    destruct (encodeItem' k sel tags st) as [[vv st1]| | |] eqn:He;
      try discriminate.
    assert (v = set_noPtr true (set_ref pkg vv) /\ st' = st1) as [-> ->]
      by (split; congruence).
    destruct (encodeItem_named _ _ _ _ _ _ Hst He) as (Hr & Hn & Ho).
    exists vv. split; [exact Hr|]. split; [reflexivity|].
    pose proof (objRef_set_ref pkg vv Hp) as E. rewrite Ho in E.
    rewrite <- E. destruct vv; reflexivity.
Qed.

Local Abbreviation generateIR' := (generateIR Atoi ParseUint extractSSZDimensions).

(** A name declared in a source file resolves to a declaration of the
    source path, also when an include path declares the name. *)
Lemma generateIR_source_first fuel st st' x :
  generateIR' fuel st = Ok (tt, st') ->
  In x (flat_map declsOf (map snd (env.files st))) ->
  exists item y,
    getRawItemByName (astStruct.name x) (env.raw st') = Some item
    /\ astStruct.isRef item = false
    /\ In y (flat_map declsOf (map snd (env.files st)))
    /\ key item = key y /\ astStruct.obj item = astStruct.obj y
    /\ astStruct.typ item = astStruct.typ y.
Proof.
  intros H Hx.
  destruct (generateIR_steps _ _ _ _ _ _ H)
    as (st1 & results & _ & _ & _ & Hraw & Hraw').
  rewrite Hraw', Hraw. unfold collected.
  rewrite getRawItemByName_map by apply name_mark.
  rewrite getRawItemByName_app.
  destruct (getRawItemByName_In (astStruct.name x)
              (map (astStruct.set_isRef false)
                 (flat_map declsOf (map snd (env.files st))))
              (astStruct.set_isRef false x)) as [z Hz];
    [apply in_map, Hx|reflexivity|].
  rewrite Hz. simpl.
  apply getRawItemByName_Some in Hz as [Hin _].
  apply in_map_iff in Hin as (y & <- & Hy).
  exists (mark (marked results) (astStruct.set_isRef false y)), y.
  split; [reflexivity|]. rewrite isRef_mark, key_mark, key_set_isRef.
  split; [reflexivity|]. split; [exact Hy|]. split; [reflexivity|].
  unfold mark. destruct (marked _ _ _); destruct y; split; reflexivity.
Qed.

End Qualified.

(** * Further properties, stated *)

(** X1.  [getTags] on the tag literal of a field, written as tags
    [key:"val"] separated by single spaces between back quotes, keys and
    values free of space, colon and quote bytes: the result is the value of
    the first tag whose key is [field], and there is no result when no tag
    has that key (in particular for the empty literal). *)
Theorem getTags_reads_first_tag tags field :
  Forall (fun kv => plainTag kv = true) tags ->
  getTags (tagLiteral tags) field = firstTag field tags.
Proof. apply getTags_tagLiteral. Qed.

Lemma getTags_reads_first_tag_witness :
  getTags (tagLiteral [("json", "slot"); ("ssz-size", "32")]) "ssz-size"
  = firstTag "ssz-size" [("json", "slot"); ("ssz-size", "32")].
Proof.
  apply (getTags_reads_first_tag [("json", "slot"); ("ssz-size", "32")] "ssz-size").
  repeat constructor.
Defined.

(** X2.  [getTags] gives up at the first piece that is not of the form
    [key:"val"] (no colon, as in a bare word or the empty piece between two
    spaces; more than one colon; a value not between double quotes): when
    the well-formed tags before that piece do not have the key, there is no
    result, whatever comes after the piece. *)
Theorem getTags_stops_at_malformed_piece tags bad more field :
  Forall (fun kv => plainTag kv = true) tags ->
  firstTag field tags = None ->
  wellFormedPiece bad = false ->
  strings.Contains bad " "%char = false ->
  strings.Contains bad "`"%char = false ->
  strings.Contains more "`"%char = false ->
  getTags ("`" ++ tagString tags ++ " " ++ bad ++ " " ++ more ++ "`") field
  = None.
Proof.
  intros Htags Hnone Hbad Hsp Hbq Hmore. unfold getTags.
  change ("`" ++ tagString tags ++ " " ++ bad ++ " " ++ more ++ "`")
    with (String "`"%char
            (tagString tags ++ String " "%char (bad ++ String " "%char (more ++ "`")))).
  replace (tagString tags ++ String " "%char (bad ++ String " "%char (more ++ "`")))
    with ((tagString tags ++ String " "%char (bad ++ String " "%char more))
          ++ String "`"%char "").
  2:{ rewrite append_assoc'.
      change (String " "%char (bad ++ String " "%char more) ++ String "`"%char "")
        with (String " "%char ((bad ++ String " "%char more) ++ String "`"%char "")).
      rewrite append_assoc'. reflexivity. }
  rewrite Trim_between.
  2:{ rewrite Contains_app, (tagString_backquote tags Htags). simpl.
      rewrite Contains_app, Hbq. simpl. exact Hmore. }
  rewrite Split_app, Split_app, (Split_none bad _ Hsp).
  destruct tags as [|kv tags'].
  - simpl. reflexivity.
  - rewrite tagString_Split by (auto; discriminate).
    rewrite (getTagsLoop_pieces _ _ field Htags), Hnone.
    apply getTagsLoop_malformed, Hbad.
Qed.

Lemma getTags_stops_at_malformed_piece_witness :
  getTags ("`" ++ tagString [("json", "slot")] ++ " " ++ "" ++ " "
           ++ tagPiece ("ssz-size", "32") ++ "`") "ssz-size" = None.
Proof.
  apply (getTags_stops_at_malformed_piece [("json", "slot")] ""
           (tagPiece ("ssz-size", "32")) "ssz-size");
    try reflexivity.
  repeat constructor.
Defined.

(** X3.  [isFixed] returns [true] exactly when no node it may look at
    below the node (the node itself, the fields of a container, the
    element of a vector, and so on) is variable-size by itself or
    unclassifiable: no list, no bitlist, no bytes without the [fixed] flag,
    no reference without a bound width, no node of undefined kind, and no
    vector without an element. *)
Theorem isFixed_true_iff_all_settled (v : Value) :
  isFixed v = Ok true <-> Forall settled (visited v).
Proof. apply isFixed_true_visited. Qed.

(** X4.  When [isFixed] returns [false], some node it may look at below the
    node is variable-size by itself: a list, a bitlist, bytes without the
    [fixed] flag, or a reference without a bound width. *)
Theorem isFixed_false_has_variable_leaf (v : Value) :
  isFixed v = Ok false ->
  Exists (fun w => variableLeaf w = true) (visited v).
Proof. apply isFixed_false_visited. Qed.

Lemma isFixed_false_has_variable_leaf_witness :
  Exists (fun w => variableLeaf w = true) (visited Example.withList).
Proof.
  apply (isFixed_false_has_variable_leaf Example.withList). reflexivity.
Defined.

(** X5.  A successful call of [encodeItem], [parseASTStructType] or
    [parseASTFieldType] changes nothing of the environment but the
    registry, and every entry the registry had before the call is still
    there, with the same node. *)
Theorem builder_only_adds_entries
  (Atoi ParseUint : string -> option Z)
  (extractSSZDimensions : string -> Result (list SSZDimension)) (fuel : nat) :
  (forall n tags st v st',
     encodeItem Atoi ParseUint extractSSZDimensions fuel n tags st = Ok (v, st') ->
     grows st st')
  /\ (forall n fields st v st',
        parseASTStructType Atoi ParseUint extractSSZDimensions fuel n fields st
        = Ok (v, st') ->
        grows st st')
  /\ (forall n tags x st r st',
        parseASTFieldType Atoi ParseUint extractSSZDimensions fuel n tags x st
        = Ok (r, st') ->
        grows st st').
Proof.
  destruct (builder_grows Atoi ParseUint extractSSZDimensions fuel)
    as (He & Hs & Hf).
  split; [|split].
  - intros n tags st v st' H. exact (He n tags st v st' H).
  - intros n fields st v st' H. exact (Hs n fields st v st' H).
  - intros n tags x st r st' H. exact (Hf n tags x st r st' H).
Qed.

Lemma builder_only_adds_entries_witness :
  grows Sample.envSigRaw Sample.envSig.
Proof.
  apply (proj1 (builder_only_adds_entries Sample.Atoi Sample.ParseUint
                  Sample.extractSSZDimensions 1)
           "Sig" "" Sample.envSigRaw Sample.sigNode Sample.envSig).
  vm_compute. reflexivity.
Defined.

(** X6.  A successful [generateIR] keeps every entry the registry had
    before, and leaves [source], [include], [files], [packName], [targets]
    and [excludeTypeNames] as they were. *)
Theorem generateIR_keeps_inputs
  (Atoi ParseUint : string -> option Z)
  (extractSSZDimensions : string -> Result (list SSZDimension))
  (fuel : nat) (st st' : env.t) :
  generateIR Atoi ParseUint extractSSZDimensions fuel st = Ok (tt, st') ->
  env.objs st ⊆ env.objs st'
  /\ env.source st' = env.source st /\ env.include st' = env.include st
  /\ env.files st' = env.files st /\ env.packName st' = env.packName st
  /\ env.targets st' = env.targets st
  /\ env.excludeTypeNames st' = env.excludeTypeNames st.
Proof. apply generateIR_grows. Qed.

Lemma generateIR_keeps_inputs_witness :
  env.objs Sample.envMethodsApart ⊆ env.objs Sample.envMethodsApart'
  /\ env.source Sample.envMethodsApart' = env.source Sample.envMethodsApart
  /\ env.include Sample.envMethodsApart' = env.include Sample.envMethodsApart
  /\ env.files Sample.envMethodsApart' = env.files Sample.envMethodsApart
  /\ env.packName Sample.envMethodsApart' = env.packName Sample.envMethodsApart
  /\ env.targets Sample.envMethodsApart' = env.targets Sample.envMethodsApart
  /\ env.excludeTypeNames Sample.envMethodsApart'
     = env.excludeTypeNames Sample.envMethodsApart.
Proof.
  apply (generateIR_keeps_inputs Sample.Atoi Sample.ParseUint
           Sample.extractSSZDimensions 1 Sample.envMethodsApart
           Sample.envMethodsApart').
  vm_compute. reflexivity.
Defined.

(** X7.  After a successful [generateIR] that started from an empty
    registry, every entry of the registry is filed under the name its node
    carries in [name] and in [obj], and that name is the name of a type
    declared in one of the files. *)
Theorem generateIR_registry_named
  (Atoi ParseUint : string -> option Z)
  (extractSSZDimensions : string -> Result (list SSZDimension))
  (fuel : nat) (st st' : env.t) (n : string) (r : Value) :
  env.objs st = ∅ ->
  generateIR Atoi ParseUint extractSSZDimensions fuel st = Ok (tt, st') ->
  env.objs st' !! n = Some r ->
  name r = n /\ obj r = n /\ In n (map astStruct.name (allDecls st)).
Proof. intros He H. exact (generateIR_named _ _ _ _ _ _ He H n r). Qed.

Lemma generateIR_registry_named_witness :
  name Sample.refT = "T" /\ obj Sample.refT = "T"
  /\ In "T" (map astStruct.name (allDecls Sample.envMethodsApart)).
Proof.
  apply (generateIR_registry_named Sample.Atoi Sample.ParseUint
           Sample.extractSSZDimensions 1 Sample.envMethodsApart
           Sample.envMethodsApart' "T" Sample.refT).
  - reflexivity.
  - vm_compute. reflexivity.
  - vm_compute. reflexivity.
Defined.

(** X8.  After a successful [generateIR], every type declared in a file of
    the source path is in the registry, when there are no targets or the
    type is one of the targets. *)
Theorem generateIR_registers_source_types
  (Atoi ParseUint : string -> option Z)
  (extractSSZDimensions : string -> Result (list SSZDimension))
  (fuel : nat) (st st' : env.t) (x : astStruct.t) :
  generateIR Atoi ParseUint extractSSZDimensions fuel st = Ok (tt, st') ->
  In x (flat_map declsOf (map snd (env.files st))) ->
  (env.targets st = [] \/ In (astStruct.name x) (env.targets st)) ->
  is_Some (env.objs st' !! astStruct.name x).
Proof. apply generateIR_complete. Qed.

Lemma generateIR_registers_source_types_witness :
  is_Some (env.objs Sample.envMethodsApart' !! astStruct.name Example.declT).
Proof.
  apply (generateIR_registers_source_types Sample.Atoi Sample.ParseUint
           Sample.extractSSZDimensions 1 Sample.envMethodsApart
           Sample.envMethodsApart' Example.declT).
  - vm_compute. reflexivity.
  - vm_compute. left. reflexivity.
  - left. reflexivity.
Defined.

(** X9.  After a successful [generateIR] that started from an empty
    registry, [uintVToName] returns one of its four names, without a
    panic, on every node of kind uint anywhere in the registry: the builder
    gives a uint node the width 1, 2, 4 or 8 only. *)
Theorem uintVToName_names_every_uint_node
  (Atoi ParseUint : string -> option Z)
  (extractSSZDimensions : string -> Result (list SSZDimension))
  (fuel : nat) (st st' : env.t) (n : string) (r w : Value) :
  env.objs st = ∅ ->
  generateIR Atoi ParseUint extractSSZDimensions fuel st = Ok (tt, st') ->
  env.objs st' !! n = Some r ->
  In w (nodes r) ->
  t w = TypeUint ->
  exists nm, uintVToName w = Ok nm
             /\ In nm ["Uint64"; "Uint32"; "Uint16"; "Uint8"].
Proof.
  intros He H Hr Hw Ht.
  assert (Hst : registryWidths st).
  { intros n' r' Hl. rewrite He, lookup_empty in Hl. discriminate. }
  pose proof (generateIR_widths _ _ _ _ _ _ Hst H n r Hr) as Hok.
  unfold widthsOK in Hok. rewrite forallb_forall in Hok.
  apply uintVToName_returns; [apply Hok, Hw|exact Ht].
Qed.

Lemma uintVToName_names_every_uint_node_witness :
  exists nm, uintVToName Example.slotNode = Ok nm
             /\ In nm ["Uint64"; "Uint32"; "Uint16"; "Uint8"].
Proof.
  eapply (uintVToName_names_every_uint_node Sample.Atoi Sample.ParseUint
            Sample.extractSSZDimensions 3 Example.envPlain _ "T" _
            Example.slotNode).
  - reflexivity.
  - vm_compute. reflexivity.
  - vm_compute. reflexivity.
  - vm_compute. right. left. reflexivity.
  - reflexivity.
Defined.

(** X11.  A name that is neither in the registry nor declared is an error:
    [encodeItem] returns the error that it could not find the name, and so
    does [parseASTFieldType] for a field that is not omitted and has the
    type [*T] or [*pkg.T], or [pkg.T] when [T] is not [Bitlist] and does not
    begin with [Bitvector]; for a field of type [T] it returns the error
    that the type was not found, unless [T] is one of the scalar type
    names. *)
Theorem unresolved_type_is_an_error
  (Atoi ParseUint : string -> option Z)
  (extractSSZDimensions : string -> Result (list SSZDimension))
  (fuel : nat) (fname tags pkg n : string) (st : env.t) :
  omitted tags = false ->
  env.objs st !! n = None ->
  getRawItemByName n (env.raw st) = None ->
  encodeItem Atoi ParseUint extractSSZDimensions (S fuel) n tags st
  = Err (ErrCouldNotFind n)
  /\ (~ In n basicTypeNames ->
      parseASTFieldType Atoi ParseUint extractSSZDimensions (S (S fuel))
        fname tags (ast.Ident n) st
      = Err (ErrTypeNotFound n))
  /\ parseASTFieldType Atoi ParseUint extractSSZDimensions (S (S fuel))
       fname tags (ast.StarExpr (ast.Ident n)) st
     = Err (ErrCouldNotFind n)
  /\ parseASTFieldType Atoi ParseUint extractSSZDimensions (S (S fuel))
       fname tags (ast.StarExpr (ast.SelectorExpr (ast.Ident pkg) n)) st
     = Err (ErrCouldNotFind n)
  /\ (n <> "Bitlist" -> strings.HasPrefix n "Bitvector" = false ->
      parseASTFieldType Atoi ParseUint extractSSZDimensions (S (S fuel))
        fname tags (ast.SelectorExpr (ast.Ident pkg) n) st
      = Err (ErrCouldNotFind n)).
Proof.
  intros Hom Hobjs Hraw. split.
  - apply encodeItem_unknown; assumption.
  - apply parseASTFieldType_unknown; assumption.
Qed.

Lemma unresolved_type_is_an_error_witness :
  Sample.encodeItem 1 "Missing" "" (Sample.envOf [] []) = Err (ErrCouldNotFind "Missing")
  /\ (~ In "Missing" basicTypeNames ->
      Sample.parseASTFieldType 2 "Field" "" (ast.Ident "Missing") (Sample.envOf [] [])
      = Err (ErrTypeNotFound "Missing"))
  /\ Sample.parseASTFieldType 2 "Field" "" (ast.StarExpr (ast.Ident "Missing"))
       (Sample.envOf [] [])
     = Err (ErrCouldNotFind "Missing")
  /\ Sample.parseASTFieldType 2 "Field" ""
       (ast.StarExpr (ast.SelectorExpr (ast.Ident "ext") "Missing"))
       (Sample.envOf [] [])
     = Err (ErrCouldNotFind "Missing")
  /\ ("Missing" <> "Bitlist" -> strings.HasPrefix "Missing" "Bitvector" = false ->
      Sample.parseASTFieldType 2 "Field" ""
        (ast.SelectorExpr (ast.Ident "ext") "Missing") (Sample.envOf [] [])
      = Err (ErrCouldNotFind "Missing")).
Proof.
  apply (unresolved_type_is_an_error Sample.Atoi Sample.ParseUint
           Sample.extractSSZDimensions 0 "Field" "" "ext" "Missing"
           (Sample.envOf [] [])).
  - reflexivity.
  - reflexivity.
  - reflexivity.
Defined.

(** X12.  A slice of arrays with a single annotation is built without an
    error: the loop over the annotations ends before it reaches the inner
    array, whose node is left with the undefined kind; when the annotation
    is a vector length, [isFixed] panics on the node that was built. *)
Theorem short_annotation_leaves_undefined_element
  (Atoi ParseUint : string -> option Z)
  (extractSSZDimensions : string -> Result (list SSZDimension))
  (fuel : nat) (fname tags : string) (dim : SSZDimension)
  (Len' : option ast.Expr) (Elt' : ast.Expr) (st : env.t) :
  omitted tags = false ->
  extractSSZDimensions tags = Ok [dim] ->
  parseASTFieldType Atoi ParseUint extractSSZDimensions (S fuel) fname tags
    (ast.ArrayType None (ast.ArrayType Len' Elt')) st
  = Ok (Some (set_e (Some zeroValue) (applyDim dim zeroValue)), st)
  /\ t zeroValue = TypeUndefined
  /\ (IsVector dim = true -> IsList dim = false ->
      isFixed (set_e (Some zeroValue) (applyDim dim zeroValue)) = Panic).
Proof.
  intros Hom Hdims. split; [|split].
  - apply parseASTFieldType_short_dims; assumption.
  - reflexivity.
  - apply isFixed_vector_of_undefined.
Qed.

Lemma short_annotation_leaves_undefined_element_witness :
  Sample.parseASTFieldType 1 "Roots" Sample.tagSize32 Sample.byteSlices
    (Sample.envOf [] [])
  = Ok (Some (set_e (Some zeroValue)
                (applyDim (mkDim (Some 32) None false) zeroValue)),
        Sample.envOf [] [])
  /\ t zeroValue = TypeUndefined
  /\ (IsVector (mkDim (Some 32) None false) = true ->
      IsList (mkDim (Some 32) None false) = false ->
      isFixed (set_e (Some zeroValue)
                 (applyDim (mkDim (Some 32) None false) zeroValue)) = Panic).
Proof.
  apply (short_annotation_leaves_undefined_element Sample.Atoi Sample.ParseUint
           Sample.extractSSZDimensions 0 "Roots" Sample.tagSize32
           (mkDim (Some 32) None false) None (ast.Ident "byte")
           (Sample.envOf [] [])).
  - vm_compute. reflexivity.
  - vm_compute. reflexivity.
Defined.

(** X13.  [decodeASTStruct] panics exactly when the file holds an
    unreadable method: a method on a pointer to a named type that has one
    of the four names and the parameters expected for it but no result
    list (or a declaration with an empty receiver list).  In every other
    case it returns its result. *)
Theorem decodeASTStruct_panics_iff_unreadable (file : ast.File) :
  (decodeASTStruct file = Panic
   <-> existsb unreadable (ast.Decls file) = true)
  /\ (decodeASTStruct file = Panic \/ exists res, decodeASTStruct file = Ok res).
Proof. apply decodeASTStruct_panics. Qed.

(** X14.  When a file holds four accepted methods on a type that no file
    declares in the package of that file, [generateIR] fails. *)
Theorem generateIR_fails_on_methods_without_type
  (Atoi ParseUint : string -> option Z)
  (extractSSZDimensions : string -> Result (list SSZDimension))
  (fuel : nat) (st : env.t) (file : ast.File) (n : string) :
  In file (allFiles st) ->
  acceptedMethods file n = 4%nat ->
  ~ In (ast.Name file, n) (map key (allDecls st)) ->
  generateIR Atoi ParseUint extractSSZDimensions fuel st = Panic
  \/ exists err, generateIR Atoi ParseUint extractSSZDimensions fuel st = Err err.
Proof. apply generateIR_methods_without_type. Qed.

Lemma generateIR_fails_on_methods_without_type_witness :
  Sample.generateIR 1 Example.envOnlyMethods = Panic
  \/ exists err, Sample.generateIR 1 Example.envOnlyMethods = Err err.
Proof.
  apply (generateIR_fails_on_methods_without_type Sample.Atoi Sample.ParseUint
           Sample.extractSSZDimensions 1 Example.envOnlyMethods Sample.fileB "T").
  - vm_compute. left. reflexivity.
  - vm_compute. reflexivity.
  - vm_compute. intros [].
Defined.

(** X15.  After a successful [generateIR], [imports] holds exactly the
    imports of the files of the source path (imports under the blank name
    [_] left out), each path once. *)
Theorem generateIR_imports_each_path_once
  (Atoi ParseUint : string -> option Z)
  (extractSSZDimensions : string -> Result (list SSZDimension))
  (fuel : nat) (st st' : env.t) :
  generateIR Atoi ParseUint extractSSZDimensions fuel st = Ok (tt, st') ->
  NoDup (map astImport.path (env.imports st'))
  /\ (forall i, In i (env.imports st')
                <-> In i (flat_map decodeASTImports (map snd (env.files st))))
  /\ forall i, In i (env.imports st') -> astImport.alias i <> "_".
Proof.
  intros H.
  destruct (generateIR_imports _ _ _ _ _ _ H) as [Hnd Hin].
  split; [exact Hnd|]. split; [exact Hin|].
  intros i Hi. apply Hin, in_flat_map in Hi as (file & _ & Hi).
  exact (decodeASTImports_alias _ _ Hi).
Qed.

Lemma generateIR_imports_each_path_once_witness :
  exists st',
    Sample.generateIR 1 Example.envImports = Ok (tt, st')
    /\ NoDup (map astImport.path (env.imports st'))
    /\ (forall i, In i (env.imports st')
                  <-> In i (flat_map decodeASTImports
                              (map snd (env.files Example.envImports))))
    /\ forall i, In i (env.imports st') -> astImport.alias i <> "_".
Proof.
  eexists. split; [vm_compute; reflexivity|].
  apply (generateIR_imports_each_path_once Sample.Atoi Sample.ParseUint
           Sample.extractSSZDimensions 1 Example.envImports).
  vm_compute. reflexivity.
Defined.

(** X16.  When two files of the source path import the same path under
    different names, [generateIR] fails. *)
Theorem generateIR_fails_on_alias_clash
  (Atoi ParseUint : string -> option Z)
  (extractSSZDimensions : string -> Result (list SSZDimension))
  (fuel : nat) (st : env.t) (i j : astImport.t) :
  In i (flat_map decodeASTImports (map snd (env.files st))) ->
  In j (flat_map decodeASTImports (map snd (env.files st))) ->
  astImport.path i = astImport.path j ->
  astImport.alias i <> astImport.alias j ->
  generateIR Atoi ParseUint extractSSZDimensions fuel st = Panic
  \/ exists err, generateIR Atoi ParseUint extractSSZDimensions fuel st = Err err.
Proof. apply generateIR_alias_clash. Qed.

Lemma generateIR_fails_on_alias_clash_witness :
  Sample.generateIR 1 Example.envAliasClash = Panic
  \/ exists err, Sample.generateIR 1 Example.envAliasClash = Err err.
Proof.
  apply (generateIR_fails_on_alias_clash Sample.Atoi Sample.ParseUint
           Sample.extractSSZDimensions 1 Example.envAliasClash
           (astImport.mk "ext" "github.com/x/external")
           (astImport.mk "other" "github.com/x/external")).
  - vm_compute. right. left. reflexivity.
  - vm_compute. right. right. left. reflexivity.
  - reflexivity.
  - discriminate.
Defined.

(** X18.  [detectImports] panics exactly when a field of the container is
    a list or a vector without an element node; otherwise it returns, in
    field order, the package of each field that has one, and never the
    empty string. *)
Theorem detectImports_packages_of_fields (v : Value) :
  (if existsb elementMissing (o v)
   then detectImports v = Panic
   else detectImports v
        = Ok (List.filter (fun r => negb (String.eqb r "")) (map importOf (o v))))
  /\ forall refs, detectImports v = Ok refs -> Forall (fun r => r <> "") refs.
Proof.
  split; [apply detectImports_spec|apply detectImports_nonempty].
Qed.

(** X19.  The imports of the output of [print] are [buildImports] of a
    list of package names without duplicates and without the empty string:
    the packages [detectImports] finds in the types of [order] that are
    not excluded and are in the registry. *)
Theorem print_imports_each_package_once
  (hashTreeRoot marshal unmarshal size getTree : string -> Value -> string)
  (hashSource : env.t -> Result string) (findImport : env.t -> string -> string)
  (st : env.t) (order : list string) (experimental : bool) (output : Output) :
  print hashTreeRoot marshal unmarshal size getTree hashSource findImport
    st order experimental = Ok (Some output) ->
  exists refs,
    out_imports output = buildImports findImport st refs
    /\ NoDup refs
    /\ Forall (fun r => r <> "") refs
    /\ forall r, In r refs
                 <-> exists tyname obj rs,
                       selected st order tyname obj
                       /\ detectImports obj = Ok rs /\ In r rs.
Proof. apply print_imports. Qed.

Lemma print_imports_each_package_once_witness :
  exists refs,
    ["ext"; "other"] = buildImports (fun _ i => i) Example.envRefs refs
    /\ NoDup refs
    /\ Forall (fun r => r <> "") refs
    /\ forall r, In r refs
                 <-> exists tyname obj rs,
                       selected Example.envRefs ["A"] tyname obj
                       /\ detectImports obj = Ok rs /\ In r rs.
Proof.
  apply (print_imports_each_package_once (Sample.gen "hashTreeRoot")
           (Sample.gen "marshal") (Sample.gen "unmarshal") (Sample.gen "size")
           (Sample.gen "getTree") (fun _ => Ok "hash") (fun _ i => i)
           Example.envRefs ["A"] false
           (mkOutput "p" "hash" ["ext"; "other"] [Sample.procedures "A"])).
  vm_compute. reflexivity.
Defined.

(** X20.  With the hash of the source at hand, [print] panics exactly when
    some type of [order] that is not excluded and is in the registry has a
    list or vector field without an element node, or makes [isFixed]
    panic; in every other case it returns its result. *)
Theorem print_panics_iff_unclassifiable
  (hashTreeRoot marshal unmarshal size getTree : string -> Value -> string)
  (hashSource : env.t -> Result string) (findImport : env.t -> string -> string)
  (st : env.t) (order : list string) (experimental : bool) (hash : string) :
  hashSource st = Ok hash ->
  (print hashTreeRoot marshal unmarshal size getTree hashSource findImport
     st order experimental = Panic
   <-> exists tyname obj,
         selected st order tyname obj
         /\ (existsb elementMissing (o obj) = true \/ isFixed obj = Panic))
  /\ (print hashTreeRoot marshal unmarshal size getTree hashSource findImport
        st order experimental = Panic
      \/ exists out,
           print hashTreeRoot marshal unmarshal size getTree hashSource findImport
             st order experimental = Ok out).
Proof. apply print_panics. Qed.

Lemma print_panics_iff_unclassifiable_witness :
  Sample.print Example.envUndefined ["A"] false = Panic.
Proof.
  apply (proj2 (proj1 (print_panics_iff_unclassifiable (Sample.gen "hashTreeRoot")
                         (Sample.gen "marshal") (Sample.gen "unmarshal")
                         (Sample.gen "size") (Sample.gen "getTree")
                         (fun _ => Ok "hash") (fun _ i => i)
                         Example.envUndefined ["A"] false "hash" eq_refl))).
  exists "A", Example.withUndefined. split.
  - split; [left; reflexivity|]. split; vm_compute; reflexivity.
  - right. reflexivity.
Defined.

(** X21.  After a successful [generateIR], a name that a file of the
    source path declares resolves, by [getRawItemByName], to a declaration
    of the source path (not marked [isRef]), also when a file of an include
    path declares the same name. *)
Theorem source_declaration_found_first
  (Atoi ParseUint : string -> option Z)
  (extractSSZDimensions : string -> Result (list SSZDimension))
  (fuel : nat) (st st' : env.t) (x : astStruct.t) :
  generateIR Atoi ParseUint extractSSZDimensions fuel st = Ok (tt, st') ->
  In x (flat_map declsOf (map snd (env.files st))) ->
  exists item y,
    getRawItemByName (astStruct.name x) (env.raw st') = Some item
    /\ astStruct.isRef item = false
    /\ In y (flat_map declsOf (map snd (env.files st)))
    /\ key item = key y /\ astStruct.obj item = astStruct.obj y
    /\ astStruct.typ item = astStruct.typ y.
Proof. apply generateIR_source_first. Qed.

Lemma source_declaration_found_first_witness :
  exists st',
    Sample.generateIR 3 Sample.envSameNameAcross = Ok (tt, st')
    /\ exists item y,
         getRawItemByName (astStruct.name Example.declT) (env.raw st') = Some item
         /\ astStruct.isRef item = false
         /\ In y (flat_map declsOf (map snd (env.files Sample.envSameNameAcross)))
         /\ key item = key y /\ astStruct.obj item = astStruct.obj y
         /\ astStruct.typ item = astStruct.typ y.
Proof.
  eexists. split; [vm_compute; reflexivity|].
  apply (source_declaration_found_first Sample.Atoi Sample.ParseUint
           Sample.extractSSZDimensions 3 Sample.envSameNameAcross _ Example.declT).
  - vm_compute. reflexivity.
  - vm_compute. left. reflexivity.
Defined.

(** X22.  After a successful [generateIR] on source files with distinct
    file names, [order] maps the name of each source file to the names of
    the types the file declares (structs and aliases, interfaces left
    out), in declaration order, and maps no other name. *)
Theorem generateIR_order_lists_declared_types
  (Atoi ParseUint : string -> option Z)
  (extractSSZDimensions : string -> Result (list SSZDimension))
  (fuel : nat) (st st' : env.t) :
  generateIR Atoi ParseUint extractSSZDimensions fuel st = Ok (tt, st') ->
  NoDup (map fst (env.files st)) ->
  (forall fname file, In (fname, file) (env.files st) ->
     env.order st' !! fname = Some (map astStruct.name (declsOf file)))
  /\ (forall fname, ~ In fname (map fst (env.files st)) ->
      env.order st' !! fname = None).
Proof. apply generateIR_order. Qed.

Lemma generateIR_order_lists_declared_types_witness :
  (forall fname file, In (fname, file) (env.files Sample.envMethodsApart) ->
     env.order Sample.envMethodsApart' !! fname
     = Some (map astStruct.name (declsOf file)))
  /\ (forall fname, ~ In fname (map fst (env.files Sample.envMethodsApart)) ->
      env.order Sample.envMethodsApart' !! fname = None).
Proof.
  apply (generateIR_order_lists_declared_types Sample.Atoi Sample.ParseUint
           Sample.extractSSZDimensions 1 Sample.envMethodsApart
           Sample.envMethodsApart').
  - vm_compute. reflexivity.
  - apply (bool_decide_eq_true_1
             (NoDup (map fst (env.files Sample.envMethodsApart)))).
    vm_compute. reflexivity.
Defined.

(** * Properties stated over the results above *)

(** ** The output of [print] *)

(** C8, as the code has it.  When [print] returns, the procedures in its
    output are, in the order of [order], one set for each name that is
    registered in [objs], is not excluded by [excludeTypeNames], and is not
    a fixed node of kind uint, bool or bytes; there is an output exactly
    when some name is left.  [print] returns whenever the hash of the
    source is at hand and every registered, not excluded type of [order]
    can be classified. *)
Theorem print_one_set_per_selected_type
  (hashTreeRoot marshal unmarshal size getTree : string -> Value -> string)
  (hashSource : env.t -> Result string) (findImport : env.t -> string -> string)
  (st : env.t) (order : list string) (experimental : bool) :
  (forall out,
     print hashTreeRoot marshal unmarshal size getTree hashSource findImport
       st order experimental = Ok out ->
     match out with
     | Some output =>
         out_objs output
         = omap (emitted hashTreeRoot marshal unmarshal size getTree st experimental)
             order
         /\ omap (emitted hashTreeRoot marshal unmarshal size getTree st experimental)
              order <> []
     | None =>
         omap (emitted hashTreeRoot marshal unmarshal size getTree st experimental)
           order = []
     end)
  /\ (forall hash,
        hashSource st = Ok hash ->
        (forall tyname obj,
           selected st order tyname obj ->
           existsb elementMissing (o obj) = false /\ isFixed obj <> Panic) ->
        exists out,
          print hashTreeRoot marshal unmarshal size getTree hashSource findImport
            st order experimental = Ok out).
Proof.
  split.
  - intros out. unfold print.
    destruct (hashSource st) as [hash| | |]; try discriminate.
    destruct (printLoop hashTreeRoot marshal unmarshal size getTree
                st experimental order [] []) as [[objs imports]| | |] eqn:Hl;
      try discriminate.
    apply printLoop_emits in Hl. simpl in Hl. subst objs.
    destruct (omap _ order) eqn:Ho; intros [= <-]; [reflexivity|].
    simpl. split; [reflexivity|discriminate].
  - intros hash Hh Hall.
    destruct (print_panics hashTreeRoot marshal unmarshal size getTree
                hashSource findImport st order experimental hash Hh)
      as [Hiff [Hp|Hok]]; [|exact Hok].
    apply Hiff in Hp as (tyname & obj & Hsel & Hbad).
    destruct (Hall _ _ Hsel) as [Hm Hf].
    destruct Hbad as [Hbad|Hbad]; congruence.
Qed.

Lemma print_one_set_per_selected_type_witness :
  (out_objs (mkOutput "p" "hash" [] [Sample.procedures "A"])
   = omap (emitted (Sample.gen "hashTreeRoot") (Sample.gen "marshal")
             (Sample.gen "unmarshal") (Sample.gen "size") (Sample.gen "getTree")
             Sample.envPrint false)
       ["A"; "U"; "B"; "Missing"]
   /\ omap (emitted (Sample.gen "hashTreeRoot") (Sample.gen "marshal")
              (Sample.gen "unmarshal") (Sample.gen "size") (Sample.gen "getTree")
              Sample.envPrint false)
        ["A"; "U"; "B"; "Missing"] <> [])
  /\ exists out, Sample.print Sample.envPrint ["A"; "U"; "B"; "Missing"] false = Ok out.
Proof.
  split.
  - apply (proj1 (print_one_set_per_selected_type (Sample.gen "hashTreeRoot")
                    (Sample.gen "marshal") (Sample.gen "unmarshal")
                    (Sample.gen "size") (Sample.gen "getTree")
                    (fun _ => Ok "hash") (fun _ i => i)
                    Sample.envPrint ["A"; "U"; "B"; "Missing"] false)
             (Some (mkOutput "p" "hash" [] [Sample.procedures "A"]))).
    vm_compute. reflexivity.
  - apply (proj2 (print_one_set_per_selected_type (Sample.gen "hashTreeRoot")
                    (Sample.gen "marshal") (Sample.gen "unmarshal")
                    (Sample.gen "size") (Sample.gen "getTree")
                    (fun _ => Ok "hash") (fun _ i => i)
                    Sample.envPrint ["A"; "U"; "B"; "Missing"] false)
             "hash" eq_refl).
    intros tyname obj (Hin & Hex & Hobj).
    destruct Hin as [<-|[<-|[<-|[<-|[]]]]].
    + vm_compute in Hobj. injection Hobj as <-. split; [reflexivity|discriminate].
    + vm_compute in Hobj. injection Hobj as <-. split; [reflexivity|discriminate].
    + vm_compute in Hex. discriminate.
    + vm_compute in Hobj. discriminate.
Defined.

(** ** [appendWithoutRepeated], in order *)

Lemma filter_filter_implied {A} (p q : A -> bool) (l : list A) :
  (forall y, p y = true -> q y = true) ->
  List.filter p (List.filter q l) = List.filter p l.
Proof.
  intros Hpq. induction l as [|x l IH]; simpl; [reflexivity|].
  destruct (q x) eqn:Hq; simpl.
  - destruct (p x); rewrite IH; reflexivity.
  - destruct (p x) eqn:Hp; [|exact IH].
    rewrite (Hpq _ Hp) in Hq. discriminate.
Qed.

Lemma filter_filter_comm {A} (p q : A -> bool) (l : list A) :
  List.filter p (List.filter q l) = List.filter q (List.filter p l).
Proof.
  induction l as [|x l IH]; simpl; [reflexivity|].
  destruct (q x) eqn:Hq, (p x) eqn:Hp; simpl; rewrite ?Hq, ?Hp, IH; reflexivity.
Qed.

Lemma firstOccurrences_filter (p : string -> bool) (l : list string) :
  firstOccurrences (List.filter p l) = List.filter p (firstOccurrences l).
Proof.
  induction l as [|x l IH]; simpl; [reflexivity|].
  destruct (p x) eqn:Hp; simpl.
  - rewrite ?Hp, IH. f_equal. apply filter_filter_comm.
  - rewrite IH. symmetry. apply filter_filter_implied.
    intros y Hy. apply negb_true_iff, String.eqb_neq. intros ->. congruence.
Qed.

Lemma contains_app i j k : contains i (j ++ k) = contains i j || contains i k.
Proof.
  induction j as [|a j IH]; simpl; [reflexivity|].
  destruct (String.eqb a i); [reflexivity|exact IH].
Qed.

(** The strings appended, as a function of the arguments: those of [i]
    that are not in [s0], each once, where it first occurs in [i]. *)
Lemma appendWithoutRepeated_ordered : forall i s0,
  appendWithoutRepeated s0 i
  = (s0 ++ firstOccurrences
             (List.filter (fun x => negb (contains x s0)) i))%list.
Proof.
  induction i as [|j rest IH]; intros s0; simpl.
  - rewrite app_nil_r. reflexivity.
  - destruct (contains j s0) eqn:Hc; simpl; [apply IH|].
    rewrite IH, <- app_assoc. simpl. do 2 f_equal.
    rewrite <- firstOccurrences_filter. f_equal.
    clear IH. induction rest as [|x rest IHr]; simpl; [reflexivity|].
    rewrite contains_app. simpl. rewrite (String.eqb_sym j x).
    destruct (contains x s0); simpl; [exact IHr|].
    destruct (String.eqb x j); simpl; [exact IHr|].
    f_equal. exact IHr.
Qed.

(** ** Array nests that end in [byte] *)

Section ByteNests.

Variable Atoi : string -> option Z.
Variable ParseUint : string -> option Z.
Variable extractSSZDimensions : string -> Result (list SSZDimension).

Local Abbreviation parseASTFieldType' :=
  (parseASTFieldType Atoi ParseUint extractSSZDimensions).

Lemma arrayLen_error fname Len err :
  arrayLen ParseUint fname Len = Err err ->
  lengthError fname err /\ Len <> None.
Proof.
  unfold arrayLen, lengthError.
  destruct Len as [[n|value| | | | | |]|]; try discriminate;
    try (intros [= <-]; split; [auto|discriminate]).
  destruct (ParseUint value); [discriminate|].
  intros [= <-]. split; [auto|discriminate].
Qed.

Lemma arrayLen_slice fname : arrayLen ParseUint fname None = Ok None.
Proof. reflexivity. Qed.

Lemma arrayLen_Some fname Len a :
  arrayLen ParseUint fname Len = Ok (Some a) -> Len <> None.
Proof. destruct Len; [discriminate|]. discriminate. Qed.

Lemma checkArray_error fname astSize col err :
  checkArray fname astSize col = Err err ->
  lengthError fname err /\ astSize <> None.
Proof.
  unfold checkArray, lengthError. destruct astSize as [a|]; [|discriminate].
  destruct (negb (bool_decide _)).
  - intros [= <-]. split; [|discriminate]. right. right. left. eauto.
  - destruct (negb (_ =? _)); [|discriminate].
    intros [= <-]. split; [|discriminate]. right. right. right. eauto.
Qed.

(** The level of the nest whose element is [byte]: every annotation
    that is left is applied to the same node. *)
Lemma dimsLoop_byte_level k fname tags Len : forall dims col st,
  (exists err,
     dimsLoop ParseUint (parseASTFieldType' k) fname tags dims Len
       (ast.Ident "byte") col st = Err err
     /\ lengthError fname err /\ Len <> None)
  \/ exists v,
       dimsLoop ParseUint (parseASTFieldType' k) fname tags dims Len
         (ast.Ident "byte") col st = Ok (v, st)
       /\ e v = e col
       /\ fixed v = (fixed col || existsb IsVector dims)
       /\ t v = match last dims with
                | Some d => if IsBitlist d then TypeBitList else TypeBytes
                | None => t col
                end.
Proof.
  induction dims as [|dim rest IH]; intros col st.
  - right. exists col. simpl. rewrite orb_false_r. auto.
  - simpl.
    destruct (arrayLen ParseUint fname Len) as [astSize|err| |] eqn:Hlen.
    + destruct (checkArray fname astSize (applyDim dim col))
        as [col1|err| |] eqn:Hck.
      * apply checkArray_fields in Hck as (Hct & Hcf & Hce).
        destruct (applyDim_fields dim col) as [Haf Hae].
        destruct (applyByte_fields dim col1) as (Hbt & Hbf & _ & _ & Hbe).
        destruct (IH (applyByte dim col1) st)
          as [(err & -> & Herr)|(v & -> & Hve & Hvf & Hvt)]; [left; eauto|].
        right. exists v. split; [reflexivity|].
        split; [congruence|]. split.
        -- rewrite Hvf, Hbf, Hcf, Haf.
           destruct (fixed col), (IsVector dim), (existsb IsVector rest); reflexivity.
        -- rewrite Hvt. destruct rest as [|d' rest']; [exact Hbt|].
           change (last (dim :: d' :: rest')) with (last (d' :: rest')).
           destruct (last (d' :: rest')) eqn:E; [reflexivity|].
           apply last_None in E. discriminate.
      * left. exists err. split; [reflexivity|].
        apply checkArray_error in Hck as [He Hs]. split; [exact He|].
        destruct astSize as [a|]; [|congruence].
        exact (arrayLen_Some _ _ _ Hlen).
      * destruct (checkArray_result fname astSize (applyDim dim col))
          as [[c Hc]|[er Hc]]; congruence.
      * destruct (checkArray_result fname astSize (applyDim dim col))
          as [[c Hc]|[er Hc]]; congruence.
    + left. exists err. split; [reflexivity|]. exact (arrayLen_error _ _ _ Hlen).
    + destruct (arrayLen_result ParseUint fname Len) as [[a Ha]|[er Ha]]; congruence.
    + destruct (arrayLen_result ParseUint fname Len) as [[a Ha]|[er Ha]]; congruence.
Qed.

Lemma byteArrayRank_pos x r : byteArrayRank x = Some r -> (1 <= r)%nat.
Proof.
  destruct x as [ | | | |Len Elt| | |]; try discriminate. simpl.
  destruct Elt; try discriminate.
  - destruct (String.eqb _ _); [|discriminate]. intros [= <-]. lia.
  - destruct (byteArrayRank _); [|discriminate]. intros [= <-]. lia.
Qed.

Lemma sliceNest_inner Len Len' Elt' :
  sliceNest (ast.ArrayType Len' Elt') = false ->
  sliceNest (ast.ArrayType Len (ast.ArrayType Len' Elt')) = false.
Proof. intros H. destruct Len; [reflexivity|]. exact H. Qed.

Lemma sliceNest_length Len Elt :
  Len <> None -> sliceNest (ast.ArrayType Len Elt) = false.
Proof. destruct Len; [reflexivity|congruence]. Qed.

(** The loop on an array nest that ends in [byte], with an annotation
    for every dimension: it makes no call and changes no state; it fails
    only on a length, with one of the four errors of the checks on a
    length; otherwise it returns a chain whose node at the depth of the
    last dimension has no element node and is bytes or a bitlist. *)
Lemma dimsLoop_byte_nest k fname tags :
  forall dims Len Elt st r,
  byteArrayRank (ast.ArrayType Len Elt) = Some r ->
  (r <= length dims)%nat ->
  (exists err,
     dimsLoop ParseUint (parseASTFieldType' k) fname tags dims Len Elt zeroValue st
     = Err err
     /\ lengthError fname err /\ sliceNest (ast.ArrayType Len Elt) = false)
  \/ exists v b d,
       dimsLoop ParseUint (parseASTFieldType' k) fname tags dims Len Elt zeroValue st
       = Ok (v, st)
       /\ descend (r - 1) v = Some b /\ last dims = Some d
       /\ e b = None
       /\ t b = (if IsBitlist d then TypeBitList else TypeBytes)
       /\ fixed b = existsb IsVector (drop (r - 1) dims).
Proof.
  induction dims as [|dim rest IH]; intros Len Elt st r Hrank Hle.
  - apply byteArrayRank_pos in Hrank. simpl in Hle. lia.
  - simpl in Hrank. destruct Elt as [eltName| | | |Len' Elt'| | |];
      try discriminate.
    + destruct (String.eqb_spec eltName "byte") as [->|]; [|discriminate].
      injection Hrank as <-.
      destruct (dimsLoop_byte_level k fname tags Len (dim :: rest) zeroValue st)
        as [(err & Herr & Hle' & Hlen)|(v & Hv & Hve & Hvf & Hvt)].
      * left. exists err. split; [exact Herr|]. split; [exact Hle'|].
        apply sliceNest_length, Hlen.
      * right. destruct (last (dim :: rest)) as [d|] eqn:Hlast.
        2:{ apply last_None in Hlast. discriminate. }
        exists v, v, d. split; [exact Hv|]. split; [reflexivity|].
        split; [reflexivity|]. split; [exact Hve|]. split; [exact Hvt|].
        rewrite Hvf. reflexivity.
    + destruct (byteArrayRank (ast.ArrayType Len' Elt')) as [j|] eqn:Hj;
        [|discriminate].
      injection Hrank as <-. simpl in Hle.
      pose proof (byteArrayRank_pos _ _ Hj) as Hpos.
      simpl dimsLoop.
      destruct (arrayLen ParseUint fname Len) as [astSize|err| |] eqn:Hlen.
      * destruct (checkArray fname astSize (applyDim dim zeroValue))
          as [col1|err| |] eqn:Hck.
        -- unfold bind, ret.
           destruct (IH Len' Elt' st j Hj ltac:(lia))
             as [(err & -> & Herr & Hs)|(inner & b & d & -> & Hd & Hl & Hb)].
           ++ left. exists err. split; [reflexivity|]. split; [exact Herr|].
              apply sliceNest_inner, Hs.
           ++ right. exists (set_e (Some inner) col1), b, d.
              split; [reflexivity|].
              destruct j as [|j']; [lia|].
              destruct rest as [|dim' rest']; [simpl in Hle; lia|].
              simpl in *. rewrite Nat.sub_0_r in *.
              split; [exact Hd|]. split; [exact Hl|]. exact Hb.
        -- left. exists err. split; [reflexivity|].
           apply checkArray_error in Hck as [He Hs]. split; [exact He|].
           apply sliceNest_length.
           destruct astSize as [a|]; [|congruence].
           exact (arrayLen_Some _ _ _ Hlen).
        -- destruct (checkArray_result fname astSize (applyDim dim zeroValue))
             as [[c Hc]|[er Hc]]; congruence.
        -- destruct (checkArray_result fname astSize (applyDim dim zeroValue))
             as [[c Hc]|[er Hc]]; congruence.
      * left. exists err. split; [reflexivity|].
        apply arrayLen_error in Hlen as [He Hs]. split; [exact He|].
        apply sliceNest_length, Hs.
      * destruct (arrayLen_result ParseUint fname Len) as [[a Ha]|[er Ha]]; congruence.
      * destruct (arrayLen_result ParseUint fname Len) as [[a Ha]|[er Ha]]; congruence.
Qed.

Lemma drop_last_one {A} (l : list A) d :
  last l = Some d -> drop (length l - 1) l = [d].
Proof.
  induction l as [|x l IH]; [discriminate|].
  destruct l as [|y l']; [intros [= <-]; reflexivity|].
  intros H. simpl in *. rewrite Nat.sub_0_r in IH. exact (IH H).
Qed.

End ByteNests.

(** C6, as the code has it.  An array or slice type whose innermost
    element is [byte], read with an annotation for every dimension of the
    type: the build resolves no name and changes no state; it fails only
    on an array length, with one of the four errors of the checks on a
    length, so never on a nest of slices; otherwise the node of the
    innermost dimension has no element node, is a bitlist when the last
    annotation is a bitlist annotation and bytes otherwise, and has the
    [fixed] flag exactly when an annotation applied to that dimension is a
    vector dimension (with one annotation per dimension: when the
    annotation of the dimension is a vector dimension). *)
Theorem byte_dimension_collapses
  (Atoi ParseUint : string -> option Z)
  (extractSSZDimensions : string -> Result (list SSZDimension))
  (fuel : nat) (fname tags : string) (Len : option ast.Expr) (Elt : ast.Expr)
  (dims : list SSZDimension) (r : nat) (st : env.t) :
  omitted tags = false ->
  extractSSZDimensions tags = Ok dims ->
  byteArrayRank (ast.ArrayType Len Elt) = Some r ->
  (r <= length dims)%nat ->
  (exists err,
     parseASTFieldType Atoi ParseUint extractSSZDimensions (S fuel) fname tags
       (ast.ArrayType Len Elt) st = Err err
     /\ lengthError fname err
     /\ sliceNest (ast.ArrayType Len Elt) = false)
  \/ exists v b d,
       parseASTFieldType Atoi ParseUint extractSSZDimensions (S fuel) fname tags
         (ast.ArrayType Len Elt) st = Ok (Some v, st)
       /\ descend (r - 1) v = Some b /\ last dims = Some d
       /\ e b = None
       /\ t b = (if IsBitlist d then TypeBitList else TypeBytes)
       /\ fixed b = existsb IsVector (drop (r - 1) dims)
       /\ (length dims = r -> fixed b = IsVector d).
Proof.
  intros Hom Hdims Hrank Hle.
  rewrite parseASTFieldType_S. unfold parseASTFieldType_body.
  rewrite Hom, Hdims. unfold bind, ret.
  destruct (dimsLoop_byte_nest Atoi ParseUint extractSSZDimensions
              fuel fname tags dims Len Elt st r Hrank Hle)
    as [(err & -> & Herr)|(v & b & d & -> & Hd & Hl & He & Ht & Hf)].
  - left. exists err. split; [reflexivity|exact Herr].
  - right. exists v, b, d. split; [reflexivity|].
    repeat (split; [assumption|]).
    intros <-. rewrite Hf, (drop_last_one dims d Hl). simpl.
    apply orb_false_r.
Qed.

Lemma byte_dimension_collapses_witness :
  exists v b d,
    Sample.parseASTFieldType 1 "Proof" Sample.tagNested Sample.byteSlices
      (Sample.envOf [] []) = Ok (Some v, Sample.envOf [] [])
    /\ descend (2 - 1) v = Some b
    /\ last [mkDim None (Some 16) false; mkDim (Some 32) None false] = Some d
    /\ e b = None
    /\ t b = (if IsBitlist d then TypeBitList else TypeBytes)
    /\ fixed b
       = existsb IsVector
           (drop (2 - 1) [mkDim None (Some 16) false; mkDim (Some 32) None false])
    /\ (length [mkDim None (Some 16) false; mkDim (Some 32) None false] = 2%nat ->
        fixed b = IsVector d).
Proof.
  destruct (byte_dimension_collapses Sample.Atoi Sample.ParseUint
              Sample.extractSSZDimensions 0 "Proof" Sample.tagNested None
              (ast.ArrayType None (ast.Ident "byte"))
              [mkDim None (Some 16) false; mkDim (Some 32) None false] 2
              (Sample.envOf [] []))
    as [(err & Herr & _)|Hok].
  - vm_compute. reflexivity.
  - vm_compute. reflexivity.
  - vm_compute. reflexivity.
  - simpl. lia.
  - vm_compute in Herr. discriminate Herr.
  - exact Hok.
Defined.

(** C6, as stated, fails: in [[][]byte] the inner dimension has the
    element type [byte]; read with the single annotation [ssz-size:"32"],
    the type is built without an error as a vector whose element is a node
    of undefined kind, and no node is bytes. *)
Lemma byte_slices_with_one_annotation :
  byteArrayRank Sample.byteSlices = Some 2%nat
  /\ Sample.extractSSZDimensions Sample.tagSize32
     = Ok [mkDim (Some 32) None false]
  /\ Sample.parseASTFieldType 1 "Roots" Sample.tagSize32 Sample.byteSlices
       (Sample.envOf [] [])
     = Ok (Some Example.vectorOfUndefined, Sample.envOf [] [])
  /\ map t (nodes Example.vectorOfUndefined) = [TypeVector; TypeUndefined].
Proof. vm_compute. repeat split; reflexivity. Qed.

(** ** The fields of a struct, as written and as read *)

Lemma omitted_fieldOf d :
  forallb plainTag (fd_tags d) = true ->
  omitted (default "" (ast.Tag (fieldOf d))) = omittedByTag d.
Proof.
  intros Hp. unfold omitted, omittedByTag, fieldOf. simpl.
  destruct (fd_tags d) as [|kv tags] eqn:Etags; [reflexivity|].
  change (default "" (Some (tagLiteral (kv :: tags))))
    with (tagLiteral (kv :: tags)).
  rewrite getTags_tagLiteral; [reflexivity|].
  apply Forall_forall. intros x Hx. rewrite forallb_forall in Hp.
  apply Hp, list_elem_of_In, Hx.
Qed.

Lemma isExportedField_ascii fname :
  asciiInitial fname = true -> isExportedField fname = Ok (exportedName fname).
Proof.
  destruct fname as [|a rest]; [discriminate|].
  unfold asciiInitial, isExportedField, exportedName.
  generalize (nat_of_ascii a). intros n H. f_equal.
  destruct (Nat.leb_spec n 90) as [Hle|Hgt].
  - rewrite andb_true_r.
    destruct (Nat.leb_spec 65 n) as [|Hlt]; [reflexivity|]. exfalso.
    destruct (Nat.leb_spec 97 n); [lia|].
    destruct (Nat.eqb_spec n 95); [lia|]. discriminate H.
  - rewrite andb_false_r. reflexivity.
Qed.

Lemma keeps_fieldOf d : conventional d = true -> keeps (fieldOf d) = listed d.
Proof.
  intros H. apply andb_prop in H as [Hn Ht].
  unfold keeps, listed.
  change (ast.Names (fieldOf d)) with (fd_names d).
  destruct (fd_names d) as [|fname [|]]; try reflexivity.
  simpl in Hn. rewrite andb_true_r in Hn.
  rewrite (isExportedField_ascii fname Hn), (omitted_fieldOf d Ht).
  unfold strings.HasPrefix.
  destruct (exportedName fname); reflexivity.
Qed.

Lemma declaredOrder_fieldOf decl :
  Forall (fun d => conventional d = true) decl ->
  declaredOrder (map fieldOf decl) = listedOrder decl.
Proof.
  unfold declaredOrder, listedOrder.
  induction 1 as [|d decl Hd _ IH]; [reflexivity|]. simpl.
  rewrite (keeps_fieldOf d Hd). destruct (listed d); simpl; rewrite IH; reflexivity.
Qed.

Section StructProgress.

Variable Atoi : string -> option Z.
Variable ParseUint : string -> option Z.
Variable extractSSZDimensions : string -> Result (list SSZDimension).

Local Abbreviation parseASTStructType' :=
  (parseASTStructType Atoi ParseUint extractSSZDimensions).
Local Abbreviation parseASTFieldType' :=
  (parseASTFieldType Atoi ParseUint extractSSZDimensions).

Lemma parseASTFieldType_omitted fuel fname tags x st :
  omitted tags = true ->
  parseASTFieldType' (S fuel) fname tags x st = Ok (None, st).
Proof.
  intros H. rewrite parseASTFieldType_S. unfold parseASTFieldType_body.
  rewrite H. reflexivity.
Qed.

(** The loop over the fields returns when every field it keeps is
    built. *)
Lemma fieldsLoop_progress fuel : forall fields acc st,
  (forall f fname, In f fields -> ast.Names f = [fname] ->
     exists b, isExportedField fname = Ok b) ->
  (forall f fname, In f fields -> keeps f = true -> ast.Names f = [fname] ->
     forall st1, exists r st2,
       parseASTFieldType' (S fuel) fname (default "" (ast.Tag f)) (ast.Type_ f) st1
       = Ok (r, st2)) ->
  exists o' st',
    fieldsLoop (parseASTFieldType' (S fuel)) fields acc st = Ok (o', st').
Proof.
  induction fields as [|f rest IH]; intros acc st Hexp Hbuild;
    cbn [fieldsLoop]; [unfold ret; eauto|].
  assert (IH' : forall acc' st',
            exists o' st'',
              fieldsLoop (parseASTFieldType' (S fuel)) rest acc' st' = Ok (o', st'')).
  { intros acc' st'. apply IH.
    - intros g gname Hg. apply Hexp. right. exact Hg.
    - intros g gname Hg. apply Hbuild. right. exact Hg. }
  destruct (ast.Names f) as [|fname [|]] eqn:Hn; try apply IH'.
  destruct (Hexp f fname (or_introl eq_refl) Hn) as [b Hb]. rewrite Hb.
  destruct b; [|apply IH'].
  destruct (strings.HasPrefix fname "XXX_") eqn:Hx; [apply IH'|].
  unfold bind.
  destruct (omitted (default "" (ast.Tag f))) eqn:Hom.
  - rewrite (parseASTFieldType_omitted fuel fname _ (ast.Type_ f) st Hom).
    apply IH'.
  - assert (Hk : keeps f = true).
    { unfold keeps. rewrite Hn, Hb, Hx, Hom. reflexivity. }
    destruct (Hbuild f fname (or_introl eq_refl) Hk Hn st) as (r & st2 & ->).
    destruct r; apply IH'.
Qed.

Lemma parseASTStructType_progress fuel tyname decl st :
  Forall (fun d => conventional d = true) decl ->
  (forall d fname, In d decl -> listed d = true -> fd_names d = [fname] ->
     forall st1, exists r st2,
       parseASTFieldType' (S fuel) fname (default "" (ast.Tag (fieldOf d)))
         (fd_type d) st1 = Ok (r, st2)) ->
  exists v st',
    parseASTStructType' (S (S fuel)) tyname (map fieldOf decl) st = Ok (v, st').
Proof.
  intros Hconv Hbuild. rewrite parseASTStructType_S.
  unfold parseASTStructType_body, bind, ret.
  rewrite Forall_forall in Hconv.
  destruct (fieldsLoop_progress fuel (map fieldOf decl) [] st) as (o' & st' & ->).
  - intros f fname Hf Hn. apply in_map_iff in Hf as (d & <- & Hd).
    apply list_elem_of_In, Hconv in Hd. apply andb_prop in Hd as [Hnames _].
    change (ast.Names (fieldOf d)) with (fd_names d) in Hn.
    rewrite Hn in Hnames. simpl in Hnames. rewrite andb_true_r in Hnames.
    rewrite (isExportedField_ascii fname Hnames). eauto.
  - intros f fname Hf Hk Hn. apply in_map_iff in Hf as (d & <- & Hd).
    rewrite keeps_fieldOf in Hk by (apply Hconv, list_elem_of_In, Hd).
    exact (Hbuild d fname Hd Hk Hn).
  - eauto.
Qed.

End StructProgress.




(** ** The signatures [isFuncDecl] accepts *)

Lemma check_types list args :
  check (Some list) args = Ok true
  <-> map (fun f => ast.formatNode (ast.Type_ f)) list = args.
Proof.
  unfold check. revert args.
  induction list as [|f list IH]; intros [|a args]; simpl;
    try (split; [discriminate|discriminate]).
  - split; reflexivity.
  - specialize (IH args).
    destruct (Nat.eqb_spec (length list) (length args)) as [Hlen|Hlen]; simpl in *.
    + destruct (String.eqb_spec (ast.formatNode (ast.Type_ f)) a) as [->|Hne]; simpl.
      * split.
        -- intros H. f_equal. apply IH. exact H.
        -- intros [= H]. apply IH. exact H.
      * split; [discriminate|]. intros [= H _]. contradiction.
    + split; [discriminate|]. intros [= _ H]. apply (f_equal (@length _)) in H.
      rewrite length_map in H. contradiction.
Qed.

Lemma signatureTypes_ungrouped fields :
  ungrouped fields = true ->
  signatureTypes fields = map (fun f => ast.formatNode (ast.Type_ f)) fields.
Proof.
  unfold ungrouped, signatureTypes.
  induction fields as [|f fields IH]; simpl; [reflexivity|].
  intros H. apply andb_prop in H as [Hf Hrest]. rewrite (IH Hrest).
  apply Nat.leb_le in Hf.
  destruct (ast.Names f) as [|x [|y l]]; simpl in *; try reflexivity. lia.
Qed.

Lemma isSpecificFunc_types f ins outs :
  isSpecificFunc f ins outs = Ok true
  <-> map (fun x => ast.formatNode (ast.Type_ x)) (ast.Params (ast.FuncTy f)) = ins
      /\ exists results,
           ast.Results (ast.FuncTy f) = Some results
           /\ map (fun x => ast.formatNode (ast.Type_ x)) results = outs.
Proof.
  unfold isSpecificFunc. rewrite <- check_types.
  destruct (check (Some (ast.Params (ast.FuncTy f))) ins) as [[|]| | |];
    try (split; [discriminate|intros [? _]; discriminate]).
  destruct (ast.Results (ast.FuncTy f)) as [results|].
  - rewrite check_types. split.
    + intros H. split; [reflexivity|]. eauto.
    + intros (_ & results' & [= <-] & H). exact H.
  - simpl. split; [discriminate|]. intros (_ & results' & H & _). discriminate.
Qed.

Lemma isFuncDecl_types f :
  isFuncDecl f = Ok true
  <-> exists ins outs,
        In (ast.FuncName f, (ins, outs)) sszSignatures
        /\ isSpecificFunc f ins outs = Ok true.
Proof.
  unfold isFuncDecl, sszSignatures. split.
  - destruct (String.eqb_spec (ast.FuncName f) "SizeSSZ") as [->|_];
      [intros H; eexists _, _; split; [left; reflexivity|exact H]|].
    destruct (String.eqb_spec (ast.FuncName f) "MarshalSSZTo") as [->|_];
      [intros H; eexists _, _; split; [right; left; reflexivity|exact H]|].
    destruct (String.eqb_spec (ast.FuncName f) "UnmarshalSSZ") as [->|_];
      [intros H; eexists _, _; split; [right; right; left; reflexivity|exact H]|].
    destruct (String.eqb_spec (ast.FuncName f) "HashTreeRootWith") as [->|_];
      [intros H; eexists _, _; split;
         [right; right; right; left; reflexivity|exact H]|].
    discriminate.
  - intros (ins & outs & Hin & H).
    destruct Hin as [E|[E|[E|[E|[]]]]]; injection E as <- <- <-; exact H.
Qed.

Lemma accepts_types tyname f :
  accepts tyname (ast.FuncDeclD f) = true
  <-> (exists recv rest,
         ast.Recv f = Some (recv :: rest)
         /\ ast.Type_ recv = ast.StarExpr (ast.Ident tyname))
      /\ isFuncDecl f = Ok true.
Proof.
  unfold accepts, decodeFuncDecl. split.
  - destruct (ast.Recv f) as [[|recv rest]|]; try discriminate.
    destruct (ast.Type_ recv) as [| |[]| | | | |] eqn:Hty; try discriminate.
    destruct (isFuncDecl f) as [[|]| | |]; try discriminate.
    intros H. apply String.eqb_eq in H as ->. split; [|reflexivity].
    exists recv, rest. rewrite Hty. auto.
  - intros ((recv & rest & -> & ->) & ->). apply String.eqb_refl.
Qed.

(** A method whose parameter and result fields declare at most one name
    each is accepted exactly when its name and signature are those of one
    of the four methods. *)
Lemma accepts_signature tyname f :
  ungrouped (ast.Params (ast.FuncTy f)) = true ->
  ungrouped (default [] (ast.Results (ast.FuncTy f))) = true ->
  accepts tyname (ast.FuncDeclD f) = true <-> hasSszSignature tyname f.
Proof.
  intros Hin Hout. unfold hasSszSignature.
  rewrite accepts_types, isFuncDecl_types.
  rewrite (signatureTypes_ungrouped _ Hin), (signatureTypes_ungrouped _ Hout).
  split.
  - intros (Hrecv & ins & outs & Hsig & H). split; [exact Hrecv|].
    apply isSpecificFunc_types in H as (Hi & results & Hr & Ho).
    exists ins, outs. rewrite Hr. simpl. auto.
  - intros (Hrecv & ins & outs & Hsig & Hi & Ho). split; [exact Hrecv|].
    exists ins, outs. split; [exact Hsig|].
    apply isSpecificFunc_types. split; [exact Hi|].
    destruct (ast.Results (ast.FuncTy f)) as [results|]; [eauto|].
    exfalso. simpl in Ho. subst outs.
    destruct Hsig as [E|[E|[E|[E|[]]]]]; discriminate E.
Qed.

(** ** Looking a type up by its name *)

Lemma getRawItemByName_unique raw item :
  NoDup (map astStruct.name raw) -> In item raw ->
  getRawItemByName (astStruct.name item) raw = Some item.
Proof.
  induction raw as [|x rest IH]; intros Hnd Hin; [destruct Hin|].
  simpl in *. apply NoDup_cons in Hnd as [Hx Hnd].
  destruct Hin as [->|Hin]; [rewrite String.eqb_refl; reflexivity|].
  destruct (String.eqb_spec (astStruct.name x) (astStruct.name item)) as [E|_];
    [|exact (IH Hnd Hin)].
  exfalso. apply Hx. rewrite E. apply list_elem_of_In, in_map, Hin.
Qed.

Lemma names_of_keys (l1 l2 : list astStruct.t) :
  map key l1 = map key l2 -> map astStruct.name l1 = map astStruct.name l2.
Proof.
  intros H. apply (f_equal (map snd)) in H. rewrite !map_map in H. exact H.
Qed.

Section ReferenceCapture.

Variable Atoi : string -> option Z.
Variable ParseUint : string -> option Z.
Variable extractSSZDimensions : string -> Result (list SSZDimension).

Local Abbreviation encodeItem' := (encodeItem Atoi ParseUint extractSSZDimensions).
Local Abbreviation parseASTStructType' :=
  (parseASTStructType Atoi ParseUint extractSSZDimensions).
Local Abbreviation parseASTFieldType' :=
  (parseASTFieldType Atoi ParseUint extractSSZDimensions).
Local Abbreviation generateIR' := (generateIR Atoi ParseUint extractSSZDimensions).

(** An unmarked struct is built exactly when its field list is built. *)
Lemma encodeItem_struct k n tags stx item fields v stx' :
  getRawItemByName n (env.raw stx) = Some item ->
  env.objs stx !! n = None ->
  astStruct.implFunc item = false ->
  astStruct.obj item = Some fields ->
  encodeItem' (S k) n tags stx = Ok (v, stx')
  <-> exists w st1,
        parseASTStructType' k n fields stx = Ok (w, st1)
        /\ v = set_obj n (set_name n w)
        /\ stx' = env.set_objs (<[n := v]> (env.objs st1)) st1.
Proof.
  intros Hraw Hobjs Himpl Hobj. simpl. unfold encodeItem_body, buildItem.
  rewrite Hobjs, Hraw, Himpl, Hobj. unfold bind, ret.
  destruct (parseASTStructType' k n fields stx) as [[w st1]| | |].
  - rewrite copy_id. split.
    + intros [= <- <-]. eauto.
    + intros (w' & st1' & [= <- <-] & -> & ->). reflexivity.
  - split; [discriminate|]. intros (? & ? & ? & _). discriminate.
  - split; [discriminate|]. intros (? & ? & ? & _). discriminate.
  - split; [discriminate|]. intros (? & ? & ? & _). discriminate.
Qed.

(** An unmarked alias is built exactly when the type it names is
    built. *)
Lemma encodeItem_alias k n tags stx item typ v stx' :
  getRawItemByName n (env.raw stx) = Some item ->
  env.objs stx !! n = None ->
  astStruct.implFunc item = false ->
  astStruct.obj item = None ->
  astStruct.typ item = Some typ ->
  encodeItem' (S k) n tags stx = Ok (v, stx')
  <-> exists w st1,
        parseASTFieldType' k n tags typ stx = Ok (Some w, st1)
        /\ v = set_obj n (set_name n w)
        /\ stx' = env.set_objs (<[n := v]> (env.objs st1)) st1.
Proof.
  intros Hraw Hobjs Himpl Hobj Htyp. simpl. unfold encodeItem_body, buildItem.
  rewrite Hobjs, Hraw, Himpl, Hobj, Htyp.
  destruct (parseASTFieldType' k n tags typ stx) as [[[w|] st1]| | |].
  - rewrite copy_id. split.
    + intros [= <- <-]. eauto.
    + intros (w' & st1' & [= <- <-] & -> & ->). reflexivity.
  - split; [discriminate|]. intros (? & ? & ? & _). discriminate.
  - split; [discriminate|]. intros (? & ? & ? & _). discriminate.
  - split; [discriminate|]. intros (? & ? & ? & _). discriminate.
  - split; [discriminate|]. intros (? & ? & ? & _). discriminate.
Qed.

Lemma generateIR_raw_names fuel st st' :
  generateIR' fuel st = Ok (tt, st') ->
  map astStruct.name (env.raw st') = map astStruct.name (allDecls st).
Proof.
  intros H. apply generateIR_raw in H as (results & _ & _ & ->).
  apply names_of_keys. rewrite map_key_mark. apply keys_collected.
Qed.

Lemma generateIR_implFunc fuel st st' item :
  generateIR' fuel st = Ok (tt, st') ->
  In item (env.raw st') ->
  astStruct.implFunc item = true
  <-> exists file,
        In file (allFiles st)
        /\ ast.Name file = astStruct.packName item
        /\ acceptedMethods file (astStruct.name item) = 4%nat.
Proof.
  intros H Hin. apply generateIR_raw in H as (results & Hall & _ & Hraw).
  rewrite Hraw in Hin. apply in_map_iff in Hin as (x & <- & Hx).
  apply collected_implFunc in Hx.
  rewrite <- (marked_iff _ _ _ _ Hall).
  pose proof (key_mark (marked results) x) as Hk. unfold key in Hk.
  injection Hk as -> ->.
  unfold mark. destruct (marked results _ _); simpl; [tauto|].
  rewrite Hx. tauto.
Qed.

End ReferenceCapture.

(** C3, as the code has it.  In a schema whose type names are all
    distinct, after the model is built: a declared type carries the mark
    [implFunc] exactly when some file of its package, not necessarily the
    one that declares it, holds exactly four accepted methods on a pointer
    to it; a method whose parameter and result fields declare at most one
    name each is accepted exactly when its name and signature are those of
    one of the four methods; where the accepted methods have distinct
    names, four of them are the four methods.  A marked type is resolved,
    the first time, to a reference node without looking at its
    declaration; an unmarked struct is resolved exactly when its fields
    are built, to a container; an unmarked alias exactly when the type it
    names is built, to the node of that type. *)
Theorem reference_capture
  (Atoi ParseUint : string -> option Z)
  (extractSSZDimensions : string -> Result (list SSZDimension))
  (fuel : nat) (st st' : env.t) (item : astStruct.t) :
  generateIR Atoi ParseUint extractSSZDimensions fuel st = Ok (tt, st') ->
  NoDup (map astStruct.name (allDecls st)) ->
  In item (env.raw st') ->
  (astStruct.implFunc item = true
   <-> exists file,
         In file (allFiles st)
         /\ ast.Name file = astStruct.packName item
         /\ acceptedMethods file (astStruct.name item) = 4%nat)
  /\ (forall f,
        ungrouped (ast.Params (ast.FuncTy f)) = true ->
        ungrouped (default [] (ast.Results (ast.FuncTy f))) = true ->
        accepts (astStruct.name item) (ast.FuncDeclD f) = true
        <-> hasSszSignature (astStruct.name item) f)
  /\ (forall file,
        NoDup (acceptedNames file (astStruct.name item)) ->
        acceptedMethods file (astStruct.name item) = 4%nat
        <-> forall mname, In mname sszMethodNames ->
                          In mname (acceptedNames file (astStruct.name item)))
  /\ forall k tags stx,
       env.raw stx = env.raw st' ->
       env.objs stx !! astStruct.name item = None ->
       if astStruct.implFunc item then
         encodeItem Atoi ParseUint extractSSZDimensions (S k)
           (astStruct.name item) tags stx
         = Ok (referenceNode Atoi (astStruct.name item) tags item,
               env.set_objs
                 (<[astStruct.name item
                    := referenceNode Atoi (astStruct.name item) tags item]>
                    (env.objs stx)) stx)
       else
         forall v stx',
           encodeItem Atoi ParseUint extractSSZDimensions (S k)
             (astStruct.name item) tags stx = Ok (v, stx')
           <-> match astStruct.obj item, astStruct.typ item with
               | Some fields, _ =>
                   exists w st1,
                     parseASTStructType Atoi ParseUint extractSSZDimensions k
                       (astStruct.name item) fields stx = Ok (w, st1)
                     /\ v = set_obj (astStruct.name item)
                              (set_name (astStruct.name item) w)
                     /\ stx' = env.set_objs
                                 (<[astStruct.name item := v]> (env.objs st1)) st1
                     /\ t v = TypeContainer
               | None, Some typ =>
                   exists w st1,
                     parseASTFieldType Atoi ParseUint extractSSZDimensions k
                       (astStruct.name item) tags typ stx = Ok (Some w, st1)
                     /\ v = set_obj (astStruct.name item)
                              (set_name (astStruct.name item) w)
                     /\ stx' = env.set_objs
                                 (<[astStruct.name item := v]> (env.objs st1)) st1
               | None, None => False
               end.
Proof.
  intros H Hnd Hin.
  split; [exact (generateIR_implFunc _ _ _ _ _ _ _ H Hin)|].
  split; [intros f; apply accepts_signature|].
  split; [intros file; apply four_methods_iff_all|].
  intros k tags stx Hraw Hobjs.
  assert (Hget : getRawItemByName (astStruct.name item) (env.raw stx) = Some item).
  { rewrite Hraw. apply getRawItemByName_unique; [|exact Hin].
    rewrite (generateIR_raw_names _ _ _ _ _ _ H). exact Hnd. }
  destruct (astStruct.implFunc item) eqn:Himpl.
  - apply (encodeItem_reference Atoi ParseUint extractSSZDimensions k
             (astStruct.name item) tags stx item); assumption.
  - intros v stx'.
    destruct (astStruct.obj item) as [fields|] eqn:Hobj.
    + rewrite (encodeItem_struct _ _ _ k _ tags stx item fields v stx'
                 Hget Hobjs Himpl Hobj).
      split.
      * intros (w & st1 & Hp & -> & ->). exists w, st1.
        repeat split; try assumption.
        apply parseASTStructType_names in Hp as [Ht _]. exact Ht.
      * intros (w & st1 & Hp & Hv & Hs & _). eauto.
    + destruct (astStruct.typ item) as [typ|] eqn:Htyp.
      * apply (encodeItem_alias Atoi ParseUint extractSSZDimensions k
                 (astStruct.name item) tags stx item typ v stx'); assumption.
      * split; [|contradiction].
        simpl. unfold encodeItem_body, buildItem.
        rewrite Hobjs, Hget, Himpl, Hobj, Htyp. discriminate.
Qed.

Lemma reference_capture_witness :
  (astStruct.implFunc Sample.itemT = true
   <-> exists file,
         In file (allFiles Sample.envMethodsApart)
         /\ ast.Name file = astStruct.packName Sample.itemT
         /\ acceptedMethods file (astStruct.name Sample.itemT) = 4%nat)
  /\ (forall f,
        ungrouped (ast.Params (ast.FuncTy f)) = true ->
        ungrouped (default [] (ast.Results (ast.FuncTy f))) = true ->
        accepts "T" (ast.FuncDeclD f) = true <-> hasSszSignature "T" f)
  /\ forall k tags stx,
       env.raw stx = env.raw Sample.envMethodsApart' ->
       env.objs stx !! "T" = None ->
       Sample.encodeItem (S k) "T" tags stx
       = Ok (referenceNode Sample.Atoi "T" tags Sample.itemT,
             env.set_objs
               (<["T" := referenceNode Sample.Atoi "T" tags Sample.itemT]>
                  (env.objs stx)) stx).
Proof.
  assert (H : Sample.generateIR 1 Sample.envMethodsApart
              = Ok (tt, Sample.envMethodsApart')) by (vm_compute; reflexivity).
  assert (Hnd : NoDup (map astStruct.name (allDecls Sample.envMethodsApart)))
    by (vm_compute; repeat constructor; set_solver).
  assert (Hin : In Sample.itemT (env.raw Sample.envMethodsApart'))
    by (left; reflexivity).
  destruct (reference_capture Sample.Atoi Sample.ParseUint
              Sample.extractSSZDimensions 1 Sample.envMethodsApart
              Sample.envMethodsApart' Sample.itemT H Hnd Hin)
    as (Hmark & Hsig & _ & Hres).
  split; [exact Hmark|]. split; [exact Hsig|]. exact Hres.
Defined.

(** C4: the source file declares [T] in package [p], the include file
    declares [T] in package [q].  [generateIR] returns without an error;
    the registry, which knows a type by its name alone, holds the single
    entry [T] of package [p], and a field of type [*q.T] is resolved to
    that entry. *)
Lemma generateIR_accepts_same_name_across_packages :
  map key (allDecls Sample.envSameNameAcross) = [("p", "T"); ("q", "T")]
  /\ Sample.generateIR 3 Sample.envSameNameAcross
     = Ok (tt, Example.envSameNameAcross')
  /\ env.objs Example.envSameNameAcross' = {[ "T" := Example.containerPT ]}
  /\ Sample.parseASTFieldType 2 "F" ""
       (ast.StarExpr (ast.SelectorExpr (ast.Ident "q") "T"))
       Example.envSameNameAcross'
     = Ok (Some (set_ref "q" Example.containerPT), Example.envSameNameAcross').
Proof. vm_compute. repeat split; reflexivity. Qed.

(** ** Types of another package *)

Section QualifiedTypes.

Variable Atoi : string -> option Z.
Variable ParseUint : string -> option Z.
Variable extractSSZDimensions : string -> Result (list SSZDimension).

Local Abbreviation encodeItem' := (encodeItem Atoi ParseUint extractSSZDimensions).
Local Abbreviation parseASTFieldType' :=
  (parseASTFieldType Atoi ParseUint extractSSZDimensions).

Lemma encodeItem_entry fuel n tags st v st' :
  encodeItem' fuel n tags st = Ok (v, st') -> env.objs st' !! n = Some v.
Proof.
  intros H.
  apply (encodeItem_registers Atoi ParseUint extractSSZDimensions) in H
    as (r & Hr & ->).
  rewrite copy_id. exact Hr.
Qed.

Lemma parseASTFieldType_star_selector fuel fname tags pkg sel st v st' :
  omitted tags = false ->
  parseASTFieldType' (S fuel) fname tags
    (ast.StarExpr (ast.SelectorExpr (ast.Ident pkg) sel)) st = Ok (Some v, st')
  <-> exists r, encodeItem' fuel sel tags st = Ok (r, st') /\ v = set_ref pkg r.
Proof.
  intros Hom. rewrite parseASTFieldType_S. unfold parseASTFieldType_body.
  rewrite Hom. unfold bind, ret.
  destruct (encodeItem' fuel sel tags st) as [[vv st1]| | |].
  - split.
    + intros [= <- <-]. eauto.
    + intros (r & [= <- <-] & ->). reflexivity.
  - split; [discriminate|]. intros (? & ? & _). discriminate.
  - split; [discriminate|]. intros (? & ? & _). discriminate.
  - split; [discriminate|]. intros (? & ? & _). discriminate.
Qed.

Lemma parseASTFieldType_selector fuel fname tags pkg sel st v st' :
  omitted tags = false ->
  sel <> "Bitlist" -> strings.HasPrefix sel "Bitvector" = false ->
  parseASTFieldType' (S fuel) fname tags
    (ast.SelectorExpr (ast.Ident pkg) sel) st = Ok (Some v, st')
  <-> exists r, encodeItem' fuel sel tags st = Ok (r, st')
                /\ v = set_noPtr true (set_ref pkg r).
Proof.
  intros Hom Hbl Hbv. rewrite parseASTFieldType_S. unfold parseASTFieldType_body.
  apply String.eqb_neq in Hbl. rewrite Hom, Hbl, Hbv. unfold bind, ret.
  destruct (encodeItem' fuel sel tags st) as [[vv st1]| | |].
  - split.
    + intros [= <- <-]. eauto.
    + intros (r & [= <- <-] & ->). reflexivity.
  - split; [discriminate|]. intros (? & ? & _). discriminate.
  - split; [discriminate|]. intros (? & ? & _). discriminate.
  - split; [discriminate|]. intros (? & ? & _). discriminate.
Qed.

Lemma objRef_set_noPtr b v : objRef (set_noPtr b v) = objRef v.
Proof. destruct v; reflexivity. Qed.

End QualifiedTypes.

(** X10.  A field that is not omitted and whose type is a type of another
    package, [*pkg.T], or [pkg.T] with [T] neither [Bitlist] nor a name that
    begins with [Bitvector], is built exactly when [encodeItem] builds [T]:
    it is then the node of [T], which the registry holds under [T], with
    [ref] set to the package (and [noPtr] set for [pkg.T]).  When [T] is in
    the registry already, the field is built from that entry and the state
    is unchanged.  When the registry entries are filed under their names
    and the package name is not empty, [objRef] of the field is [pkg.T]. *)
Theorem qualified_reference_names_package
  (Atoi ParseUint : string -> option Z)
  (extractSSZDimensions : string -> Result (list SSZDimension))
  (fuel : nat) (fname tags pkg sel : string) (st : env.t) :
  omitted tags = false ->
  (forall v st',
     parseASTFieldType Atoi ParseUint extractSSZDimensions (S fuel) fname tags
       (ast.StarExpr (ast.SelectorExpr (ast.Ident pkg) sel)) st = Ok (Some v, st')
     <-> exists r,
           encodeItem Atoi ParseUint extractSSZDimensions fuel sel tags st
           = Ok (r, st')
           /\ v = set_ref pkg r)
  /\ (sel <> "Bitlist" -> strings.HasPrefix sel "Bitvector" = false ->
      forall v st',
        parseASTFieldType Atoi ParseUint extractSSZDimensions (S fuel) fname tags
          (ast.SelectorExpr (ast.Ident pkg) sel) st = Ok (Some v, st')
        <-> exists r,
              encodeItem Atoi ParseUint extractSSZDimensions fuel sel tags st
              = Ok (r, st')
              /\ v = set_noPtr true (set_ref pkg r))
  /\ (forall r st',
        encodeItem Atoi ParseUint extractSSZDimensions fuel sel tags st
        = Ok (r, st') ->
        env.objs st' !! sel = Some r)
  /\ (forall r,
        env.objs st !! sel = Some r ->
        parseASTFieldType Atoi ParseUint extractSSZDimensions (S (S fuel)) fname
          tags (ast.StarExpr (ast.SelectorExpr (ast.Ident pkg) sel)) st
        = Ok (Some (set_ref pkg r), st)
        /\ (sel <> "Bitlist" -> strings.HasPrefix sel "Bitvector" = false ->
            parseASTFieldType Atoi ParseUint extractSSZDimensions (S (S fuel))
              fname tags (ast.SelectorExpr (ast.Ident pkg) sel) st
            = Ok (Some (set_noPtr true (set_ref pkg r)), st)))
  /\ (registryNamed st -> pkg <> "" ->
      forall r st',
        encodeItem Atoi ParseUint extractSSZDimensions fuel sel tags st
        = Ok (r, st') ->
        objRef (set_ref pkg r) = pkg ++ "." ++ sel
        /\ objRef (set_noPtr true (set_ref pkg r)) = pkg ++ "." ++ sel).
Proof.
  intros Hom.
  split; [intros v st'; apply parseASTFieldType_star_selector, Hom|].
  split; [intros Hbl Hbv v st'; apply parseASTFieldType_selector; assumption|].
  split; [intros r st'; apply encodeItem_entry|].
  split.
  - intros r Hr.
    assert (He : encodeItem Atoi ParseUint extractSSZDimensions (S fuel) sel tags st
                 = Ok (r, st)).
    { rewrite (encodeItem_hit Atoi ParseUint extractSSZDimensions fuel sel tags st r Hr).
      rewrite copy_id. reflexivity. }
    split.
    + apply parseASTFieldType_star_selector; eauto.
    + intros Hbl Hbv. apply parseASTFieldType_selector; eauto.
  - intros Hst Hp r st' He.
    destruct (encodeItem_named Atoi ParseUint extractSSZDimensions
                _ _ _ _ _ _ Hst He) as (_ & _ & Ho).
    rewrite objRef_set_noPtr, (objRef_set_ref pkg r Hp), Ho. auto.
Qed.

Lemma qualified_reference_names_package_witness :
  Sample.parseASTFieldType 2 "Signature" ""
    (ast.StarExpr (ast.SelectorExpr (ast.Ident "ext") "Sig")) Sample.envSig
  = Ok (Some (set_ref "ext" Sample.sigNode), Sample.envSig)
  /\ Sample.parseASTFieldType 2 "Signature" ""
       (ast.SelectorExpr (ast.Ident "ext") "Sig") Sample.envSig
     = Ok (Some (set_noPtr true (set_ref "ext" Sample.sigNode)), Sample.envSig)
  /\ objRef (set_ref "ext" Sample.sigNode) = "ext" ++ "." ++ "Sig".
Proof.
  assert (Hnamed : registryNamed Sample.envSig).
  { intros n r H. unfold Sample.envSig, Sample.envWith in H. simpl in H.
    apply lookup_singleton_Some in H as [<- <-].
    vm_compute. eauto. }
  destruct (qualified_reference_names_package Sample.Atoi Sample.ParseUint
              Sample.extractSSZDimensions 0 "Signature" "" "ext" "Sig"
              Sample.envSig eq_refl) as (_ & _ & _ & Hhit & _).
  destruct (Hhit Sample.sigNode eq_refl) as [Hstar Hsel].
  split; [exact Hstar|]. split.
  - apply Hsel; [discriminate|reflexivity].
  - destruct (qualified_reference_names_package Sample.Atoi Sample.ParseUint
                Sample.extractSSZDimensions 1 "Signature" "" "ext" "Sig"
                Sample.envSig eq_refl) as (_ & _ & _ & _ & Hobj).
    apply (Hobj Hnamed ltac:(discriminate) Sample.sigNode Sample.envSig).
    vm_compute. reflexivity.
Defined.

(** ** The strings [appendWithoutRepeated] adds, in order *)

Lemma filter_ext_In' {A} (p q : A -> bool) l :
  (forall x, p x = q x) -> List.filter p l = List.filter q l.
Proof.
  intros H. induction l as [|x l IH]; simpl; [reflexivity|].
  rewrite H, IH. reflexivity.
Qed.

(** X17.  [appendWithoutRepeated s i] is [s] followed by the strings of [i]
    that are not in [s], each once, in the order of their first
    occurrence in [i]: it holds what [s] or [i] holds, and it is free of
    duplicates when [s] is. *)
Theorem appendWithoutRepeated_adds_new_once (s0 i : list string) :
  appendWithoutRepeated s0 i
  = (s0 ++ firstOccurrences
             (List.filter (fun x => bool_decide (x ∉ s0)) i))%list
  /\ (exists added,
        appendWithoutRepeated s0 i = (s0 ++ added)%list
        /\ NoDup added
        /\ forall x, In x added <-> In x i /\ ~ In x s0)
  /\ (forall x, In x (appendWithoutRepeated s0 i) <-> In x s0 \/ In x i)
  /\ (NoDup s0 -> NoDup (appendWithoutRepeated s0 i)).
Proof.
  split.
  - rewrite appendWithoutRepeated_ordered. do 2 f_equal.
    apply filter_ext_In'. intros x.
    destruct (contains x s0) eqn:Hc; simpl; symmetry.
    + apply bool_decide_eq_false. intros Hn. apply Hn.
      apply list_elem_of_In, contains_In, Hc.
    + apply bool_decide_eq_true. intros Hin.
      apply list_elem_of_In, contains_In in Hin. congruence.
  - split; [apply appendWithoutRepeated_spec|].
    split; [intros x; apply appendWithoutRepeated_In|].
    apply appendWithoutRepeated_NoDup.
Qed.

(** X24.  [isFuncDecl] accepts a function exactly when its name is one of
    the four method names and the types of its parameter fields and of its
    result fields are written as the types of that method, one field for
    each; it does not look at the names a field declares, so that
    [UnmarshalSSZ(a, b []byte) error], with two parameters, is accepted as
    a method of the interface. *)
Theorem isFuncDecl_compares_fields (f : ast.FuncDecl) :
  (isFuncDecl f = Ok true
   <-> exists ins outs results,
         In (ast.FuncName f, (ins, outs)) sszSignatures
         /\ map (fun x => ast.formatNode (ast.Type_ x)) (ast.Params (ast.FuncTy f))
            = ins
         /\ ast.Results (ast.FuncTy f) = Some results
         /\ map (fun x => ast.formatNode (ast.Type_ x)) results = outs)
  /\ accepts "T" (ast.FuncDeclD Example.groupedUnmarshal) = true
  /\ signatureTypes (ast.Params (ast.FuncTy Example.groupedUnmarshal))
     = ["[]byte"; "[]byte"]
  /\ ~ hasSszSignature "T" Example.groupedUnmarshal.
Proof.
  split.
  - rewrite isFuncDecl_types. split.
    + intros (ins & outs & Hsig & H).
      apply isSpecificFunc_types in H as (Hi & results & Hr & Ho).
      exists ins, outs, results. auto.
    + intros (ins & outs & results & Hsig & Hi & Hr & Ho).
      exists ins, outs. split; [exact Hsig|].
      apply isSpecificFunc_types. eauto.
  - split; [reflexivity|]. split; [reflexivity|].
    intros (_ & ins & outs & Hsig & Hi & _).
    vm_compute in Hi. subst ins.
    destruct Hsig as [E|[E|[E|[E|[]]]]]; discriminate E.
Qed.
